(** * Trip merge and route sequencing: a shallow embedding

    Source files embedded here:
    - [src/utils/geo-utils.ts]            (distance, [calculateRouteWithStops],
      [calculateCenter])
    - [src/routes/trip-merge-routes.ts]   ([optimizeRoute], the eligibility
      endpoint, merge, optimize-sequence, unmerge)
    - [src/services/trip-merge-service.ts] (eligibility checks, manual merging,
      the search for merges, recommendations, and the configuration service
      appended to it)

    Conventions.  JavaScript numbers that the code only stores, copies and
    compares are modelled as rationals [Q]; where it computes with them and
    the rounding of the result matters (the scores of the recommendations,
    the center of a set of points), the computation is done in IEEE 754
    doubles, with their infinities and NaN.  Integers that the code uses as
    integers (ids, array indices, millisecond timestamps, sequence numbers)
    are [Z] or [nat].  A nullable column is an [option].  The great-circle
    distance uses trigonometric functions on floating point numbers, so it is
    a variable of the development; everything else is defined and
    executable. *)

From Stdlib Require Import QArith Qround Qabs Lqa Sorting.Sorted Permutation.
From Stdlib Require Import Floats.SpecFloat.
From stdpp Require Import gmap strings list pretty.

Open Scope Z_scope.

(** ** JavaScript numbers *)

(** [a > b] on numbers. *)
Definition Qgtb (a b : Q) : bool := negb (Qle_bool a b).

(** [Math.abs]. *)
Definition Math_abs (a : Q) : Q := Qabs a.

(** ** Doubles

    A double is a [spec_float] of the Standard Library with 53 bits of
    precision: a signed zero, a signed infinity, NaN, or a sign, a mantissa
    and an exponent.  The four operations round to the nearest double, ties
    to even. *)

Abbreviation double := spec_float.

Module Double.
Definition prec : Z := 53.
Definition emax : Z := 1024.
Definition add : double -> double -> double := SFadd prec emax.
Definition sub : double -> double -> double := SFsub prec emax.
Definition mul : double -> double -> double := SFmul prec emax.
Definition div : double -> double -> double := SFdiv prec emax.
End Double.

Declare Scope double_scope.
Delimit Scope double_scope with D.
Infix "+" := Double.add : double_scope.
Infix "-" := Double.sub : double_scope.
Infix "*" := Double.mul : double_scope.
Infix "/" := Double.div : double_scope.

(** The double nearest to a rational, ties to even: the rational itself when
    it is a double, and what a literal such as [0.4] denotes.  The quotient
    is taken with more than 55 bits and made odd when it is inexact, so that
    rounding it to 53 bits rounds the rational. *)
Definition double_of_Q (q : Q) : double :=
  let n := Z.abs (Qnum q) in
  let d := Z.pos (Qden q) in
  if n =? 0 then S754_zero false else
  let s := Z.max 0 (Z.log2 d - Z.log2 n + 56) in
  let scaled := n * 2 ^ s in
  let quotient := Z.lor (scaled / d) (if scaled mod d =? 0 then 0 else 1) in
  let x := binary_normalize Double.prec Double.emax quotient (- s) false in
  if Qnum q <? 0 then SFopp x else x.

(** [Math.max] of two numbers: NaN if one of them is, and [+0] is greater
    than [-0]. *)
Definition Math_max (a b : double) : double :=
  match a, b with
  | S754_nan, _ | _, S754_nan => S754_nan
  | S754_zero negative_a, S754_zero negative_b =>
      S754_zero (negative_a && negative_b)
  | _, _ => if SFltb a b then b else a
  end.

(** What [Math.round] returns: NaN, an infinity, or an integer (its sign
    when it is zero, which nothing reads, is left out). *)
Inductive Rounded :=
  | NotANumber
  | Infinite (negative : bool)
  | Integer (z : Z).

(** [Math.round]: the integer nearest to the number, the greater one of two
    that are equally near. *)
Definition Math_round (x : double) : Rounded :=
  match x with
  | S754_nan => NotANumber
  | S754_infinity negative => Infinite negative
  | S754_zero _ => Integer 0
  | S754_finite negative m e =>
      let n := if negative then Z.neg m else Z.pos m in
      Integer (if 0 <=? e then n * 2 ^ e
               else (n + 2 ^ (- e - 1)) / 2 ^ (- e))
  end.

(** [a >= n] for a result [a] of [Math.round] and an integer [n]. *)
Definition rounded_geb (a : Rounded) (n : Z) : bool :=
  match a with
  | Integer z => n <=? z
  | Infinite negative => negb negative
  | NotANumber => false
  end.

(** [b - a] for two results of [Math.round], as a comparator of [sort]
    returns it.  [sort] reads only the sign of what its comparator returns
    and takes NaN (here the difference of an infinity and itself, or of
    anything and NaN) for [0]; the difference of two doubles has the sign of
    their exact difference, which is what this gives. *)
Definition rounded_difference (b a : Rounded) : Q :=
  match b, a with
  | Integer x, Integer y => inject_Z (x - y)
  | NotANumber, _ | _, NotANumber => 0
  | Infinite negative_b, Infinite negative_a =>
      if negative_b then (if negative_a then 0 else -1)
      else (if negative_a then 1 else 0)
  | Infinite negative_b, Integer _ => if negative_b then -1 else 1
  | Integer _, Infinite negative_a => if negative_a then 1 else -1
  end%Q.

(** ** [Array.prototype.sort] with a comparator

    The sort is stable.  Each element is inserted into the sorted rest of the
    array, which it preceded; it moves behind an element only when the
    comparator is positive on the two, so elements on which the comparator is
    zero keep their order. *)

Section JsSort.
Context {A : Type} (cmp : A -> A -> Q).

Fixpoint sort_insert (x : A) (l : list A) : list A :=
  match l with
  | [] => [x]
  | y :: l' => if Qle_bool (cmp x y) 0%Q then x :: y :: l' else y :: sort_insert x l'
  end.

Definition js_sort (l : list A) : list A := foldr sort_insert [] l.
End JsSort.

(** ** [Map<number, V>]: insertion-ordered association list *)

Module JsMap.
Section Defs.
Context {V : Type}.

Definition t := list (Z * V).

Definition empty : t := [].

Fixpoint get (m : t) (k : Z) : option V :=
  match m with
  | [] => None
  | (k', v) :: m' => if decide (k' = k) then Some v else get m' k
  end.

Definition has (m : t) (k : Z) : bool := bool_decide (is_Some (get m k)).

(** [set] overwrites in place or appends at the end. *)
Fixpoint set (m : t) (k : Z) (v : V) : t :=
  match m with
  | [] => [(k, v)]
  | (k', v') :: m' =>
      if decide (k' = k) then (k', v) :: m' else (k', v') :: set m' k v
  end.

Definition entries (m : t) : list (Z * V) := m.
End Defs.
Arguments t : clear implicits.
End JsMap.

(** ** Data model

    The columns of [bookings] that the embedded code reads or writes; the
    time stamp [updated_at] is left out. *)

Record LatLng := mkLatLng { lat : Q; lng : Q }.

Record Location := mkLocation {
  address : string;
  coordinates : LatLng;
  zone : option string
}.

(** The two values the code gives to [stopType]. *)
Inductive StopType := pickup | dropoff.

#[global] Instance StopType_eq_dec : EqDecision StopType.
Proof. solve_decision. Defined.

Record Waypoint := mkWaypoint {
  wp_location : LatLng;
  stopType : StopType;
  bookingId : Z
}.

Record Point := mkPoint { pt_location : LatLng; pt_bookingId : Z }.

(** The object [optimizeRoute] returns, stored in [optimized_route]. *)
Record OptimizedRoute := mkOptimizedRoute {
  waypoints : list Waypoint;
  waypointOrder : list nat;
  distance : Q;
  duration : Q;
  polyline : string
}.

Record Booking := mkBooking {
  id : Z;
  reference_no : string;
  status : string;
  booking_type : string;
  priority : string;
  pickup_location : Location;
  dropoff_location : Location;
  pickup_time : Z;                     (* getTime(), milliseconds *)
  dropoff_time : option Z;
  passenger_count : option Z;
  vehicle_type : option string;
  vehicle_id : option Z;
  assigned_vehicle_id : option Z;
  estimated_distance : Q;
  estimated_duration : Q;
  is_merged : bool;
  merged_with_booking_id : option Z;
  merged_booking_ids : list string;
  has_merged_trips : bool;
  trip_id : option string;
  optimized_route : option OptimizedRoute;
  pickup_sequence : option Z;
  dropoff_sequence : option Z;
  parent_booking_id : option Z;
  is_parent_booking : bool;
  route_sequence : option Z;
  route_polyline : option string;
  last_modified_by : option string;
  modification_notes : option string
}.

Record Vehicle := mkVehicle {
  veh_id : Z;
  veh_vehicle_type : option string;
  capacity : Z
}.

(** Truthiness of a nullable integer column ([0] and [null] are falsy). *)
Definition truthy (o : option Z) : bool :=
  match o with Some n => negb (n =? 0) | None => false end.

(** ** [src/utils/geo-utils.ts] *)

(** The returned object: [route] is the array [[origin, ...stops, destination]],
    kept here as its three parts since the arguments are untyped ([any]). *)
Record RouteWithStops (O D S : Type) := mkRouteWithStops {
  rs_route : O * list S * option D;
  rs_distance : Q;
  rs_duration : Q
}.
Arguments mkRouteWithStops {O D S}.
Arguments rs_route {O D S}.
Arguments rs_distance {O D S}.
Arguments rs_duration {O D S}.

(** [calculateRouteWithStops(origin, destination, stops = [])]; an omitted
    [destination] is [undefined], here [None]. *)
Definition calculateRouteWithStops {O D S : Type}
    (origin : O) (destination : option D) (stops : list S) : RouteWithStops O D S :=
  {| rs_route := (origin, stops, destination);
     rs_distance := 0%Q;
     rs_duration := 0%Q |}.

(** ** [src/routes/trip-merge-routes.ts]: the route sequencer *)

(** What [fetch] and [response.json()] give back from the Directions API. *)
Record Leg := mkLeg { leg_distance_value : Q; leg_duration_value : Q }.

Record DirectionsRoute := mkDirectionsRoute {
  waypoint_order : option (list nat);
  legs : list Leg;
  overview_polyline : option string
}.

Record DirectionsData := mkDirectionsData {
  data_status : string;
  routes : list DirectionsRoute
}.

Inductive FetchResult :=
  | FetchThrows                                   (* network failure, bad JSON *)
  | HttpResponse (ok : bool) (data : DirectionsData).

(** An index of the sequence map: [None] is [Infinity]. *)
Definition index_gt (a b : option nat) : bool :=
  match a, b with
  | None, None => false
  | None, Some _ => true
  | Some _, None => false
  | Some x, Some y => bool_decide (y < x)%nat
  end.

Record Mapping := mkMapping { pickupIndex : option nat; dropoffIndex : option nat }.

Section RouteSequencer.
(** [haversineDistance(lat1, lon1, lat2, lon2)] of geo-utils.ts, in km. *)
Variable calculateDistance : Q -> Q -> Q -> Q -> Q.

Definition haversineDistance := calculateDistance.

Definition build_waypoints (pickupPoints dropoffPoints : list Point) : list Waypoint :=
  map (fun point => mkWaypoint (pt_location point) pickup (pt_bookingId point)) pickupPoints
  ++ map (fun point => mkWaypoint (pt_location point) dropoff (pt_bookingId point)) dropoffPoints.

(** Lines 112-116: every booking starts at [Infinity, Infinity]. *)
Definition init_sequenceMap (wps : list Waypoint) : JsMap.t Mapping :=
  foldl (fun m wp =>
           if JsMap.has m (bookingId wp) then m
           else JsMap.set m (bookingId wp) (mkMapping None None))
        JsMap.empty wps.

(** Lines 119-130.  [waypoints[waypointIdx]] out of range is [undefined] and
    reading its [bookingId] throws: [None]. *)
Fixpoint apply_order (wps : list Waypoint) (order : list nat) (sequenceIdx : nat)
    (sequenceMap : JsMap.t Mapping) : option (JsMap.t Mapping) :=
  match order with
  | [] => Some sequenceMap
  | waypointIdx :: rest =>
      match wps !! waypointIdx with
      | None => None
      | Some waypoint =>
          match JsMap.get sequenceMap (bookingId waypoint) with
          | None => None
          | Some currentMapping =>
              let updated :=
                match stopType waypoint with
                | pickup => mkMapping (Some sequenceIdx) (dropoffIndex currentMapping)
                | dropoff => mkMapping (pickupIndex currentMapping) (Some sequenceIdx)
                end in
              apply_order wps rest (S sequenceIdx)
                (JsMap.set sequenceMap (bookingId waypoint) updated)
          end
      end
  end.

(** Lines 133-139. *)
Definition requiresAdjustment (sequenceMap : JsMap.t Mapping) : bool :=
  existsb (fun entry => index_gt (pickupIndex entry.2) (dropoffIndex entry.2))
          (JsMap.entries sequenceMap).

(** Lines 145-158: the pickups, sorted by distance from the start. *)
Definition distance_from (startLocation : LatLng) (wp : Waypoint) : Q :=
  haversineDistance (lat startLocation) (lng startLocation)
                    (lat (wp_location wp)) (lng (wp_location wp)).

Definition sorted_pickups (startLocation : LatLng) (wps : list Waypoint) : list Waypoint :=
  js_sort (fun a b => (distance_from startLocation a - distance_from startLocation b)%Q)
          (filter (fun wp => stopType wp = pickup) wps).

(** Lines 161-170: for each pickup, the first dropoff of the same booking. *)
Definition matching_dropoffs (pickupBookingIds : list Z) (dropoffs : list Waypoint)
    : list Waypoint :=
  flat_map (fun bid =>
              match find (fun d => bool_decide (bookingId d = bid)) dropoffs with
              | Some matchingDropoff => [matchingDropoff]
              | None => []
              end)
           pickupBookingIds.

Definition repaired_waypoints (startLocation : LatLng) (wps : list Waypoint)
    : list Waypoint :=
  let reorderedWaypoints := sorted_pickups startLocation wps in
  let pickupBookingIds := map bookingId reorderedWaypoints in
  let dropoffs := filter (fun wp => stopType wp = dropoff) wps in
  reorderedWaypoints ++ matching_dropoffs pickupBookingIds dropoffs.

Definition sum_legs (f : Leg -> Q) (ls : list Leg) : Q :=
  foldl (fun sum leg => (sum + f leg)%Q) 0%Q ls.

(** [optimizeRoute], lines 26-195.  [apiKey] is what [getGoogleMapsApiKey]
    returns and [response] what the request to the Directions API yields;
    the URL itself plays no part in the result.  Every [return null],
    including the one of the [catch], is [None]. *)
Definition optimizeRoute (apiKey : string) (response : FetchResult)
    (pickupPoints dropoffPoints : list Point) (startLocation : LatLng)
    : option OptimizedRoute :=
  if bool_decide (apiKey = "") then None else
  let wps := build_waypoints pickupPoints dropoffPoints in
  if bool_decide (length wps < 1)%nat then None else
  (* destination: dropoffPoints[dropoffPoints.length - 1].location *)
  match last dropoffPoints with
  | None => None
  | Some _ =>
  match response with
  | FetchThrows => None
  | HttpResponse ok data =>
  if negb ok then None else
  if negb (bool_decide (data_status data = "OK")) then None else
  match routes data with
  | [] => None
  | route :: _ =>
      let optimizedWaypointOrder := default [] (waypoint_order route) in
      let totalDistance := (sum_legs leg_distance_value (legs route) / 1000)%Q in
      let totalDuration := (sum_legs leg_duration_value (legs route) / 60)%Q in
      let encodedPolyline := default "" (overview_polyline route) in
      match apply_order wps optimizedWaypointOrder 0 (init_sequenceMap wps) with
      | None => None
      | Some sequenceMap =>
          if requiresAdjustment sequenceMap then
            let reorderedWaypoints := repaired_waypoints startLocation wps in
            Some {| waypoints := reorderedWaypoints;
                    waypointOrder := seq 0 (length reorderedWaypoints);
                    distance := totalDistance;
                    duration := totalDuration;
                    polyline := encodedPolyline |}
          else
            let reorderedWaypoints :=
              omap (fun idx => wps !! idx) optimizedWaypointOrder in
            Some {| waypoints := reorderedWaypoints;
                    waypointOrder := optimizedWaypointOrder;
                    distance := totalDistance;
                    duration := totalDuration;
                    polyline := encodedPolyline |}
      end
  end
  end
  end.
End RouteSequencer.

(** ** The [bookings] table

    A table is the list of its rows; [where(eq(bookings.id, x))] keeps the rows
    whose [id] is [x], and an [update ... where] rewrites exactly those rows. *)

Abbreviation Db := (list Booking).

Definition select_by_id (db : Db) (x : Z) : option Booking :=
  head (filter (fun b => id b = x) db).

Definition update_by_id (db : Db) (x : Z) (f : Booking -> Booking) : Db :=
  map (fun b => if decide (id b = x) then f b else b) db.

(** The [.set({...})] objects of trip-merge-routes.ts, one function each. *)

(** Lines 471-477: the parent of a merge. *)
Definition set_merge_parent (childBookingIds : list Z) (tripId : string)
    (optimizedRoute : option OptimizedRoute) (b : Booking) : Booking :=
  {| id := id b; reference_no := reference_no b;
     status := "confirmed";
     booking_type := booking_type b; priority := priority b;
     pickup_location := pickup_location b; dropoff_location := dropoff_location b;
     pickup_time := pickup_time b; dropoff_time := dropoff_time b;
     passenger_count := passenger_count b; vehicle_type := vehicle_type b;
     vehicle_id := vehicle_id b; assigned_vehicle_id := assigned_vehicle_id b;
     estimated_distance := estimated_distance b;
     estimated_duration := estimated_duration b;
     is_merged := is_merged b;
     merged_with_booking_id := merged_with_booking_id b;
     merged_booking_ids := map pretty childBookingIds;
     has_merged_trips := true;
     trip_id := Some tripId;
     optimized_route := optimizedRoute;
     pickup_sequence := pickup_sequence b; dropoff_sequence := dropoff_sequence b;
     parent_booking_id := parent_booking_id b;
     is_parent_booking := is_parent_booking b;
     route_sequence := route_sequence b; route_polyline := route_polyline b;
     last_modified_by := last_modified_by b;
     modification_notes := modification_notes b |}.

(** Lines 484-489: a child of a merge. *)
Definition set_merge_child (parentBookingId : Z) (tripId : string) (b : Booking)
    : Booking :=
  {| id := id b; reference_no := reference_no b;
     status := "merged";
     booking_type := booking_type b; priority := priority b;
     pickup_location := pickup_location b; dropoff_location := dropoff_location b;
     pickup_time := pickup_time b; dropoff_time := dropoff_time b;
     passenger_count := passenger_count b; vehicle_type := vehicle_type b;
     vehicle_id := vehicle_id b; assigned_vehicle_id := assigned_vehicle_id b;
     estimated_distance := estimated_distance b;
     estimated_duration := estimated_duration b;
     is_merged := true;
     merged_with_booking_id := Some parentBookingId;
     merged_booking_ids := merged_booking_ids b;
     has_merged_trips := has_merged_trips b;
     trip_id := Some tripId;
     optimized_route := optimized_route b;
     pickup_sequence := pickup_sequence b; dropoff_sequence := dropoff_sequence b;
     parent_booking_id := parent_booking_id b;
     is_parent_booking := is_parent_booking b;
     route_sequence := route_sequence b; route_polyline := route_polyline b;
     last_modified_by := last_modified_by b;
     modification_notes := modification_notes b |}.

(** Lines 522-525 and 534-537: the two sequence numbers. *)
Definition set_sequences (pickupSeq dropoffSeq : Z) (b : Booking) : Booking :=
  {| id := id b; reference_no := reference_no b;
     status := status b;
     booking_type := booking_type b; priority := priority b;
     pickup_location := pickup_location b; dropoff_location := dropoff_location b;
     pickup_time := pickup_time b; dropoff_time := dropoff_time b;
     passenger_count := passenger_count b; vehicle_type := vehicle_type b;
     vehicle_id := vehicle_id b; assigned_vehicle_id := assigned_vehicle_id b;
     estimated_distance := estimated_distance b;
     estimated_duration := estimated_duration b;
     is_merged := is_merged b;
     merged_with_booking_id := merged_with_booking_id b;
     merged_booking_ids := merged_booking_ids b;
     has_merged_trips := has_merged_trips b;
     trip_id := trip_id b;
     optimized_route := optimized_route b;
     pickup_sequence := Some pickupSeq; dropoff_sequence := Some dropoffSeq;
     parent_booking_id := parent_booking_id b;
     is_parent_booking := is_parent_booking b;
     route_sequence := route_sequence b; route_polyline := route_polyline b;
     last_modified_by := last_modified_by b;
     modification_notes := modification_notes b |}.

(** Lines 867-880: the booking taken out of its trip.  [oldStatus] is the
    status read before the transaction started. *)
Definition set_unmerged (oldStatus : string) (username : string)
    (parentBookingId : Z) (b : Booking) : Booking :=
  {| id := id b; reference_no := reference_no b;
     status := if bool_decide (oldStatus = "assigned") then "approved" else oldStatus;
     booking_type := booking_type b; priority := priority b;
     pickup_location := pickup_location b; dropoff_location := dropoff_location b;
     pickup_time := pickup_time b; dropoff_time := dropoff_time b;
     passenger_count := passenger_count b; vehicle_type := vehicle_type b;
     vehicle_id := vehicle_id b; assigned_vehicle_id := assigned_vehicle_id b;
     estimated_distance := estimated_distance b;
     estimated_duration := estimated_duration b;
     is_merged := false;
     merged_with_booking_id := merged_with_booking_id b;
     merged_booking_ids := merged_booking_ids b;
     has_merged_trips := has_merged_trips b;
     trip_id := None;
     optimized_route := optimized_route b;
     pickup_sequence := pickup_sequence b; dropoff_sequence := dropoff_sequence b;
     parent_booking_id := None;
     is_parent_booking := is_parent_booking b;
     route_sequence := None; route_polyline := None;
     last_modified_by := Some username;
     modification_notes :=
       Some ("Unmerged from trip with parent booking ID " +:+ pretty parentBookingId) |}.

(** Lines 900-907: the parent once its last child has gone. *)
Definition set_parent_cleared (username : string) (b : Booking) : Booking :=
  {| id := id b; reference_no := reference_no b;
     status := status b;
     booking_type := booking_type b; priority := priority b;
     pickup_location := pickup_location b; dropoff_location := dropoff_location b;
     pickup_time := pickup_time b; dropoff_time := dropoff_time b;
     passenger_count := passenger_count b; vehicle_type := vehicle_type b;
     vehicle_id := vehicle_id b; assigned_vehicle_id := assigned_vehicle_id b;
     estimated_distance := estimated_distance b;
     estimated_duration := estimated_duration b;
     is_merged := is_merged b;
     merged_with_booking_id := merged_with_booking_id b;
     merged_booking_ids := merged_booking_ids b;
     has_merged_trips := has_merged_trips b;
     trip_id := None;
     optimized_route := optimized_route b;
     pickup_sequence := pickup_sequence b; dropoff_sequence := dropoff_sequence b;
     parent_booking_id := parent_booking_id b;
     is_parent_booking := false;
     route_sequence := route_sequence b; route_polyline := None;
     last_modified_by := Some username;
     modification_notes := Some "All child bookings have been unmerged" |}.

(** ** Transactions

    The callback of [db.transaction] either returns a value with the table it
    has written, or throws; [thrown_at] keeps the table as the callback left
    it, which the rollback then discards. *)

Inductive TxOutcome (A : Type) :=
  | Returns (a : A) (db' : Db)
  | Throws (message : string) (thrown_at : Db).
Arguments Returns {A}.
Arguments Throws {A}.

Definition db_transaction {A : Type} (callback : Db -> TxOutcome A) (db : Db)
    : (string + A) * Db :=
  match callback db with
  | Returns a db' => (inr a, db')
  | Throws message _ => (inl message, db)
  end.

(** ** [src/routes/trip-merge-routes.ts]: merge and unmerge *)

(** The JSON envelope of a reply. *)
Record HttpReply (A : Type) := mkHttpReply {
  http_status : Z;
  success : bool;
  message : string;
  data : option A
}.
Arguments mkHttpReply {A}.
Arguments http_status {A}.
Arguments success {A}.
Arguments message {A}.
Arguments data {A}.

Record Sequence := mkSequence { pickupSequence : Z; dropoffSequence : Z }.

Record TripSummary := mkTripSummary {
  ts_tripId : string;
  ts_route : option OptimizedRoute;
  ts_sequence : option (list (StopType * LatLng * Z))
}.

Record MergeResult := mkMergeResult {
  mr_parent : option Booking;
  mr_children : list Booking;
  mr_trip : TripSummary
}.

(** Lines 418-431: the first child that is missing or already merged makes
    the callback throw. *)
Fixpoint verify_children (db : Db) (childBookingIds : list Z) : option string :=
  match childBookingIds with
  | [] => None
  | childId :: rest =>
      match select_by_id db childId with
      | None => Some ("Child booking with id " +:+ pretty childId +:+ " not found")
      | Some childBooking =>
          if is_merged childBooking
          then Some ("Child booking with id " +:+ pretty childId +:+ " is already merged")
          else verify_children db rest
      end
  end.

(** Lines 496-513: sequence numbers read off the positions of the waypoints. *)
Fixpoint build_sequences (wps : list Waypoint) (index : nat)
    (sequenceMap : JsMap.t Sequence) : JsMap.t Sequence :=
  match wps with
  | [] => sequenceMap
  | waypoint :: rest =>
      let m1 :=
        if JsMap.has sequenceMap (bookingId waypoint) then sequenceMap
        else JsMap.set sequenceMap (bookingId waypoint) (mkSequence (-1) (-1)) in
      let sequence :=
        default (mkSequence (-1) (-1)) (JsMap.get m1 (bookingId waypoint)) in
      let updated :=
        match stopType waypoint with
        | pickup => mkSequence (Z.of_nat index) (dropoffSequence sequence)
        | dropoff => mkSequence (pickupSequence sequence) (Z.of_nat index)
        end in
      build_sequences rest (S index) (JsMap.set m1 (bookingId waypoint) updated)
  end.

(** Lines 516-527. *)
Definition write_sequences (db : Db) (sequenceEntries : list (Z * Sequence)) : Db :=
  foldl (fun d entry =>
           update_by_id d entry.1
             (set_sequences (pickupSequence entry.2) (dropoffSequence entry.2)))
        db sequenceEntries.

(** Lines 530-539: the loop [for (i = 0; i < allBookingIds.length; i++)], with
    [len = allBookingIds.length] and [ids] the identifiers from [i] on. *)
Fixpoint fallback_sequences (len : nat) (ids : list Z) (i : nat) (db : Db) : Db :=
  match ids with
  | [] => db
  | bid :: rest =>
      fallback_sequences len rest (S i)
        (update_by_id db bid
           (set_sequences (Z.of_nat i) (Z.of_nat len * 2 - Z.of_nat i - 1)))
  end.

(** Lines 468-540: what a merge writes, given the answer of [optimizeRoute]. *)
Definition merge_writes (parentBookingId : Z) (childBookingIds : list Z)
    (tripId : string) (optimizedRoute : option OptimizedRoute) (db : Db) : Db :=
  let db1 :=
    update_by_id db parentBookingId
      (set_merge_parent childBookingIds tripId optimizedRoute) in
  let db2 :=
    foldl (fun d childId =>
             update_by_id d childId (set_merge_child parentBookingId tripId))
          db1 childBookingIds in
  match optimizedRoute with
  | Some route =>
      write_sequences db2
        (JsMap.entries (build_sequences (waypoints route) 0 JsMap.empty))
  | None =>
      let allBookingIds := parentBookingId :: childBookingIds in
      fallback_sequences (length allBookingIds) allBookingIds 0 db2
  end.

Section MergeRoutes.
Variable calculateDistance : Q -> Q -> Q -> Q -> Q.

(** What the handler takes from its surroundings: the configured API key,
    the answer of the Directions API, and the identifier that
    [generateTripId] derives from the clock. *)
Variable apiKey : string.
Variable response : FetchResult.
Variable tripId : string.

(** Lines 402-566, the callback given to [db.transaction]. *)
Definition merge_callback (parentBookingId : Z) (childBookingIds : list Z)
    (db : Db) : TxOutcome MergeResult :=
  match select_by_id db parentBookingId with
  | None => Throws "Parent booking not found" db
  | Some parentBooking =>
  if is_merged parentBooking
  then Throws "Cannot use a merged booking as a parent" db else
  match verify_children db childBookingIds with
  | Some thrown => Throws thrown db
  | None =>
  match mapM (select_by_id db) childBookingIds with
  | None => Throws "TypeError" db
  | Some childRows =>
      let allBookings := parentBooking :: childRows in
      let pickupPoints :=
        map (fun booking =>
               mkPoint (coordinates (pickup_location booking)) (id booking))
            allBookings in
      let dropoffPoints :=
        map (fun booking =>
               mkPoint (coordinates (dropoff_location booking)) (id booking))
            allBookings in
      let startLocation :=
        if truthy (assigned_vehicle_id parentBooking)
        then mkLatLng (25276987 # 1000000) (55296249 # 1000000)
        else coordinates (pickup_location parentBooking) in
      let optimizedRoute :=
        optimizeRoute calculateDistance apiKey response
                      pickupPoints dropoffPoints startLocation in
      let db3 :=
        merge_writes parentBookingId childBookingIds tripId optimizedRoute db in
      Returns
        {| mr_parent := select_by_id db3 parentBookingId;
           mr_children :=
             filter (fun b => merged_with_booking_id b = Some parentBookingId) db3;
           mr_trip :=
             {| ts_tripId := tripId;
                ts_route := optimizedRoute;
                ts_sequence :=
                  (fun route =>
                     map (fun wp => (stopType wp, wp_location wp, bookingId wp))
                         (waypoints route)) <$> optimizedRoute |} |}
        db3
  end
  end
  end.

(** [router.post('/api/bookings/merge')], lines 390-580.  A missing
    [parentBookingId] is [0] here, like every falsy value. *)
Definition merge (parentBookingId : Z) (childBookingIds : list Z) (db : Db)
    : HttpReply MergeResult * Db :=
  if (parentBookingId =? 0) || bool_decide (length childBookingIds = 0%nat)
  then (mkHttpReply 400 false
          "Invalid request. parentBookingId and childBookingIds array are required"
          None, db)
  else
    match db_transaction (merge_callback parentBookingId childBookingIds) db with
    | (inr result, db') =>
        (mkHttpReply 200 true "Bookings merged successfully" (Some result), db')
    | (inl thrown, db') => (mkHttpReply 500 false thrown None, db')
    end.
End MergeRoutes.

(** ** Values as the driver returns them

    [count( * )] is a [bigint], which the driver returns as its decimal
    string; the annotation [sql<number>] converts nothing.  So the value read
    from the count is a string or, after [|| 0], possibly the number 0. *)

Inductive JsValue :=
  | JsString (s : string)
  | JsNumber (n : Z).

(** [select({ count: sql`count( * )` })]: one row, with the count of [rows]. *)
Definition sql_count (rows : list Booking) : JsValue :=
  JsString (pretty (Z.of_nat (length rows))).

(** [a || b]: the empty string and the number 0 are falsy. *)
Definition js_or (a b : JsValue) : JsValue :=
  match a with
  | JsString s => if bool_decide (s = "") then b else a
  | JsNumber n => if n =? 0 then b else a
  end.

(** [a === b]: a string and a number are never strictly equal. *)
Definition strict_equal (a b : JsValue) : bool :=
  match a, b with
  | JsString s, JsString t => bool_decide (s = t)
  | JsNumber n, JsNumber m => n =? m
  | _, _ => false
  end.

Section Unmerge.
(** The schema and the driver are not among the sources.  [id_fits x] tells
    whether the integer column [bookings.id] can hold the number [x]; a query
    that compares the column with a number it cannot hold fails, and
    [failedQuery x] is the message of the error the driver then throws.  No
    row has such an id. *)
Variable id_fits : Z -> bool.
Variable failedQuery : Z -> string.

(** [router.post('/api/bookings/:id/unmerge')], lines 828-923.  [bookingId] is
    [parseInt(req.params.id)] with [None] for [NaN]; [user] is
    [req.user?.username].  The first query stands outside the transaction; its
    failure is caught at line 916. *)
Definition unmerge (bookingId : option Z) (user : option string) (db : Db)
    : HttpReply unit * Db :=
  match bookingId with
  | None => (mkHttpReply 400 false "Invalid booking ID" None, db)
  | Some bookingId =>
  match select_by_id db bookingId with
  | None =>
      if id_fits bookingId
      then (mkHttpReply 404 false
              ("Booking with ID " +:+ pretty bookingId +:+ " not found") None, db)
      else (mkHttpReply 500 false (failedQuery bookingId) None, db)
  | Some bookingToUnmerge =>
  if negb (is_merged bookingToUnmerge)
     || negb (truthy (parent_booking_id bookingToUnmerge))
  then (mkHttpReply 400 false
          ("Booking with ID " +:+ pretty bookingId
             +:+ " is not part of a merged trip") None, db)
  else
    let parentBookingId := default 0 (parent_booking_id bookingToUnmerge) in
    let username :=
      match user with
      | Some name => if bool_decide (name = "") then "system" else name
      | None => "system"
      end in
    let callback (tx : Db) : TxOutcome unit :=
      let tx1 :=
        update_by_id tx bookingId
          (set_unmerged (status bookingToUnmerge) username parentBookingId) in
      let remainingChildren :=
        sql_count (filter (fun b => parent_booking_id b = Some parentBookingId
                                    /\ is_merged b = true) tx1) in
      let childCount := js_or remainingChildren (JsNumber 0) in
      if strict_equal childCount (JsNumber 0)
      then Returns tt (update_by_id tx1 parentBookingId (set_parent_cleared username))
      else Returns tt tx1 in
    match db_transaction callback db with
    | (inr _, db') =>
        (mkHttpReply 200 true
           ("Booking with ID " +:+ pretty bookingId
              +:+ " successfully unmerged from trip") None, db')
    | (inl thrown, db') => (mkHttpReply 500 false thrown None, db')
    end
  end
  end.
End Unmerge.

(** ** The configuration service (appended to trip-merge-service.ts)

    [getConfigValue] parses a stored entry by the type of the key's default,
    so the keys are split by that type and the store keeps parsed values. *)

Inductive NumberKey :=
  | TRIP_MERGE_PICKUP_DISTANCE_KM
  | TRIP_MERGE_DROPOFF_DISTANCE_KM
  | TRIP_MERGE_PICKUP_TIME_WINDOW_MINUTES
  | TRIP_MERGE_DROPOFF_TIME_WINDOW_MINUTES
  | TRIP_MERGE_MAX_PICKUP_GAP_MINUTES
  | TRIP_MERGE_MAX_TRIP_DURATION_MINUTES
  | TRIP_MERGE_ROUTE_DEVIATION_TOLERANCE_KM.

Inductive BooleanKey :=
  | TRIP_MERGE_SAME_ZONE_REQUIRED
  | TRIP_MERGE_SAME_VEHICLE_TYPE_REQUIRED
  | TRIP_MERGE_SAME_BOOKING_TYPE_REQUIRED
  | TRIP_MERGE_SAME_PRIORITY_REQUIRED.

#[global] Instance NumberKey_eq_dec : EqDecision NumberKey.
Proof. solve_decision. Defined.

#[global] Instance BooleanKey_eq_dec : EqDecision BooleanKey.
Proof. solve_decision. Defined.

#[global] Instance NumberKey_countable : Countable NumberKey.
Proof.
  refine (inj_countable'
    (fun k => match k with
              | TRIP_MERGE_PICKUP_DISTANCE_KM => 0
              | TRIP_MERGE_DROPOFF_DISTANCE_KM => 1
              | TRIP_MERGE_PICKUP_TIME_WINDOW_MINUTES => 2
              | TRIP_MERGE_DROPOFF_TIME_WINDOW_MINUTES => 3
              | TRIP_MERGE_MAX_PICKUP_GAP_MINUTES => 4
              | TRIP_MERGE_MAX_TRIP_DURATION_MINUTES => 5
              | TRIP_MERGE_ROUTE_DEVIATION_TOLERANCE_KM => 6
              end%nat)
    (fun n => match n with
              | 0 => TRIP_MERGE_PICKUP_DISTANCE_KM
              | 1 => TRIP_MERGE_DROPOFF_DISTANCE_KM
              | 2 => TRIP_MERGE_PICKUP_TIME_WINDOW_MINUTES
              | 3 => TRIP_MERGE_DROPOFF_TIME_WINDOW_MINUTES
              | 4 => TRIP_MERGE_MAX_PICKUP_GAP_MINUTES
              | 5 => TRIP_MERGE_MAX_TRIP_DURATION_MINUTES
              | _ => TRIP_MERGE_ROUTE_DEVIATION_TOLERANCE_KM
              end%nat) _).
  by intros [].
Defined.

#[global] Instance BooleanKey_countable : Countable BooleanKey.
Proof.
  refine (inj_countable'
    (fun k => match k with
              | TRIP_MERGE_SAME_ZONE_REQUIRED => 0
              | TRIP_MERGE_SAME_VEHICLE_TYPE_REQUIRED => 1
              | TRIP_MERGE_SAME_BOOKING_TYPE_REQUIRED => 2
              | TRIP_MERGE_SAME_PRIORITY_REQUIRED => 3
              end%nat)
    (fun n => match n with
              | 0 => TRIP_MERGE_SAME_ZONE_REQUIRED
              | 1 => TRIP_MERGE_SAME_VEHICLE_TYPE_REQUIRED
              | 2 => TRIP_MERGE_SAME_BOOKING_TYPE_REQUIRED
              | _ => TRIP_MERGE_SAME_PRIORITY_REQUIRED
              end%nat) _).
  by intros [].
Defined.

(** [DEFAULT_CONFIG]. *)
Definition DEFAULT_NUMBER (key : NumberKey) : Q :=
  match key with
  | TRIP_MERGE_PICKUP_DISTANCE_KM => 7
  | TRIP_MERGE_DROPOFF_DISTANCE_KM => 7
  | TRIP_MERGE_PICKUP_TIME_WINDOW_MINUTES => 15
  | TRIP_MERGE_DROPOFF_TIME_WINDOW_MINUTES => 15
  | TRIP_MERGE_MAX_PICKUP_GAP_MINUTES => 15
  | TRIP_MERGE_MAX_TRIP_DURATION_MINUTES => 120
  | TRIP_MERGE_ROUTE_DEVIATION_TOLERANCE_KM => 3
  end%Q.

Definition DEFAULT_BOOLEAN (key : BooleanKey) : bool :=
  match key with
  | TRIP_MERGE_SAME_ZONE_REQUIRED => true
  | TRIP_MERGE_SAME_VEHICLE_TYPE_REQUIRED => true
  | TRIP_MERGE_SAME_BOOKING_TYPE_REQUIRED => true
  | TRIP_MERGE_SAME_PRIORITY_REQUIRED => true
  end.

(** The named compatibility tests.  The first eight are the checkpoints of the
    specification; the service has three more, and the eligibility endpoint
    starts with an existence test. *)
Inductive Checkpoint :=
  | SelfExclusion
  | AlreadyMerged
  | PickupProximity
  | DropoffProximity
  | TypeCompatibility
  | PriorityCompatibility
  | TimeCompatibility
  | VehicleCompatibility
  | RouteDeviation
  | PickupGap
  | DurationLimit
  | ZoneAllowed
  | BookingExists.

#[global] Instance Checkpoint_eq_dec : EqDecision Checkpoint.
Proof. solve_decision. Defined.

(** ** Effects of the service

    The state a call of the service can see and change is the [systemConfig]
    table ([getConfigValue] inserts the default of a key it does not find).
    [entered] lists, in order, the compatibility tests that were started; it
    is what "a candidate is subjected to a check" means below.  A computation
    returns [None] when it throws. *)

Record World := mkWorld {
  config_numbers : gmap NumberKey Q;
  config_booleans : gmap BooleanKey bool;
  entered : list Checkpoint
}.

Definition M (A : Type) : Type := World -> option A * World.

#[global] Instance M_ret : MRet M := fun A a w => (Some a, w).

#[global] Instance M_bind : MBind M := fun A B f m w =>
  match m w with
  | (Some a, w') => f a w'
  | (None, w') => (None, w')
  end.

Definition throw {A : Type} : M A := fun w => (None, w).

Definition enter (c : Checkpoint) : M unit := fun w =>
  (Some tt, mkWorld (config_numbers w) (config_booleans w) (entered w ++ [c])).

Definition getConfigNumber (key : NumberKey) : M Q := fun w =>
  match config_numbers w !! key with
  | Some configEntry => (Some configEntry, w)
  | None =>
      (Some (DEFAULT_NUMBER key),
       mkWorld (<[key := DEFAULT_NUMBER key]> (config_numbers w))
               (config_booleans w) (entered w))
  end.

Definition getConfigBoolean (key : BooleanKey) : M bool := fun w =>
  match config_booleans w !! key with
  | Some configEntry => (Some configEntry, w)
  | None =>
      (Some (DEFAULT_BOOLEAN key),
       mkWorld (config_numbers w)
               (<[key := DEFAULT_BOOLEAN key]> (config_booleans w)) (entered w))
  end.

(** [bookings[0]]: reading a field of it throws on an empty array. *)
Definition first_of {A : Type} (l : list A) : M A :=
  match l with
  | [] => throw
  | x :: _ => mret x
  end.

(** ** [src/services/trip-merge-service.ts] *)

(** The part of a route object that the checks read. *)
Record RouteSummary := mkRouteSummary { route_distance : Q; route_duration : Q }.

Definition summary_of {O D S : Type} (r : RouteWithStops O D S) : RouteSummary :=
  mkRouteSummary (rs_distance r) (rs_duration r).

Record Recommendation := mkRecommendation {
  rec_tripId : Z;
  tripReference : string;
  compatibilityScore : Rounded;
  pickupDistanceKm : Q;
  dropoffDistanceKm : Q;
  totalDistance : Q;
  totalDuration : double;
  distanceSaved : double;
  timeSaved : double
}.

(** [passenger_count || 1]. *)
Definition passengers (b : Booking) : Z :=
  match passenger_count b with
  | Some n => if n =? 0 then 1 else n
  | None => 1
  end.

(** Lines 177-181: no gap between consecutive sorted pickup times is too long. *)
Fixpoint gaps_within (maxPickupGapMs : Q) (pickupTimes : list Z) : bool :=
  match pickupTimes with
  | earlier :: rest =>
      match rest with
      | later :: _ =>
          if Qgtb (inject_Z (later - earlier)) maxPickupGapMs then false
          else gaps_within maxPickupGapMs rest
      | [] => true
      end
  | [] => true
  end.

Section TripMergeService.
Variable calculateDistance : Q -> Q -> Q -> Q -> Q.

(** The storage collaborator ([../storage], not among the sources): its
    reads are taken as they come. *)
Variable getVehicle : Z -> option Vehicle.
Variable getBooking : Z -> list Booking.
Variable getActiveTrips : list Booking.
Variable getChildBookings : Z -> list Booking.

Definition distance_between (a b : Location) : Q :=
  calculateDistance (lat (coordinates a)) (lng (coordinates a))
                    (lat (coordinates b)) (lng (coordinates b)).

(** Lines 17-37. *)
Definition isPickupNearby (pickupA pickupB : Location) : M bool :=
  _ ← enter PickupProximity;
  maxDistance ← getConfigNumber TRIP_MERGE_PICKUP_DISTANCE_KM;
  sameZoneRequired ← getConfigBoolean TRIP_MERGE_SAME_ZONE_REQUIRED;
  let distance := distance_between pickupA pickupB in
  if Qgtb distance maxDistance then mret false
  else if sameZoneRequired && bool_decide (zone pickupA ≠ zone pickupB)
       then mret false
       else mret true.

(** Lines 42-62. *)
Definition isDropoffNearby (dropoffA dropoffB : Location) : M bool :=
  _ ← enter DropoffProximity;
  maxDistance ← getConfigNumber TRIP_MERGE_DROPOFF_DISTANCE_KM;
  sameZoneRequired ← getConfigBoolean TRIP_MERGE_SAME_ZONE_REQUIRED;
  let distance := distance_between dropoffA dropoffB in
  if Qgtb distance maxDistance then mret false
  else if sameZoneRequired && bool_decide (zone dropoffA ≠ zone dropoffB)
       then mret false
       else mret true.

(** Lines 67-91; a time is a pair (pickup, dropoff) of millisecond stamps. *)
Definition isTimeCompatible (timeA timeB : Z * Z) : M bool :=
  _ ← enter TimeCompatibility;
  pickupTimeWindowMinutes ← getConfigNumber TRIP_MERGE_PICKUP_TIME_WINDOW_MINUTES;
  dropoffTimeWindowMinutes ← getConfigNumber TRIP_MERGE_DROPOFF_TIME_WINDOW_MINUTES;
  let pickupTimeWindowMs := (pickupTimeWindowMinutes * 60 * 1000)%Q in
  let dropoffTimeWindowMs := (dropoffTimeWindowMinutes * 60 * 1000)%Q in
  if Qgtb (inject_Z (Z.abs (timeA.1 - timeB.1))) pickupTimeWindowMs then mret false
  else if Qgtb (inject_Z (Z.abs (timeA.2 - timeB.2))) dropoffTimeWindowMs
       then mret false
       else mret true.

(** Lines 96-119. *)
Definition isVehicleCompatible (vehicle : Vehicle) (bookings : list Booking)
    : M bool :=
  _ ← enter VehicleCompatibility;
  sameVehicleTypeRequired ← getConfigBoolean TRIP_MERGE_SAME_VEHICLE_TYPE_REQUIRED;
  first ← first_of bookings;
  if sameVehicleTypeRequired
     && existsb (fun booking =>
                   bool_decide (vehicle_type booking ≠ vehicle_type first)) bookings
  then mret false
  else if bool_decide (vehicle_type first ≠ None)
          && bool_decide (vehicle_type first ≠ Some "")
          && bool_decide (veh_vehicle_type vehicle ≠ vehicle_type first)
  then mret false
  else
    let totalPassengers := foldl (fun sum booking => sum + passengers booking) 0 bookings in
    if capacity vehicle <? totalPassengers then mret false else mret true.

(** Lines 124-133. *)
Definition isBookingTypeCompatible (bookings : list Booking) : M bool :=
  _ ← enter TypeCompatibility;
  sameBookingTypeRequired ← getConfigBoolean TRIP_MERGE_SAME_BOOKING_TYPE_REQUIRED;
  if negb sameBookingTypeRequired then mret true
  else
    first ← first_of bookings;
    mret (forallb (fun booking =>
                     bool_decide (booking_type booking = booking_type first)) bookings).

(** Lines 138-147. *)
Definition isPriorityMatchSafe (bookings : list Booking) : M bool :=
  _ ← enter PriorityCompatibility;
  samePriorityRequired ← getConfigBoolean TRIP_MERGE_SAME_PRIORITY_REQUIRED;
  if negb samePriorityRequired then mret true
  else
    first ← first_of bookings;
    mret (forallb (fun booking =>
                     bool_decide (priority booking = priority first)) bookings).

(** Lines 152-162. *)
Definition isRouteDeviationAllowed (originalRoute mergedRoute : RouteSummary)
    : M bool :=
  _ ← enter RouteDeviation;
  toleranceKm ← getConfigNumber TRIP_MERGE_ROUTE_DEVIATION_TOLERANCE_KM;
  let originalDistance := route_distance originalRoute in
  let mergedDistance := route_distance mergedRoute in
  let deviation := Math_abs (mergedDistance - originalDistance)%Q in
  mret (Qle_bool deviation toleranceKm).

(** Lines 167-184. *)
Definition isPickupGapAcceptable (bookings : list Booking) : M bool :=
  _ ← enter PickupGap;
  maxPickupGapMinutes ← getConfigNumber TRIP_MERGE_MAX_PICKUP_GAP_MINUTES;
  let maxPickupGapMs := (maxPickupGapMinutes * 60 * 1000)%Q in
  let pickupTimes :=
    js_sort (fun a b => inject_Z (a - b)) (map pickup_time bookings) in
  mret (gaps_within maxPickupGapMs pickupTimes).

(** Lines 189-194. *)
Definition isDurationWithinLimit (mergedRoute : RouteSummary) : M bool :=
  _ ← enter DurationLimit;
  maxTripDurationMinutes ← getConfigNumber TRIP_MERGE_MAX_TRIP_DURATION_MINUTES;
  let maxTripDurationMs := (maxTripDurationMinutes * 60 * 1000)%Q in
  mret (Qle_bool (route_duration mergedRoute) maxTripDurationMs).

(** Lines 199-203. *)
Definition isZoneAllowed (zones : list string) : M bool :=
  _ ← enter ZoneAllowed;
  mret true.

(** Lines 222-318: the body of the loop for one candidate.  [true] is
    reaching [eligibleBookings.push(candidate)], [false] a [continue]. *)
Definition check_candidate (booking candidate : Booking) : M bool :=
  _ ← enter SelfExclusion;
  if bool_decide (id booking = id candidate) then mret false else
  pickupOk ← isPickupNearby (pickup_location booking) (pickup_location candidate);
  if negb pickupOk then mret false else
  dropoffOk ← isDropoffNearby (dropoff_location booking) (dropoff_location candidate);
  if negb dropoffOk then mret false else
  let timeA :=
    (pickup_time booking,
     default (pickup_time booking + 3600000) (dropoff_time booking)) in
  let timeB :=
    (pickup_time candidate,
     default (pickup_time candidate + 3600000) (dropoff_time candidate)) in
  timeOk ← isTimeCompatible timeA timeB;
  if negb timeOk then mret false else
  typeOk ← isBookingTypeCompatible [booking; candidate];
  if negb typeOk then mret false else
  priorityOk ← isPriorityMatchSafe [booking; candidate];
  if negb priorityOk then mret false else
  let vehicle :=
    match vehicle_id candidate with
    | Some vid => if vid =? 0 then None else getVehicle vid
    | None => None
    end in
  vehicleOk ←
    match vehicle with
    | Some v => isVehicleCompatible v [booking; candidate]
    | None => mret true
    end;
  if negb vehicleOk then mret false else
  let originalRoute :=
    mkRouteSummary
      (distance_between (pickup_location booking) (dropoff_location booking))
      (30 * 60 * 1000)%Q in
  let mergedRoute :=
    summary_of
      (calculateRouteWithStops (D := LatLng) (S := LatLng)
         [coordinates (pickup_location booking);
          coordinates (pickup_location candidate);
          coordinates (dropoff_location booking);
          coordinates (dropoff_location candidate)]
         None []) in
  deviationOk ← isRouteDeviationAllowed originalRoute mergedRoute;
  if negb deviationOk then mret false else
  gapOk ← isPickupGapAcceptable [booking; candidate];
  if negb gapOk then mret false else
  durationOk ← isDurationWithinLimit mergedRoute;
  if negb durationOk then mret false else
  zoneOk ← isZoneAllowed
    [default "" (zone (pickup_location booking));
     default "" (zone (pickup_location candidate));
     default "" (zone (dropoff_location booking));
     default "" (zone (dropoff_location candidate))];
  if negb zoneOk then mret false else
  mret true.

(** Lines 217-327.  A candidate whose checks throw is skipped ([catch]). *)
Fixpoint checkMergeEligibility_from (booking : Booking)
    (candidateBookings eligibleBookings : list Booking) (w : World)
    : list Booking * World :=
  match candidateBookings with
  | [] => (eligibleBookings, w)
  | candidate :: rest =>
      match check_candidate booking candidate w with
      | (Some true, w') =>
          checkMergeEligibility_from booking rest (eligibleBookings ++ [candidate]) w'
      | (_, w') => checkMergeEligibility_from booking rest eligibleBookings w'
      end
  end.

Definition checkMergeEligibility (booking : Booking)
    (candidateBookings : list Booking) (w : World) : list Booking * World :=
  checkMergeEligibility_from booking candidateBookings [] w.
(** Lines 730-836: the body of the loop for one active trip; [None] is a
    [continue] or a score under the threshold. *)
Definition recommend_trip (booking trip : Booking) : M (option Recommendation) :=
  if bool_decide (status trip = "Completed") then mret None else
  let childBookings := getChildBookings (id trip) in
  let allTripBookings := trip :: childBookings in
  isPickupCompatible ←
    isPickupNearby (pickup_location booking) (pickup_location trip);
  if negb isPickupCompatible then mret None else
  isDropoffCompatible ←
    isDropoffNearby (dropoff_location booking) (dropoff_location trip);
  if negb isDropoffCompatible then mret None else
  isTypeCompatible ← isBookingTypeCompatible (booking :: allTripBookings);
  if negb isTypeCompatible then mret None else
  let potentialStops :=
    [coordinates (pickup_location trip);
     coordinates (pickup_location booking);
     coordinates (dropoff_location trip);
     coordinates (dropoff_location booking)] in
  let mergedRoute :=
    calculateRouteWithStops (D := LatLng) (S := LatLng) potentialStops None [] in
  durationOk ← isDurationWithinLimit (summary_of mergedRoute);
  if negb durationOk then mret None else
  let pickupDistanceKm :=
    distance_between (pickup_location booking) (pickup_location trip) in
  let dropoffDistanceKm :=
    distance_between (dropoff_location booking) (dropoff_location trip) in
  maxDistanceKm ← getConfigNumber TRIP_MERGE_PICKUP_DISTANCE_KM;
  let pickupScore :=
    Math_max (double_of_Q 0)
             (double_of_Q 100
              - (double_of_Q pickupDistanceKm / double_of_Q maxDistanceKm
                 * double_of_Q 100))%D in
  let dropoffScore :=
    Math_max (double_of_Q 0)
             (double_of_Q 100
              - (double_of_Q dropoffDistanceKm / double_of_Q maxDistanceKm
                 * double_of_Q 100))%D in
  let typeScore := if isTypeCompatible then double_of_Q 100 else double_of_Q 0 in
  let compatibilityScore :=
    Math_round ((pickupScore * double_of_Q (4 # 10))
                + (dropoffScore * double_of_Q (4 # 10))
                + (typeScore * double_of_Q (2 # 10)))%D in
  if rounded_geb compatibilityScore 50 then
    mret (Some
      {| rec_tripId := id trip;
         tripReference := reference_no trip;
         compatibilityScore := compatibilityScore;
         pickupDistanceKm := pickupDistanceKm;
         dropoffDistanceKm := dropoffDistanceKm;
         totalDistance := rs_distance mergedRoute;
         totalDuration :=
           (double_of_Q (rs_duration mergedRoute) / double_of_Q 60)%D;
         distanceSaved :=
           (double_of_Q (estimated_distance booking)
            - (double_of_Q (rs_distance mergedRoute)
               - double_of_Q (estimated_distance trip)))%D;
         timeSaved :=
           (double_of_Q (estimated_duration booking)
            - ((double_of_Q (rs_duration mergedRoute)
                - double_of_Q (estimated_duration trip))
               / double_of_Q 60))%D |})
  else mret None.

(** Lines 729-837.  A trip whose checks throw is skipped ([catch]). *)
Fixpoint recommendations_from (booking : Booking) (activeTrips : list Booking)
    (recommendations : list Recommendation) (w : World)
    : list Recommendation * World :=
  match activeTrips with
  | [] => (recommendations, w)
  | trip :: rest =>
      match recommend_trip booking trip w with
      | (Some (Some r), w') =>
          recommendations_from booking rest (recommendations ++ [r]) w'
      | (_, w') => recommendations_from booking rest recommendations w'
      end
  end.

(** [getMergeRecommendations], lines 709-846.  The error thrown for a
    missing booking is caught by the outer [catch], which returns [[]]. *)
Definition getMergeRecommendations (bookingId : Z) (w : World)
    : list Recommendation * World :=
  match getBooking bookingId with
  | [] => ([], w)
  | booking :: _ =>
      if negb (bool_decide (status booking = "Approved")) then ([], w)
      else
        let '(recommendations, w') :=
          recommendations_from booking getActiveTrips [] w in
        (js_sort (fun a b =>
                    rounded_difference (compatibilityScore b)
                                       (compatibilityScore a))
                 recommendations, w')
  end.
End TripMergeService.

(** ** Notions used to state the properties *)

(** Position (counted from [k]) of the last entry of [order] that satisfies
    [P]: the position the loop of lines 119-130 leaves in the map. *)
Fixpoint last_index (P : nat -> bool) (order : list nat) (k : nat) : option nat :=
  match order with
  | [] => None
  | x :: rest =>
      match last_index P rest (S k) with
      | Some p => Some p
      | None => if P x then Some k else None
      end
  end.

Definition is_stop (wps : list Waypoint) (t : StopType) (b : Z) (idx : nat) : bool :=
  match wps !! idx with
  | Some w => bool_decide (stopType w = t) && bool_decide (bookingId w = b)
  | None => false
  end.


(** The optimizer's order visits the dropoff of some booking [b] (at position
    [i]) before the pickup of the same booking (at position [j]). *)
Definition places_dropoff_before_pickup (wps : list Waypoint) (order : list nat)
    : Prop :=
  exists (b : Z) (i j wi wj : nat),
    order !! i = Some wi /\ is_stop wps dropoff b wi = true /\
    order !! j = Some wj /\ is_stop wps pickup b wj = true /\
    (i < j)%nat.

(** Precedence in a visiting order: wherever a booking has a pickup and a
    dropoff in the list, the pickup stands at the smaller index. *)
Definition precedence_holds (visits : list Waypoint) : Prop :=
  forall (i j : nat) (wi wj : Waypoint),
    visits !! i = Some wi -> visits !! j = Some wj ->
    stopType wi = pickup -> stopType wj = dropoff ->
    bookingId wi = bookingId wj ->
    (i < j)%nat.

(** ** A concrete scenario

    Two standalone requests, a parent [P] (id 1) and a child [C] (id 2), as in
    the scenario of the specification.  [planar_distance] stands in for the
    great-circle distance wherever the model is run on these data: 111 km per
    degree along each axis.  None of the results below depends on its values
    except through the order of the pickups. *)

Definition planar_distance (lat1 lon1 lat2 lon2 : Q) : Q :=
  (111 * (Qabs (lat2 - lat1) + Qabs (lon2 - lon1)))%Q.

Definition standalone (i : Z) (state kind : string) (pick drop : LatLng)
    (pickupAt : Z) : Booking :=
  {| id := i; reference_no := "REF-" +:+ pretty i;
     status := state; booking_type := kind; priority := "Normal";
     pickup_location := mkLocation "" pick (Some "A");
     dropoff_location := mkLocation "" drop (Some "B");
     pickup_time := pickupAt; dropoff_time := None;
     passenger_count := Some 1; vehicle_type := None;
     vehicle_id := None; assigned_vehicle_id := None;
     estimated_distance := 0; estimated_duration := 0;
     is_merged := false; merged_with_booking_id := None;
     merged_booking_ids := []; has_merged_trips := false;
     trip_id := None; optimized_route := None;
     pickup_sequence := None; dropoff_sequence := None;
     parent_booking_id := None; is_parent_booking := false;
     route_sequence := None; route_polyline := None;
     last_modified_by := None; modification_notes := None |}.

Definition P_pickup : LatLng := mkLatLng (2510 # 100) (5520 # 100).
Definition P_dropoff : LatLng := mkLatLng (2530 # 100) (5510 # 100).
Definition C_pickup : LatLng := mkLatLng (2511 # 100) (5521 # 100).
Definition C_dropoff : LatLng := mkLatLng (25305 # 1000) (5510 # 100).

Definition booking_P : Booking :=
  standalone 1 "confirmed" "passenger" P_pickup P_dropoff 0.

Definition booking_C : Booking :=
  standalone 2 "approved" "passenger" C_pickup C_dropoff 600000.

Definition scenario_db : Db := [booking_P; booking_C].

(** An answer of the optimizer with status [OK], one route, the given
    [waypoint_order] and overview polyline, and three legs of 1 km and 60 s. *)
Definition route_of (order : list nat) (points : option string) : DirectionsRoute :=
  {| waypoint_order := Some order;
     legs := [mkLeg 1000 60; mkLeg 1000 60; mkLeg 1000 60];
     overview_polyline := points |}.

Definition data_ok (order : list nat) (points : option string) : DirectionsData :=
  {| data_status := "OK"; routes := [route_of order points] |}.

Definition directions_ok (order : list nat) (points : option string) : FetchResult :=
  HttpResponse true (data_ok order points).

Definition scenario_pickups : list Point := [mkPoint P_pickup 1; mkPoint C_pickup 2].
Definition scenario_dropoffs : list Point := [mkPoint P_dropoff 1; mkPoint C_dropoff 2].

(** The branch [if (requiresAdjustment)] of [optimizeRoute] is taken for the
    waypoints [wps] and the route [route] of the optimizer. *)
Definition repair_branch (wps : list Waypoint) (route : DirectionsRoute) : Prop :=
  exists m : JsMap.t Mapping,
    apply_order wps (default [] (waypoint_order route)) 0 (init_sequenceMap wps)
      = Some m
    /\ requiresAdjustment m = true.

(** A request that cannot take part in a merge: absent from the table, or
    already merged as a child. *)
Definition missing_or_merged (db : Db) (x : Z) : Prop :=
  select_by_id db x = None
  \/ exists b, select_by_id db x = Some b /\ is_merged b = true.

(** The thrown message names the offending booking: the parent by its role,
    a child by its identifier. *)
Definition names_offender (db : Db) (parentBookingId : Z) (childBookingIds : list Z)
    (thrown : string) : Prop :=
  (select_by_id db parentBookingId = None
   /\ thrown = "Parent booking not found")
  \/ ((exists b, select_by_id db parentBookingId = Some b /\ is_merged b = true)
      /\ thrown = "Cannot use a merged booking as a parent")
  \/ (exists c, c ∈ childBookingIds /\ select_by_id db c = None
                /\ thrown = "Child booking with id " +:+ pretty c +:+ " not found")
  \/ (exists c b, c ∈ childBookingIds /\ select_by_id db c = Some b
                  /\ is_merged b = true
                  /\ thrown = "Child booking with id " +:+ pretty c
                                +:+ " is already merged").

(** An integer column of four bytes, and a driver that reports the number it
    was given. *)
Definition scenario_id_fits (x : Z) : bool :=
  (-2147483648 <=? x) && (x <=? 2147483647).

Definition scenario_failedQuery (x : Z) : string :=
  "Failed query: params: " +:+ pretty x.

Definition scenario_failedId (x : option Z) : string :=
  match x with
  | Some x => scenario_failedQuery x
  | None => "Failed query: params: NaN"
  end.

(** The table after [P] and [C] have been merged; the optimizer's order
    [2; 0; 1] is repaired, so both requests get proper sequence numbers and
    the parent carries a route. *)
Definition merged_db : Db :=
  (merge planar_distance "AIzaSy-configured-key"
         (directions_ok [2; 0; 1]%nat (Some "abc"))
         "TRIP_20240101_000001" 1 [2] scenario_db).2.

(** The column [parent_booking_id] is written by the storage layer only
    ([updateBookingParent], used by the automatic merges); this is a row with
    that column filled in. *)
Definition with_parent_link (parentId : Z) (b : Booking) : Booking :=
  {| id := id b; reference_no := reference_no b;
     status := status b;
     booking_type := booking_type b; priority := priority b;
     pickup_location := pickup_location b; dropoff_location := dropoff_location b;
     pickup_time := pickup_time b; dropoff_time := dropoff_time b;
     passenger_count := passenger_count b; vehicle_type := vehicle_type b;
     vehicle_id := vehicle_id b; assigned_vehicle_id := assigned_vehicle_id b;
     estimated_distance := estimated_distance b;
     estimated_duration := estimated_duration b;
     is_merged := is_merged b;
     merged_with_booking_id := merged_with_booking_id b;
     merged_booking_ids := merged_booking_ids b;
     has_merged_trips := has_merged_trips b;
     trip_id := trip_id b;
     optimized_route := optimized_route b;
     pickup_sequence := pickup_sequence b; dropoff_sequence := dropoff_sequence b;
     parent_booking_id := Some parentId;
     is_parent_booking := is_parent_booking b;
     route_sequence := route_sequence b; route_polyline := route_polyline b;
     last_modified_by := last_modified_by b;
     modification_notes := modification_notes b |}.

Definition linked_db : Db := update_by_id merged_db 2 (with_parent_link 1).

(** ** Notions for the eligibility checks *)

(** The value [getConfigValue] returns for a key in a given state. *)
Definition effective_number (w : World) (key : NumberKey) : Q :=
  default (DEFAULT_NUMBER key) (config_numbers w !! key).

Definition effective_boolean (w : World) (key : BooleanKey) : bool :=
  default (DEFAULT_BOOLEAN key) (config_booleans w !! key).

(** Two states in which every key reads the same. *)
Definition same_config (w1 w2 : World) : Prop :=
  (forall key, effective_number w1 key = effective_number w2 key)
  /\ (forall key, effective_boolean w1 key = effective_boolean w2 key).

(** A computation that leaves every configuration value as it reads, and
    whose result depends on the state through these values only. *)
Definition reads_config {A : Type} (m : M A) : Prop :=
  (forall w, same_config w (m w).2)
  /\ (forall w1 w2, same_config w1 w2 -> (m w1).1 = (m w2).1).

(** A computation that starts no compatibility test. *)
Definition silent {A : Type} (m : M A) : Prop :=
  forall w, entered (m w).2 = entered w.

(** A computation that starts exactly the test [c]. *)
Definition enters {A : Type} (c : Checkpoint) (m : M A) : Prop :=
  forall w, entered (m w).2 = entered w ++ [c].

(** The order of the specification (its checks 1 to 8). *)
Definition spec_order : list Checkpoint :=
  [SelfExclusion; AlreadyMerged; PickupProximity; DropoffProximity;
   TypeCompatibility; PriorityCompatibility; TimeCompatibility;
   VehicleCompatibility].

(** [a] stands before [b] in [order]. *)
Definition before (order : list Checkpoint) (a b : Checkpoint) : Prop :=
  exists i j : nat, order !! i = Some a /\ order !! j = Some b /\ (i < j)%nat.

(** Running the tests of [order] one after the other and stopping after the
    first that does not pass: the tests that get started. *)
Fixpoint run_until_failure (passes : Checkpoint -> bool) (order : list Checkpoint)
    : list Checkpoint :=
  match order with
  | [] => []
  | c :: rest => c :: (if passes c then run_until_failure passes rest else [])
  end.

Section EligibilityNotions.
Variable calculateDistance : Q -> Q -> Q -> Q -> Q.
Variable getVehicle : Z -> option Vehicle.

(** Line 260: the vehicle looked up for the candidate, if any. *)
Definition candidate_vehicle (candidate : Booking) : option Vehicle :=
  match vehicle_id candidate with
  | Some vid => if vid =? 0 then None else getVehicle vid
  | None => None
  end.

(** One compatibility test between [booking] and [candidate], with the
    arguments [check_candidate] gives it.  The two tests that the service does
    not have pass without being started. *)
Definition run_check (booking candidate : Booking) (c : Checkpoint) : M bool :=
  match c with
  | SelfExclusion =>
      _ ← enter SelfExclusion;
      mret (negb (bool_decide (id booking = id candidate)))
  | PickupProximity =>
      isPickupNearby calculateDistance
        (pickup_location booking) (pickup_location candidate)
  | DropoffProximity =>
      isDropoffNearby calculateDistance
        (dropoff_location booking) (dropoff_location candidate)
  | TimeCompatibility =>
      isTimeCompatible
        (pickup_time booking,
         default (pickup_time booking + 3600000) (dropoff_time booking))
        (pickup_time candidate,
         default (pickup_time candidate + 3600000) (dropoff_time candidate))
  | TypeCompatibility => isBookingTypeCompatible [booking; candidate]
  | PriorityCompatibility => isPriorityMatchSafe [booking; candidate]
  | VehicleCompatibility =>
      match candidate_vehicle candidate with
      | Some v => isVehicleCompatible v [booking; candidate]
      | None => mret true
      end
  | RouteDeviation =>
      isRouteDeviationAllowed
        (mkRouteSummary
           (distance_between calculateDistance
              (pickup_location booking) (dropoff_location booking))
           (30 * 60 * 1000)%Q)
        (summary_of
           (calculateRouteWithStops (D := LatLng) (S := LatLng)
              [coordinates (pickup_location booking);
               coordinates (pickup_location candidate);
               coordinates (dropoff_location booking);
               coordinates (dropoff_location candidate)]
              None []))
  | PickupGap => isPickupGapAcceptable [booking; candidate]
  | DurationLimit =>
      isDurationWithinLimit
        (summary_of
           (calculateRouteWithStops (D := LatLng) (S := LatLng)
              [coordinates (pickup_location booking);
               coordinates (pickup_location candidate);
               coordinates (dropoff_location booking);
               coordinates (dropoff_location candidate)]
              None []))
  | ZoneAllowed =>
      isZoneAllowed
        [default "" (zone (pickup_location booking));
         default "" (zone (pickup_location candidate));
         default "" (zone (dropoff_location booking));
         default "" (zone (dropoff_location candidate))]
  | AlreadyMerged => mret true
  | BookingExists => mret true
  end.

(** The candidate passes the test [c] when the test is run in state [w]. *)
Definition passes (booking candidate : Booking) (w : World) (c : Checkpoint) : bool :=
  match (run_check booking candidate c w).1 with
  | Some true => true
  | _ => false
  end.

(** The tests in the order in which [check_candidate] reaches them; the
    vehicle test is there only when a vehicle is found for the candidate. *)
Definition service_order (candidate : Booking) : list Checkpoint :=
  [SelfExclusion; PickupProximity; DropoffProximity; TimeCompatibility;
   TypeCompatibility; PriorityCompatibility]
  ++ match candidate_vehicle candidate with
     | Some _ => [VehicleCompatibility]
     | None => []
     end
  ++ [RouteDeviation; PickupGap; DurationLimit; ZoneAllowed].

(** The tests of [order] in sequence, with a [continue] after the first that
    does not pass. *)
Fixpoint run_checks (booking candidate : Booking) (order : list Checkpoint) : M bool :=
  match order with
  | [] => mret true
  | c :: rest =>
      ok ← run_check booking candidate c;
      if negb ok then mret false else run_checks booking candidate rest
  end.
End EligibilityNotions.

(** Short-circuiting, for an order of the tests: a candidate that does not
    pass a test is subjected to no test that stands later in the order.
    [started] lists the tests the candidate was subjected to. *)
Definition short_circuits (order : list Checkpoint) (passes : Checkpoint -> bool)
    (started : list Checkpoint) : Prop :=
  forall a b : Checkpoint,
    before order a b -> passes a = false -> b ∉ started.

(** The score of the specification:
    [round(0.4 pickupScore + 0.4 dropoffScore + 0.2 typeScore)], with
    [pickupScore = max(0, 100 - pickupKm / maxThreshold * 100)] and the
    dropoff score likewise, in the arithmetic of the program. *)
Definition distanceScore (maxThreshold distanceKm : Q) : double :=
  Math_max (double_of_Q 0)
           (double_of_Q 100
            - double_of_Q distanceKm / double_of_Q maxThreshold
              * double_of_Q 100)%D.

Definition compositeScore (maxThreshold pickupKm dropoffKm : Q)
    (typeCompatible : bool) : Rounded :=
  let pickupScore := distanceScore maxThreshold pickupKm in
  let dropoffScore := distanceScore maxThreshold dropoffKm in
  let typeScore := double_of_Q (if typeCompatible then 100 else 0) in
  Math_round (double_of_Q (4 # 10) * pickupScore
              + double_of_Q (4 # 10) * dropoffScore
              + double_of_Q (2 # 10) * typeScore)%D.

(** Descending order of score, for scores that are numbers. *)
Definition score_ge (a b : Rounded) : Prop :=
  match a, b with
  | Integer x, Integer y => y <= x
  | Infinite negative, Integer _ => negative = false
  | Integer _, Infinite negative => negative = true
  | Infinite negative_a, Infinite negative_b =>
      negative_a = true -> negative_b = true
  | _, _ => True
  end.

Section EligibilityVerdict.
Variable calculateDistance : Q -> Q -> Q -> Q -> Q.
Variable getVehicle : Z -> option Vehicle.

(** The candidate passes every test of the service, read in state [w]. *)
Definition eligible_with (booking : Booking) (w : World) (candidate : Booking)
    : bool :=
  forallb (passes calculateDistance getVehicle booking candidate w)
          (service_order getVehicle candidate).
End EligibilityVerdict.

(** A state with an empty [systemConfig] table and no test started. *)
Definition fresh_world : World := mkWorld ∅ ∅ [].

(** No vehicle is on record. *)
Definition no_vehicle (vid : Z) : option Vehicle := None.

(** A request at the same places and time as [P], of another type. *)
Definition booking_other_type : Booking :=
  standalone 3 "approved" "cargo" P_pickup P_dropoff 0.

(** A state whose route-deviation tolerance is 50 km. *)
Definition lenient_world : World :=
  mkWorld {[ TRIP_MERGE_ROUTE_DEVIATION_TOLERANCE_KM := 50%Q ]} ∅ [].

(** A storage with one active trip, the parent [P] with its child [C], and
    an approved request (id 5) next to [C]. *)
Definition trip_P : Booking :=
  set_merge_parent [2] "TRIP_20240101_000001" None booking_P.

Definition child_C : Booking :=
  set_merge_child 1 "TRIP_20240101_000001" booking_C.

Definition booking_new : Booking :=
  standalone 5 "Approved" "passenger" C_pickup C_dropoff 600000.

(** The same request in the status that the unmerge handler writes. *)
Definition booking_approved : Booking :=
  standalone 6 "approved" "passenger" C_pickup C_dropoff 600000.

Definition scenario_getBooking (x : Z) : list Booking :=
  if x =? 5 then [booking_new] else if x =? 6 then [booking_approved] else [].

Definition scenario_getActiveTrips : list Booking := [trip_P].

Definition scenario_getChildBookings (x : Z) : list Booking :=
  if x =? 1 then [child_C] else [].

Section RecommendationNotions.
Variable calculateDistance : Q -> Q -> Q -> Q -> Q.
Variable getChildBookings : Z -> list Booking.

(** The check [m] passes in state [w]. *)
Definition holds (m : M bool) (w : World) : bool :=
  match (m w).1 with
  | Some true => true
  | _ => false
  end.

(** The score of a trip for a request in state [w]: the composite score of
    the two distances against the configured maximum pickup distance. *)
Definition trip_score (booking : Booking) (w : World) (trip : Booking) : Rounded :=
  compositeScore (effective_number w TRIP_MERGE_PICKUP_DISTANCE_KM)
    (distance_between calculateDistance
       (pickup_location booking) (pickup_location trip))
    (distance_between calculateDistance
       (dropoff_location booking) (dropoff_location trip))
    true.

(** The trips that the specification recommends to [booking] in state [w]:
    those that are not completed, whose pickup and dropoff are near the
    request's, that are type-compatible with the request, whose merged route
    (which [calculateRouteWithStops] gives the duration 0) is within the
    duration limit, and whose score is at least 50. *)
Definition recommendable (booking : Booking) (w : World) (trip : Booking) : bool :=
  negb (bool_decide (status trip = "Completed"))
  && holds (isPickupNearby calculateDistance
              (pickup_location booking) (pickup_location trip)) w
  && holds (isDropoffNearby calculateDistance
              (dropoff_location booking) (dropoff_location trip)) w
  && holds (isBookingTypeCompatible
              (booking :: trip :: getChildBookings (id trip))) w
  && holds (isDurationWithinLimit (mkRouteSummary 0 0)) w
  && rounded_geb (trip_score booking w trip) 50.

(** What the specification says of a recommendation [r] made to [booking] in
    state [w]: it is for one of the trips [trips] that it recommends; it
    reports the two distances; its score is the composite score of these
    distances against the configured maximum pickup distance; and the score
    is at least 50. *)
Definition recommendation_ok (booking : Booking) (w : World) (trips : list Booking)
    (r : Recommendation) : Prop :=
  exists trip : Booking,
    trip ∈ trips
    /\ recommendable booking w trip = true
    /\ rec_tripId r = id trip
    /\ pickupDistanceKm r
       = distance_between calculateDistance
           (pickup_location booking) (pickup_location trip)
    /\ dropoffDistanceKm r
       = distance_between calculateDistance
           (dropoff_location booking) (dropoff_location trip)
    /\ compatibilityScore r
       = compositeScore (effective_number w TRIP_MERGE_PICKUP_DISTANCE_KM)
           (pickupDistanceKm r) (dropoffDistanceKm r) true
    /\ rounded_geb (compatibilityScore r) 50 = true.
End RecommendationNotions.

(** ** Further notions for the merge handler *)

(** A row with its two sequence numbers blanked: two rows that agree on it
    differ in [pickup_sequence] and [dropoff_sequence] at most. *)
Definition without_sequences (b : Booking) : Booking :=
  {| id := id b; reference_no := reference_no b;
     status := status b;
     booking_type := booking_type b; priority := priority b;
     pickup_location := pickup_location b; dropoff_location := dropoff_location b;
     pickup_time := pickup_time b; dropoff_time := dropoff_time b;
     passenger_count := passenger_count b; vehicle_type := vehicle_type b;
     vehicle_id := vehicle_id b; assigned_vehicle_id := assigned_vehicle_id b;
     estimated_distance := estimated_distance b;
     estimated_duration := estimated_duration b;
     is_merged := is_merged b;
     merged_with_booking_id := merged_with_booking_id b;
     merged_booking_ids := merged_booking_ids b;
     has_merged_trips := has_merged_trips b;
     trip_id := trip_id b;
     optimized_route := optimized_route b;
     pickup_sequence := None; dropoff_sequence := None;
     parent_booking_id := parent_booking_id b;
     is_parent_booking := is_parent_booking b;
     route_sequence := route_sequence b; route_polyline := route_polyline b;
     last_modified_by := last_modified_by b;
     modification_notes := modification_notes b |}.

(** The points that the merge and the optimize-sequence handlers build from
    the rows of a trip (lines 444-452 and 615-623). *)
Definition pickup_points (allBookings : list Booking) : list Point :=
  map (fun booking => mkPoint (coordinates (pickup_location booking)) (id booking))
      allBookings.

Definition dropoff_points (allBookings : list Booking) : list Point :=
  map (fun booking => mkPoint (coordinates (dropoff_location booking)) (id booking))
      allBookings.

(** The sequence number that the loop of lines 496-513 leaves for the stop of
    kind [t] of booking [x]: the last position of such a stop in the visiting
    order, counted from [index], and [-1] when the order has none. *)
Fixpoint stop_sequence (t : StopType) (x : Z) (wps : list Waypoint) (index : nat) : Z :=
  match wps with
  | [] => -1
  | waypoint :: rest =>
      let later := stop_sequence t x rest (S index) in
      if bool_decide (later = -1)
      then if bool_decide (stopType waypoint = t)
              && bool_decide (bookingId waypoint = x)
           then Z.of_nat index else -1
      else later
  end.

(** ** [POST /api/bookings/check-merge-eligibility] (lines 200-385)

    [toFixed] is [Number.prototype.toFixed], which prints floating point
    numbers; it only occurs in the texts of the reasons. *)

Record Eligibility := mkEligibility {
  canMerge : bool;
  eligibleBookings : option (list Z);
  ineligibleBookings : option (list Z);
  totalCheckpoints : option nat;
  reasons : list string
}.

Record EligibilityReply := mkEligibilityReply {
  er_status : Z;
  er_success : bool;
  er_message : string;
  eligibility : Eligibility
}.

(** The variables of the loop over [childBookingIds]. *)
Record EligibilityScan := mkEligibilityScan {
  childBookings : list Booking;
  scan_ineligibleBookings : list Z;
  scan_reasons : list string;
  checkpointCount : nat
}.

Section EligibilityEndpoint.
Variable calculateDistance : Q -> Q -> Q -> Q -> Q.
Variable toFixed : nat -> Q -> string.

(** Lines 254-354, the body of the loop.  A [continue] leaves the loop body
    with the child among the ineligible ones and one reason more. *)
Definition check_child (parentBooking : Booking) (db : Db)
    (scan : EligibilityScan) (childId : Z) : EligibilityScan :=
  let continue (count : nat) (reason : string) :=
    mkEligibilityScan (childBookings scan)
      (scan_ineligibleBookings scan ++ [childId])
      (scan_reasons scan ++ [reason]) count in
  let count1 := S (checkpointCount scan) in
  match select_by_id db childId with
  | None =>
      continue count1 ("Checkpoint #1: Booking #" +:+ pretty childId +:+ " not found")
  | Some childBooking =>
  let count2 := S count1 in
  if is_merged childBooking
  then continue count2
         ("Checkpoint #2: Booking #" +:+ pretty childId
            +:+ " is already merged with another booking")
  else
  let count3 := S count2 in
  let pickupDistance :=
    haversineDistance calculateDistance
      (lat (coordinates (pickup_location parentBooking)))
      (lng (coordinates (pickup_location parentBooking)))
      (lat (coordinates (pickup_location childBooking)))
      (lng (coordinates (pickup_location childBooking))) in
  if Qgtb pickupDistance 7
  then continue count3
         ("Checkpoint #3: Booking #" +:+ pretty childId
            +:+ " pickup location is too far from parent booking ("
            +:+ toFixed 2 pickupDistance +:+ " km)")
  else
  let count4 := S count3 in
  let dropoffDistance :=
    haversineDistance calculateDistance
      (lat (coordinates (dropoff_location parentBooking)))
      (lng (coordinates (dropoff_location parentBooking)))
      (lat (coordinates (dropoff_location childBooking)))
      (lng (coordinates (dropoff_location childBooking))) in
  if Qgtb dropoffDistance 7
  then continue count4
         ("Checkpoint #4: Booking #" +:+ pretty childId
            +:+ " dropoff location is too far from parent booking ("
            +:+ toFixed 2 dropoffDistance +:+ " km)")
  else
  let count5 := S count4 in
  if bool_decide (booking_type parentBooking ≠ booking_type childBooking)
  then continue count5
         ("Checkpoint #5: Booking #" +:+ pretty childId +:+ " type ("
            +:+ booking_type childBooking
            +:+ ") doesn't match parent booking type ("
            +:+ booking_type parentBooking +:+ ")")
  else
  let count6 := S count5 in
  (* [pickup_time] is a [Date] in the rows of the table *)
  let pickupTimeDiffMin :=
    Math_abs (inject_Z (pickup_time parentBooking - pickup_time childBooking)
              / (60 * 1000))%Q in
  if Qgtb pickupTimeDiffMin 15
  then continue count6
         ("Checkpoint #6: Booking #" +:+ pretty childId
            +:+ " pickup time is too far from parent booking ("
            +:+ toFixed 0 pickupTimeDiffMin +:+ " min)")
  else
    mkEligibilityScan (childBookings scan ++ [childBooking])
      (scan_ineligibleBookings scan) (scan_reasons scan) count6
  end.

(** The handler; a missing [parentBookingId] is [0], as in the merge handler. *)
Definition check_merge_eligibility (parentBookingId : Z) (childBookingIds : list Z)
    (db : Db) : EligibilityReply :=
  if (parentBookingId =? 0) || bool_decide (length childBookingIds = 0%nat)
  then mkEligibilityReply 400 false
         "Invalid request. parentBookingId and childBookingIds array are required"
         (mkEligibility false None None None ["Invalid request parameters"])
  else
  match select_by_id db parentBookingId with
  | None =>
      mkEligibilityReply 404 false
        ("Parent booking #" +:+ pretty parentBookingId +:+ " not found")
        (mkEligibility false None None None ["Parent booking not found"])
  | Some parentBooking =>
  if is_merged parentBooking
  then mkEligibilityReply 400 false "Cannot use a merged booking as a parent"
         (mkEligibility false None None None
            ["Parent booking is already merged with another booking"])
  else
    let scan :=
      foldl (check_child parentBooking db) (mkEligibilityScan [] [] [] 0)
            childBookingIds in
    let eligibleBookingIds := map id (childBookings scan) in
    let canMerge := bool_decide (0 < length eligibleBookingIds)%nat in
    mkEligibilityReply 200 true
      (if canMerge
       then pretty (length eligibleBookingIds)
              +:+ " booking(s) can be merged with parent booking"
       else "No eligible bookings found for merging")
      (mkEligibility canMerge (Some eligibleBookingIds)
         (Some (scan_ineligibleBookings scan))
         (Some (checkpointCount scan))
         (if bool_decide (0 < length (scan_reasons scan))%nat
          then scan_reasons scan
          else ["All selected bookings are eligible for merging"]))
  end.
End EligibilityEndpoint.

(** ** [POST /api/bookings/:id/optimize-sequence] (lines 585-724) *)

(** Lines 636-638: the route put on the parent. *)
Definition set_optimized_route (optimizedRoute : option OptimizedRoute) (b : Booking)
    : Booking :=
  {| id := id b; reference_no := reference_no b;
     status := status b;
     booking_type := booking_type b; priority := priority b;
     pickup_location := pickup_location b; dropoff_location := dropoff_location b;
     pickup_time := pickup_time b; dropoff_time := dropoff_time b;
     passenger_count := passenger_count b; vehicle_type := vehicle_type b;
     vehicle_id := vehicle_id b; assigned_vehicle_id := assigned_vehicle_id b;
     estimated_distance := estimated_distance b;
     estimated_duration := estimated_duration b;
     is_merged := is_merged b;
     merged_with_booking_id := merged_with_booking_id b;
     merged_booking_ids := merged_booking_ids b;
     has_merged_trips := has_merged_trips b;
     trip_id := trip_id b;
     optimized_route := optimizedRoute;
     pickup_sequence := pickup_sequence b; dropoff_sequence := dropoff_sequence b;
     parent_booking_id := parent_booking_id b;
     is_parent_booking := is_parent_booking b;
     route_sequence := route_sequence b; route_polyline := route_polyline b;
     last_modified_by := last_modified_by b;
     modification_notes := modification_notes b |}.

Record SequenceResult := mkSequenceResult {
  sr_parent : option Booking;
  sr_children : list Booking;
  sr_route : option OptimizedRoute;
  sr_sequence : option (list (StopType * LatLng * Z))
}.

Section OptimizeSequence.
(** As for the unmerge handler: [id_fits x] tells whether the integer column
    [bookings.id] can hold [x], and [failedQuery] gives the message of the
    error that the driver throws for a query comparing the column with
    something it cannot hold, which is [NaN] ([None]) or a number out of the
    column's range. *)
Variable id_fits : Z -> bool.
Variable failedQuery : option Z -> string.
Variable calculateDistance : Q -> Q -> Q -> Q -> Q.
Variable apiKey : string.
Variable response : FetchResult.

(** The callback given to [db.transaction].  [parsedId] is [parseInt(id)],
    with [None] for [NaN]; the handler has no [isNaN] guard, so [NaN] reaches
    the first query, which then fails. *)
Definition optimize_sequence_callback (parsedId : option Z) (db : Db)
    : TxOutcome SequenceResult :=
  match parsedId with
  | None => Throws (failedQuery None) db
  | Some parentId =>
  match select_by_id db parentId with
  | None =>
      if id_fits parentId then Throws "Booking not found" db
      else Throws (failedQuery (Some parentId)) db
  | Some parentBooking =>
  if negb (has_merged_trips parentBooking)
  then Throws "This booking does not have any merged trips" db else
  let children :=
    filter (fun b => merged_with_booking_id b = Some parentId) db in
  let allBookings := parentBooking :: children in
  let pickupPoints :=
    map (fun booking => mkPoint (coordinates (pickup_location booking)) (id booking))
        allBookings in
  let dropoffPoints :=
    map (fun booking => mkPoint (coordinates (dropoff_location booking)) (id booking))
        allBookings in
  let startLocation :=
    if truthy (assigned_vehicle_id parentBooking)
    then mkLatLng (25276987 # 1000000) (55296249 # 1000000)
    else coordinates (pickup_location parentBooking) in
  let optimizedRoute :=
    optimizeRoute calculateDistance apiKey response
                  pickupPoints dropoffPoints startLocation in
  let db1 := update_by_id db parentId (set_optimized_route optimizedRoute) in
  let db2 :=
    match optimizedRoute with
    | Some route =>
        write_sequences db1
          (JsMap.entries (build_sequences (waypoints route) 0 JsMap.empty))
    | None =>
        fallback_sequences (length allBookings) (map id allBookings) 0 db1
    end in
  Returns
    {| sr_parent := select_by_id db2 parentId;
       sr_children :=
         filter (fun b => merged_with_booking_id b = Some parentId) db2;
       sr_route := optimizedRoute;
       sr_sequence :=
         (fun route =>
            map (fun wp => (stopType wp, wp_location wp, bookingId wp))
                (waypoints route)) <$> optimizedRoute |}
    db2
  end
  end.

Definition optimize_sequence (parsedId : option Z) (db : Db)
    : HttpReply SequenceResult * Db :=
  match db_transaction (optimize_sequence_callback parsedId) db with
  | (inr result, db') =>
      (mkHttpReply 200 true "Sequence optimized successfully" (Some result), db')
  | (inl thrown, db') => (mkHttpReply 500 false thrown None, db')
  end.
End OptimizeSequence.

(** A row with its route and its two sequence numbers blanked. *)
Definition without_route_and_sequences (b : Booking) : Booking :=
  without_sequences (set_optimized_route None b).

(** What the eligibility endpoint requires of a child row next to the parent
    row (its checkpoints 2 to 6, with the thresholds of lines 286, 301 and
    344): not merged, pickups and dropoffs at most 7 km apart, the same
    booking type, and pickup times at most 15 minutes apart. *)
Definition endpoint_eligible (calculateDistance : Q -> Q -> Q -> Q -> Q)
    (parentBooking childBooking : Booking) : bool :=
  negb (is_merged childBooking)
  && Qle_bool
       (calculateDistance
          (lat (coordinates (pickup_location parentBooking)))
          (lng (coordinates (pickup_location parentBooking)))
          (lat (coordinates (pickup_location childBooking)))
          (lng (coordinates (pickup_location childBooking)))) 7
  && Qle_bool
       (calculateDistance
          (lat (coordinates (dropoff_location parentBooking)))
          (lng (coordinates (dropoff_location parentBooking)))
          (lat (coordinates (dropoff_location childBooking)))
          (lng (coordinates (dropoff_location childBooking)))) 7
  && bool_decide (booking_type parentBooking = booking_type childBooking)
  && bool_decide (Z.abs (pickup_time parentBooking - pickup_time childBooking)
                  <= 15 * 60 * 1000).

(** The child [childId] exists and meets these requirements. *)
Definition child_eligible (calculateDistance : Q -> Q -> Q -> Q -> Q)
    (parentBooking : Booking) (db : Db) (childId : Z) : bool :=
  match select_by_id db childId with
  | Some childBooking => endpoint_eligible calculateDistance parentBooking childBooking
  | None => false
  end.

(** ** [src/services/trip-merge-service.ts]: manual merging and the search
    for merges *)

(** [!!x] of a nullable string: [null] and [''] are falsy. *)
Definition truthy_string (o : option string) : bool :=
  match o with Some s => negb (bool_decide (s = "")) | None => false end.

Section MergeSearch.
Variable calculateDistance : Q -> Q -> Q -> Q -> Q.

(** The reads of the storage collaborator, taken as they come. *)
Variable getVehicle : Z -> option Vehicle.
Variable getBooking : Z -> list Booking.
Variable getActiveBookings : list Booking.
Variable getBookingsEligibleForMerging : list Booking.

(** Lines 407-441: the body of the loop of [checkManualMergeEligibility] for
    one candidate. *)
Definition manual_check_candidate (booking candidate : Booking) : M bool :=
  _ ← enter SelfExclusion;
  if bool_decide (id booking = id candidate) then mret false else
  pickupOk ←
    isPickupNearby calculateDistance
      (pickup_location booking) (pickup_location candidate);
  if negb pickupOk then mret false else
  dropoffOk ←
    isDropoffNearby calculateDistance
      (dropoff_location booking) (dropoff_location candidate);
  if negb dropoffOk then mret false else
  typeOk ← isBookingTypeCompatible [booking; candidate];
  if negb typeOk then mret false else
  let totalPassengers := passengers booking + passengers candidate in
  match vehicle_id booking with
  | Some vid =>
      if vid =? 0 then mret true else
      match getVehicle vid with
      | Some vehicle =>
          if capacity vehicle <? totalPassengers then mret false else mret true
      | None => mret true
      end
  | None => mret true
  end.

(** Lines 402-449.  A candidate whose checks throw is skipped ([catch]). *)
Fixpoint checkManualMergeEligibility_from (booking : Booking)
    (candidateBookings eligibleBookings : list Booking) (w : World)
    : list Booking * World :=
  match candidateBookings with
  | [] => (eligibleBookings, w)
  | candidate :: rest =>
      match manual_check_candidate booking candidate w with
      | (Some true, w') =>
          checkManualMergeEligibility_from booking rest
            (eligibleBookings ++ [candidate]) w'
      | (_, w') => checkManualMergeEligibility_from booking rest eligibleBookings w'
      end
  end.

Definition checkManualMergeEligibility (booking : Booking)
    (candidateBookings : list Booking) (w : World) : list Booking * World :=
  checkManualMergeEligibility_from booking candidateBookings [] w.

(** [findPotentialMergesForBooking], lines 367-396; [None] is the error
    thrown for a booking that is not found. *)
Definition findPotentialMergesForBooking (bookingId : Z) (w : World)
    : option (Booking * list Booking) * World :=
  match getBooking bookingId with
  | [] => (None, w)
  | booking :: _ =>
      let eligibleCandidates :=
        filter (fun candidate =>
                  id candidate <> bookingId
                  /\ status candidate <> "Completed"
                  /\ status candidate <> "Cancelled"
                  /\ truthy (merged_with_booking_id candidate) = false)
               getActiveBookings in
      let '(mergeCandidates, w') :=
        checkManualMergeEligibility booking eligibleCandidates w in
      (Some (booking, mergeCandidates), w')
  end.

(** Lines 340-352: the loop of [findPotentialTripMerges] over the bookings
    from [rest] on. *)
Fixpoint potentialMerges_from (bookings rest : list Booking)
    (potentialMerges : list (Booking * list Booking)) (w : World)
    : list (Booking * list Booking) * World :=
  match rest with
  | [] => (potentialMerges, w)
  | booking :: rest' =>
      if truthy (merged_with_booking_id booking) || truthy_string (trip_id booking)
      then potentialMerges_from bookings rest' potentialMerges w
      else
        let '(mergeCandidates, w') :=
          checkMergeEligibility calculateDistance getVehicle booking bookings w in
        if bool_decide (0 < length mergeCandidates)%nat
        then potentialMerges_from bookings rest'
               (potentialMerges ++ [(booking, mergeCandidates)]) w'
        else potentialMerges_from bookings rest' potentialMerges w'
  end.

(** [findPotentialTripMerges], lines 332-360. *)
Definition findPotentialTripMerges (w : World)
    : list (Booking * list Booking) * World :=
  let bookings := getBookingsEligibleForMerging in
  potentialMerges_from bookings bookings [] w.
End MergeSearch.

(** ** Notions for the manual checks *)

Section ManualNotions.
Variable calculateDistance : Q -> Q -> Q -> Q -> Q.
Variable getVehicle : Z -> option Vehicle.

(** The vehicle looked up for the base booking (lines 432-433). *)
Definition booking_vehicle (booking : Booking) : option Vehicle :=
  match vehicle_id booking with
  | Some vid => if vid =? 0 then None else getVehicle vid
  | None => None
  end.

(** The candidate passes the manual checks, the configuration being read in
    state [w]: another booking, pickups and dropoffs within the configured
    distances (and in the same zone where that is required), the same booking
    type where that is required, and room in the vehicle of the base booking,
    if it has one. *)
Definition manually_eligible (booking : Booking) (w : World) (candidate : Booking)
    : bool :=
  negb (bool_decide (id booking = id candidate))
  && Qle_bool
       (distance_between calculateDistance
          (pickup_location booking) (pickup_location candidate))
       (effective_number w TRIP_MERGE_PICKUP_DISTANCE_KM)
  && negb (effective_boolean w TRIP_MERGE_SAME_ZONE_REQUIRED
           && bool_decide (zone (pickup_location booking)
                           ≠ zone (pickup_location candidate)))
  && Qle_bool
       (distance_between calculateDistance
          (dropoff_location booking) (dropoff_location candidate))
       (effective_number w TRIP_MERGE_DROPOFF_DISTANCE_KM)
  && negb (effective_boolean w TRIP_MERGE_SAME_ZONE_REQUIRED
           && bool_decide (zone (dropoff_location booking)
                           ≠ zone (dropoff_location candidate)))
  && (negb (effective_boolean w TRIP_MERGE_SAME_BOOKING_TYPE_REQUIRED)
      || bool_decide (booking_type candidate = booking_type booking))
  && match booking_vehicle booking with
     | Some vehicle =>
         passengers booking + passengers candidate <=? capacity vehicle
     | None => true
     end.
End ManualNotions.

(** ** The configuration service: writing, and the API key *)

(** [setConfigValue], lines 964-995, for a key whose default is a number: an
    existing entry is updated, a missing one is inserted. *)
Definition setConfigNumber (key : NumberKey) (value : Q) : M unit := fun w =>
  match config_numbers w !! key with
  | Some existingConfig =>
      (Some tt,
       mkWorld (alter (fun _ => value) key (config_numbers w))
               (config_booleans w) (entered w))
  | None =>
      (Some tt,
       mkWorld (<[key := value]> (config_numbers w))
               (config_booleans w) (entered w))
  end.

(** The same for a key whose default is a boolean. *)
Definition setConfigBoolean (key : BooleanKey) (value : bool) : M unit := fun w =>
  match config_booleans w !! key with
  | Some existingConfig =>
      (Some tt,
       mkWorld (config_numbers w)
               (alter (fun _ => value) key (config_booleans w)) (entered w))
  | None =>
      (Some tt,
       mkWorld (config_numbers w)
               (<[key := value]> (config_booleans w)) (entered w))
  end.

(** [getGoogleMapsApiKey], lines 1065-1092.  [envKey] is
    [process.env.GOOGLE_MAPS_API_KEY] at the time of the call; [configKey] is
    [DEFAULT_CONFIG.GOOGLE_MAPS_API_KEY], the value that variable had when the
    module was loaded, or the empty string; the state is the module variable
    [cachedApiKey].  The result is the key with the new state.  Keys are
    ASCII, so their length in bytes is their JavaScript length. *)
Definition getGoogleMapsApiKey (envKey : option string) (configKey : string)
    (cachedApiKey : option string) : string * option string :=
  if truthy_string cachedApiKey then (default "" cachedApiKey, cachedApiKey) else
  if truthy_string envKey && bool_decide (10 < String.length (default "" envKey))%nat
  then (default "" envKey, envKey)
  else
  if negb (bool_decide (configKey = ""))
     && bool_decide (10 < String.length configKey)%nat
  then (configKey, Some configKey)
  else
    ((if truthy_string envKey then default "" envKey
      else if negb (bool_decide (configKey = "")) then configKey
      else ""),
     cachedApiKey).

(** ** [src/utils/geo-utils.ts]: the center of a set of points *)

(** The returned object [{lat, lng}], two doubles. *)
Record Center := mkCenter { center_lat : double; center_lng : double }.

(** [GeoUtils.calculateCenter], lines 47-64; [None] is the error thrown for
    an empty array.  The sums and the quotients are those of doubles. *)
Definition calculateCenter (coords : list LatLng) : option Center :=
  if bool_decide (length coords = 0%nat) then None else
  let sums :=
    foldl (fun sums coord =>
             (sums.1 + double_of_Q (lat coord),
              sums.2 + double_of_Q (lng coord))%D)
          (double_of_Q 0, double_of_Q 0) coords in
  let count := double_of_Q (inject_Z (Z.of_nat (length coords))) in
  Some (mkCenter (sums.1 / count)%D (sums.2 / count)%D).

(** * Proofs *)

(** ** Numbers *)

Lemma Qgtb_true (a b : Q) : Qgtb a b = true <-> (b < a)%Q.
Proof.
  unfold Qgtb. rewrite negb_true_iff.
  destruct (Qle_bool a b) eqn:E.
  - apply Qle_bool_iff in E. split; [discriminate | intros H; exfalso; lra].
  - split; [intros _ | done].
    apply Qnot_le_lt. intros H. apply Qle_bool_iff in H. congruence.
Qed.

Lemma Qgtb_false (a b : Q) : Qgtb a b = false <-> (a <= b)%Q.
Proof.
  unfold Qgtb. rewrite negb_false_iff. apply Qle_bool_iff.
Qed.

(** ** The sort *)

Section JsSortFacts.
Context {A : Type} (cmp : A -> A -> Q) (R : A -> A -> Prop).

(** The comparator puts [a] first exactly when [R a b], a total preorder. *)
Hypothesis cmp_R : forall a b, Qle_bool (cmp a b) 0 = true <-> R a b.
Hypothesis R_total : forall a b, R a b \/ R b a.
Hypothesis R_trans : forall a b c, R a b -> R b c -> R a c.

Lemma sort_insert_perm (x : A) (l : list A) :
  Permutation (x :: l) (sort_insert cmp x l).
Proof.
  induction l as [|y l IH]; simpl; [done|].
  destruct (Qle_bool (cmp x y) 0); [done|].
  rewrite <- IH. apply perm_swap.
Qed.

Lemma js_sort_perm (l : list A) : Permutation l (js_sort cmp l).
Proof.
  induction l as [|x l IH]; simpl; [done|].
  rewrite <- sort_insert_perm. by constructor.
Qed.

Lemma sort_insert_sorted (x : A) (l : list A) :
  StronglySorted R l -> StronglySorted R (sort_insert cmp x l).
Proof.
  induction 1 as [|y l Hl IH Hy]; simpl.
  - repeat constructor.
  - destruct (Qle_bool (cmp x y) 0) eqn:E.
    + apply cmp_R in E.
      constructor; [by constructor|].
      constructor; [done|].
      eapply Forall_impl; [exact Hy|]. intros z Hz. by eapply R_trans.
    + assert (R y x) as Hyx.
      { destruct (R_total x y) as [Hxy|Hyx]; [|done].
        apply cmp_R in Hxy. congruence. }
      constructor; [done|].
      rewrite <- sort_insert_perm. by constructor.
Qed.

Lemma js_sort_sorted (l : list A) : StronglySorted R (js_sort cmp l).
Proof.
  induction l as [|x l IH]; simpl; [constructor|].
  by apply sort_insert_sorted.
Qed.
End JsSortFacts.

(** ** The insertion-ordered map *)

Lemma JsMap_get_set {V : Type} (m : JsMap.t V) (k k' : Z) (v : V) :
  JsMap.get (JsMap.set m k v) k' = if decide (k = k') then Some v else JsMap.get m k'.
Proof.
  induction m as [|[k0 v0] m IH]; simpl.
  - repeat case_decide; congruence.
  - repeat (case_decide; simpl); try congruence; try done;
      rewrite IH; case_decide; congruence.
Qed.

Lemma JsMap_get_entry {V : Type} (m : JsMap.t V) (k : Z) (v : V) :
  JsMap.get m k = Some v -> (k, v) ∈ JsMap.entries m.
Proof.
  unfold JsMap.entries.
  induction m as [|[k0 v0] m IH]; simpl; [done|].
  case_decide; intros Hg.
  - simplify_eq. left.
  - right. auto.
Qed.

Lemma JsMap_has_true {V : Type} (m : JsMap.t V) (k : Z) :
  JsMap.has m k = true <-> is_Some (JsMap.get m k).
Proof. unfold JsMap.has. apply bool_decide_eq_true. Qed.

(** ** The sequence map of [optimizeRoute] *)

Lemma init_sequenceMap_get (wps : list Waypoint) (w : Waypoint) :
  w ∈ wps ->
  JsMap.get (init_sequenceMap wps) (bookingId w) = Some (mkMapping None None).
Proof.
  unfold init_sequenceMap.
  assert (forall m b,
    (forall v, JsMap.get m b = Some v -> v = mkMapping None None) ->
    (is_Some (JsMap.get m b) \/ b ∈ map bookingId wps) ->
    JsMap.get
      (foldl (fun m wp => if JsMap.has m (bookingId wp) then m
                          else JsMap.set m (bookingId wp) (mkMapping None None))
             m wps) b = Some (mkMapping None None)) as Hgen.
  { induction wps as [|x wps IH]; intros m b Hv Hin; simpl.
    - destruct Hin as [[v Hg]|Hin]; [|by apply elem_of_nil in Hin].
      rewrite Hg. f_equal. by apply Hv.
    - apply IH.
      + intros v. destruct (JsMap.has m (bookingId x)); [apply Hv|].
        rewrite JsMap_get_set. case_decide; [congruence | apply Hv].
      + destruct (JsMap.has m (bookingId x)) eqn:Hhas.
        * destruct Hin as [Hs|Hin]; [by left|].
          simpl in Hin. apply elem_of_cons in Hin as [->|Hin]; [|by right].
          left. by apply JsMap_has_true.
        * rewrite JsMap_get_set.
          destruct Hin as [Hs|Hin]; [left; case_decide; [by eexists | done]|].
          simpl in Hin. apply elem_of_cons in Hin as [->|Hin]; [|by right].
          left. rewrite decide_True by done. by eexists. }
  intros Hw. apply Hgen; [done|].
  right. apply list_elem_of_fmap. by exists w.
Qed.

Lemma apply_order_get (wps : list Waypoint) (order : list nat) :
  forall k m m' b v,
    apply_order wps order k m = Some m' ->
    JsMap.get m b = Some v ->
    JsMap.get m' b =
      Some (mkMapping
              (match last_index (is_stop wps pickup b) order k with
               | Some p => Some p
               | None => pickupIndex v
               end)
              (match last_index (is_stop wps dropoff b) order k with
               | Some p => Some p
               | None => dropoffIndex v
               end)).
Proof.
  induction order as [|x rest IH]; intros k m m' b v Hrun Hget; simpl in *.
  - simplify_eq. rewrite Hget. by destruct v.
  - destruct (wps !! x) as [w|] eqn:Hw; [|done].
    destruct (JsMap.get m (bookingId w)) as [cur|] eqn:Hcur; [|done].
    unfold is_stop at 2 4. rewrite Hw.
    destruct (decide (bookingId w = b)) as [Hb|Hb].
    + subst b. rewrite Hcur in Hget. simplify_eq.
      erewrite IH; [|exact Hrun|by rewrite JsMap_get_set, decide_True].
      rewrite (bool_decide_eq_true_2 (bookingId w = bookingId w)) by done.
      destruct (stopType w); simpl;
        by repeat destruct (last_index _ rest (S k)).
    + erewrite IH; [|exact Hrun|by rewrite JsMap_get_set, decide_False].
      rewrite (bool_decide_eq_false_2 (bookingId w = b)) by done.
      rewrite !andb_false_r.
      by repeat destruct (last_index _ rest (S k)).
Qed.

Lemma apply_order_total (wps : list Waypoint) (order : list nat) :
  forall k m,
    Forall (fun idx => idx < length wps)%nat order ->
    (forall w, w ∈ wps -> is_Some (JsMap.get m (bookingId w))) ->
    is_Some (apply_order wps order k m).
Proof.
  induction order as [|x rest IH]; intros k m Hrange Hm; simpl; [by eexists|].
  apply Forall_cons in Hrange as [Hx Hrange].
  destruct (lookup_lt_is_Some_2 wps x Hx) as [w Hw]. rewrite Hw.
  destruct (Hm w) as [cur Hcur]; [by eapply list_elem_of_lookup_2|].
  rewrite Hcur. apply IH; [done|].
  intros w' Hw'. rewrite JsMap_get_set. case_decide; [by eexists | by apply Hm].
Qed.

Lemma last_index_unique (P : nat -> bool) (order : list nat) :
  forall k j x,
    order !! j = Some x -> P x = true ->
    (forall j' x', order !! j' = Some x' -> P x' = true -> j' = j) ->
    last_index P order k = Some (k + j)%nat.
Proof.
  induction order as [|y rest IH]; intros k j x Hj HP Huniq; [done|].
  destruct j as [|j]; simpl in *.
  - simplify_eq. rewrite HP.
    destruct (last_index P rest (S k)) as [p|] eqn:Hlast; [|f_equal; lia].
    exfalso.
    assert (forall l k p, last_index P l k = Some p ->
              exists i z, l !! i = Some z /\ P z = true) as Hex.
    { clear. induction l as [|z l IH]; intros k p H; [done|]. simpl in H.
      destruct (last_index P l (S k)) eqn:E.
      - destruct (IH _ _ E) as (i & z' & ? & ?). by exists (S i), z'.
      - destruct (P z) eqn:Pz; [|done]. by exists 0%nat, z. }
    destruct (Hex _ _ _ Hlast) as (i & z & Hi & Pz).
    specialize (Huniq (S i) z Hi Pz). lia.
  - rewrite (IH (S k) j x Hj HP); [f_equal; lia|].
    intros j' x' Hj' HP'. specialize (Huniq (S j') x' Hj' HP'). lia.
Qed.

(** ** The repaired visiting order *)

Lemma filter_pickup_waypoints (pickupPoints dropoffPoints : list Point) :
  filter (fun wp => stopType wp = pickup) (build_waypoints pickupPoints dropoffPoints)
  = map (fun point => mkWaypoint (pt_location point) pickup (pt_bookingId point))
        pickupPoints.
Proof.
  unfold build_waypoints. rewrite filter_app.
  assert (forall l, filter (fun wp => stopType wp = pickup)
            (map (fun point => mkWaypoint (pt_location point) pickup (pt_bookingId point)) l)
          = map (fun point => mkWaypoint (pt_location point) pickup (pt_bookingId point)) l)
    as ->.
  { induction l as [|p l IH]; [done|]. simpl. rewrite filter_cons_True by done.
    by rewrite IH. }
  assert (forall l, filter (fun wp => stopType wp = pickup)
            (map (fun point => mkWaypoint (pt_location point) dropoff (pt_bookingId point)) l)
          = []) as ->.
  { induction l as [|p l IH]; [done|]. simpl. by rewrite filter_cons_False. }
  by rewrite app_nil_r.
Qed.

Lemma filter_dropoff_waypoints (pickupPoints dropoffPoints : list Point) :
  filter (fun wp => stopType wp = dropoff) (build_waypoints pickupPoints dropoffPoints)
  = map (fun point => mkWaypoint (pt_location point) dropoff (pt_bookingId point))
        dropoffPoints.
Proof.
  unfold build_waypoints. rewrite filter_app.
  assert (forall l, filter (fun wp => stopType wp = dropoff)
            (map (fun point => mkWaypoint (pt_location point) dropoff (pt_bookingId point)) l)
          = map (fun point => mkWaypoint (pt_location point) dropoff (pt_bookingId point)) l)
    as ->.
  { induction l as [|p l IH]; [done|]. simpl. rewrite filter_cons_True by done.
    by rewrite IH. }
  assert (forall l, filter (fun wp => stopType wp = dropoff)
            (map (fun point => mkWaypoint (pt_location point) pickup (pt_bookingId point)) l)
          = []) as ->.
  { induction l as [|p l IH]; [done|]. simpl. by rewrite filter_cons_False. }
  done.
Qed.

Lemma NoDup_map_inj_on {A B : Type} (f : A -> B) (l : list A) (x y : A) :
  NoDup (map f l) -> x ∈ l -> y ∈ l -> f x = f y -> x = y.
Proof.
  induction l as [|z l IH]; intros Hnd Hx Hy Hxy; [by apply elem_of_nil in Hx|].
  simpl in Hnd. apply NoDup_cons in Hnd as [Hz Hnd].
  apply elem_of_cons in Hx as [->|Hx]; apply elem_of_cons in Hy as [->|Hy]; auto.
  - exfalso. apply Hz. rewrite Hxy. apply list_elem_of_fmap. by exists y.
  - exfalso. apply Hz. rewrite <- Hxy. apply list_elem_of_fmap. by exists x.
Qed.

Lemma find_by_bookingId (dl : list Waypoint) (d : Waypoint) :
  NoDup (map bookingId dl) -> d ∈ dl ->
  find (fun x => bool_decide (bookingId x = bookingId d)) dl = Some d.
Proof.
  intros Hnd Hd.
  destruct (find _ dl) as [x|] eqn:Hfind.
  - apply find_some in Hfind as [Hx Hid]. apply bool_decide_eq_true in Hid.
    f_equal. apply (NoDup_map_inj_on bookingId dl); auto.
    by apply list_elem_of_In.
  - exfalso. apply list_elem_of_In in Hd.
    pose proof (find_none _ _ Hfind d Hd) as Hn. simpl in Hn.
    by rewrite bool_decide_eq_true_2 in Hn.
Qed.

Lemma matching_dropoffs_self (dl l : list Waypoint) :
  NoDup (map bookingId dl) -> l ⊆ dl ->
  matching_dropoffs (map bookingId l) dl = l.
Proof.
  intros Hnd. induction l as [|d l IH]; intros Hsub; [done|].
  simpl. rewrite find_by_bookingId; [|done|apply Hsub; left].
  simpl. f_equal. apply IH. intros x Hx. apply Hsub. by right.
Qed.

Lemma matching_dropoffs_perm (ids : list Z) (dl : list Waypoint) :
  NoDup (map bookingId dl) -> Permutation ids (map bookingId dl) ->
  Permutation (matching_dropoffs ids dl) dl.
Proof.
  intros Hnd Hperm. unfold matching_dropoffs.
  rewrite (Permutation_flat_map _ Hperm).
  change (Permutation (matching_dropoffs (map bookingId dl) dl) dl).
  by rewrite matching_dropoffs_self.
Qed.

Lemma matching_dropoffs_ids (ids : list Z) (dl : list Waypoint) :
  ids ⊆ map bookingId dl ->
  map bookingId (matching_dropoffs ids dl) = ids.
Proof.
  induction ids as [|b ids IH]; intros Hsub; [done|]. simpl.
  destruct (find _ dl) as [d|] eqn:Hfind.
  - apply find_some in Hfind as [_ Hid]. apply bool_decide_eq_true in Hid.
    simpl. rewrite Hid. f_equal. apply IH. intros x Hx. apply Hsub. by right.
  - exfalso. assert (b ∈ map bookingId dl) as Hb by (apply Hsub; left).
    apply list_elem_of_fmap in Hb as (d & -> & Hd). apply list_elem_of_In in Hd.
    pose proof (find_none _ _ Hfind d Hd) as Hn. simpl in Hn.
    by rewrite bool_decide_eq_true_2 in Hn.
Qed.

Lemma matching_dropoffs_stopType (ids : list Z) (dl : list Waypoint) :
  Forall (fun d => stopType d = dropoff) dl ->
  Forall (fun d => stopType d = dropoff) (matching_dropoffs ids dl).
Proof.
  intros Hdl. induction ids as [|b ids IH]; simpl; [constructor|].
  destruct (find _ dl) as [d|] eqn:Hfind; [|done].
  apply find_some in Hfind as [Hd _]. simpl. constructor; [|done].
  rewrite Forall_forall in Hdl. apply Hdl. by apply list_elem_of_In.
Qed.

(** All pickups first, then dropoffs: precedence holds whatever the bookings. *)
Lemma precedence_pickups_then_dropoffs (P D : list Waypoint) :
  Forall (fun w => stopType w = pickup) P ->
  Forall (fun w => stopType w = dropoff) D ->
  precedence_holds (P ++ D).
Proof.
  intros HP HD i j wi wj Hi Hj Hpi Hdj _.
  apply lookup_app_Some in Hi as [Hi|[_ Hi]].
  - apply lookup_app_Some in Hj as [Hj|[Hlen _]].
    + rewrite Forall_lookup in HP. specialize (HP _ _ Hj). congruence.
    + apply lookup_lt_Some in Hi. lia.
  - rewrite Forall_lookup in HD. specialize (HD _ _ Hi). congruence.
Qed.

Lemma repaired_waypoints_precedence (calculateDistance : Q -> Q -> Q -> Q -> Q)
    (startLocation : LatLng) (wps : list Waypoint) :
  precedence_holds (repaired_waypoints calculateDistance startLocation wps).
Proof.
  unfold repaired_waypoints. apply precedence_pickups_then_dropoffs.
  - unfold sorted_pickups.
    eapply Permutation_Forall; [apply js_sort_perm|].
    apply Forall_forall. intros w Hw. by apply list_elem_of_filter in Hw as [? _].
  - apply matching_dropoffs_stopType.
    apply Forall_forall. intros w Hw. by apply list_elem_of_filter in Hw as [? _].
Qed.

Lemma build_waypoints_lookup_pickup (pp dp : list Point) (x : nat) (w : Waypoint) :
  build_waypoints pp dp !! x = Some w -> stopType w = pickup ->
  map pt_bookingId pp !! x = Some (bookingId w).
Proof.
  unfold build_waypoints. intros Hx Hw.
  apply lookup_app_Some in Hx as [Hx|[_ Hx]].
  - apply list_lookup_fmap_Some in Hx as (p & -> & Hp).
    apply list_lookup_fmap_Some. by exists p.
  - apply list_lookup_fmap_Some in Hx as (p & -> & Hp). done.
Qed.

Lemma build_waypoints_lookup_dropoff (pp dp : list Point) (x : nat) (w : Waypoint) :
  build_waypoints pp dp !! x = Some w -> stopType w = dropoff ->
  (length pp <= x)%nat /\
  map pt_bookingId dp !! (x - length pp)%nat = Some (bookingId w).
Proof.
  unfold build_waypoints. intros Hx Hw.
  apply lookup_app_Some in Hx as [Hx|[Hlen Hx]].
  - apply list_lookup_fmap_Some in Hx as (p & -> & Hp). done.
  - rewrite length_map in Hlen, Hx. split; [done|].
    apply list_lookup_fmap_Some in Hx as (p & -> & Hp).
    apply list_lookup_fmap_Some. by exists p.
Qed.

Lemma is_stop_unique (pp dp : list Point) (t : StopType) (b : Z) (x x' : nat) :
  NoDup (map pt_bookingId pp) -> NoDup (map pt_bookingId dp) ->
  is_stop (build_waypoints pp dp) t b x = true ->
  is_stop (build_waypoints pp dp) t b x' = true ->
  x = x'.
Proof.
  intros Hpp Hdp. unfold is_stop.
  destruct (build_waypoints pp dp !! x) as [w|] eqn:Hx; [|done].
  destruct (build_waypoints pp dp !! x') as [w'|] eqn:Hx'; [|done].
  rewrite !andb_true_iff, !bool_decide_eq_true.
  intros [Ht Hb] [Ht' Hb']. destruct t.
  - pose proof (build_waypoints_lookup_pickup _ _ _ _ Hx Ht) as H1.
    pose proof (build_waypoints_lookup_pickup _ _ _ _ Hx' Ht') as H2.
    rewrite Hb in H1. rewrite Hb' in H2.
    exact (NoDup_lookup _ _ _ _ Hpp H1 H2).
  - destruct (build_waypoints_lookup_dropoff _ _ _ _ Hx Ht) as [L1 H1].
    destruct (build_waypoints_lookup_dropoff _ _ _ _ Hx' Ht') as [L2 H2].
    rewrite Hb in H1. rewrite Hb' in H2.
    pose proof (NoDup_lookup _ _ _ _ Hdp H1 H2). lia.
Qed.

(** The loop of lines 119-130 finds a dropoff that is placed before its
    pickup. *)
Lemma violation_requires_adjustment (pp dp : list Point) (order : list nat)
    (m' : JsMap.t Mapping) :
  NoDup (map pt_bookingId pp) -> NoDup (map pt_bookingId dp) -> NoDup order ->
  places_dropoff_before_pickup (build_waypoints pp dp) order ->
  apply_order (build_waypoints pp dp) order 0
    (init_sequenceMap (build_waypoints pp dp)) = Some m' ->
  requiresAdjustment m' = true.
Proof.
  intros Hpp Hdp Hord (b & i & j & wi & wj & Hi & Hdi & Hj & Hpj & Hlt) Hrun.
  set (wps := build_waypoints pp dp) in *.
  assert (exists w, w ∈ wps /\ bookingId w = b) as (w & Hw & Hb).
  { unfold is_stop in Hpj. destruct (wps !! wj) as [w|] eqn:E; [|done].
    exists w. split; [by eapply list_elem_of_lookup_2|].
    apply andb_true_iff in Hpj as [_ Hpj]. by apply bool_decide_eq_true in Hpj. }
  pose proof (init_sequenceMap_get wps w Hw) as Hinit. rewrite Hb in Hinit.
  pose proof (apply_order_get wps order 0 _ m' b _ Hrun Hinit) as Hget.
  rewrite (last_index_unique _ order 0 j wj Hj Hpj) in Hget.
  2:{ intros j' x' Hj' Hx'.
      assert (x' = wj) as -> by exact (is_stop_unique pp dp pickup b x' wj Hpp Hdp Hx' Hpj).
      exact (NoDup_lookup _ _ _ _ Hord Hj' Hj). }
  rewrite (last_index_unique _ order 0 i wi Hi Hdi) in Hget.
  2:{ intros i' x' Hi' Hx'.
      assert (x' = wi) as -> by exact (is_stop_unique pp dp dropoff b x' wi Hpp Hdp Hx' Hdi).
      exact (NoDup_lookup _ _ _ _ Hord Hi' Hi). }
  unfold requiresAdjustment. apply existsb_exists.
  eexists. split; [apply list_elem_of_In, JsMap_get_entry, Hget|].
  simpl. apply bool_decide_eq_true. lia.
Qed.

(** C3.  When the optimizer's order puts the dropoff of some booking before
    its pickup, [optimizeRoute] gives up that order and returns the pickups
    sorted by ascending distance from the start, followed by the dropoffs in
    the order of the bookings of those pickups; in the returned order every
    pickup stands before the dropoff of its booking.  The bookings are
    distinct and each has one pickup and one dropoff point, and the order is
    a list of distinct indices of waypoints, as the optimizer returns it. *)
Theorem C3_repair_branch
    (calculateDistance : Q -> Q -> Q -> Q -> Q) (apiKey : string)
    (data : DirectionsData) (route : DirectionsRoute) (others : list DirectionsRoute)
    (order : list nat) (pickupPoints dropoffPoints : list Point)
    (startLocation : LatLng) :
  let wps := build_waypoints pickupPoints dropoffPoints in
  apiKey <> "" ->
  data_status data = "OK" ->
  routes data = route :: others ->
  waypoint_order route = Some order ->
  NoDup (map pt_bookingId pickupPoints) ->
  map pt_bookingId dropoffPoints = map pt_bookingId pickupPoints ->
  NoDup order ->
  Forall (fun idx => idx < length wps)%nat order ->
  places_dropoff_before_pickup wps order ->
  exists (r : OptimizedRoute) (P D : list Waypoint),
    optimizeRoute calculateDistance apiKey (HttpResponse true data)
                  pickupPoints dropoffPoints startLocation = Some r /\
    waypoints r = P ++ D /\
    Permutation P (filter (fun wp => stopType wp = pickup) wps) /\
    StronglySorted
      (fun a b => distance_from calculateDistance startLocation a
                  <= distance_from calculateDistance startLocation b)%Q P /\
    Permutation D (filter (fun wp => stopType wp = dropoff) wps) /\
    map bookingId D = map bookingId P /\
    precedence_holds (waypoints r).
Proof.
  intros wps Hkey Hstatus Hroutes Horder Hnd Hids Hndo Hrange Hviol.
  assert (NoDup (map pt_bookingId dropoffPoints)) as Hndd by (by rewrite Hids).
  destruct (apply_order_total wps order 0 (init_sequenceMap wps) Hrange) as [m' Hrun].
  { intros w Hw. rewrite init_sequenceMap_get by done. by eexists. }
  pose proof (violation_requires_adjustment _ _ _ _ Hnd Hndd Hndo Hviol Hrun) as Hadj.
  assert (wps <> []) as Hne.
  { destruct Hviol as (b & i & j & wi & wj & _ & Hdi & _).
    unfold is_stop in Hdi. fold wps in Hdi. by destruct wps. }
  assert (is_Some (last dropoffPoints)) as [lastDropoff Hlast].
  { destruct Hviol as (b & i & j & wi & wj & _ & Hdi & _).
    unfold is_stop in Hdi. fold wps in Hdi.
    destruct (wps !! wi) as [w|] eqn:E; [|done].
    apply andb_true_iff in Hdi as [Ht _]. apply bool_decide_eq_true in Ht.
    destruct (build_waypoints_lookup_dropoff _ _ _ _ E Ht) as [_ Hl].
    destruct dropoffPoints as [|p l]; [done|].
    rewrite last_cons. destruct (last l); by eexists. }
  set (P := sorted_pickups calculateDistance startLocation wps).
  set (D := matching_dropoffs (map bookingId P)
              (filter (fun wp => stopType wp = dropoff) wps)).
  exists {| waypoints := P ++ D;
            waypointOrder := seq 0 (length (P ++ D));
            distance := (sum_legs leg_distance_value (legs route) / 1000)%Q;
            duration := (sum_legs leg_duration_value (legs route) / 60)%Q;
            polyline := default "" (overview_polyline route) |}, P, D.
  assert (Permutation P (filter (fun wp => stopType wp = pickup) wps)) as HpermP.
  { unfold P, sorted_pickups. symmetry. apply js_sort_perm. }
  assert (map bookingId (filter (fun wp => stopType wp = dropoff) wps)
          = map pt_bookingId dropoffPoints) as Hdids.
  { unfold wps. rewrite filter_dropoff_waypoints, <- list_fmap_compose. done. }
  assert (map bookingId (filter (fun wp => stopType wp = pickup) wps)
          = map pt_bookingId pickupPoints) as Hpids.
  { unfold wps. rewrite filter_pickup_waypoints, <- list_fmap_compose. done. }
  split; [|split; [done|split; [done|split; [|split; [|split]]]]].
  - unfold optimizeRoute. fold wps.
    rewrite bool_decide_eq_false_2 by done.
    rewrite bool_decide_eq_false_2 by (destruct wps; [done | simpl; lia]).
    rewrite Hlast. simpl.
    rewrite (bool_decide_eq_true_2 _ Hstatus). simpl.
    rewrite Hroutes, Horder. simpl. rewrite Hrun, Hadj. done.
  - apply js_sort_sorted.
    + intros a b. rewrite Qle_bool_iff. split; intros H; lra.
    + intros a b.
      destruct (Qlt_le_dec (distance_from calculateDistance startLocation a)
                           (distance_from calculateDistance startLocation b));
        [left | right]; lra.
    + intros a b c Hab Hbc. lra.
  - apply matching_dropoffs_perm.
    + by rewrite Hdids.
    + rewrite Hdids, Hids, <- Hpids. by apply Permutation_map.
  - apply matching_dropoffs_ids.
    rewrite Hdids, Hids, <- Hpids. intros x Hx.
    by rewrite <- (Permutation_map bookingId HpermP).
  - apply (repaired_waypoints_precedence calculateDistance startLocation wps).
Qed.

Lemma C3_repair_branch_witness :
  exists (r : OptimizedRoute) (P D : list Waypoint),
    optimizeRoute planar_distance "AIzaSy-configured-key"
                  (directions_ok [2; 0; 1]%nat (Some "abc"))
                  scenario_pickups scenario_dropoffs P_pickup = Some r /\
    waypoints r = P ++ D /\
    Permutation P (filter (fun wp => stopType wp = pickup)
                          (build_waypoints scenario_pickups scenario_dropoffs)) /\
    StronglySorted
      (fun a b => distance_from planar_distance P_pickup a
                  <= distance_from planar_distance P_pickup b)%Q P /\
    Permutation D (filter (fun wp => stopType wp = dropoff)
                          (build_waypoints scenario_pickups scenario_dropoffs)) /\
    map bookingId D = map bookingId P /\
    precedence_holds (waypoints r).
Proof.
  eapply (C3_repair_branch planar_distance "AIzaSy-configured-key"
            (data_ok [2; 0; 1]%nat (Some "abc"))
            (route_of [2; 0; 1]%nat (Some "abc")) []
            [2; 0; 1]%nat scenario_pickups scenario_dropoffs P_pickup).
  - discriminate.
  - reflexivity.
  - reflexivity.
  - reflexivity.
  - apply (bool_decide_unpack _). vm_compute. exact I.
  - reflexivity.
  - apply (bool_decide_unpack _). vm_compute. exact I.
  - apply (bool_decide_unpack _). vm_compute. exact I.
  - exists 1, 0%nat, 1%nat, 2%nat, 0%nat.
    repeat split; try reflexivity. lia.
Defined.

(** ** The polyline of a repaired route (C9) *)

(** C9, as stated, fails: a repaired result carries the polyline that the
    optimizer sent for the order that was given up.  Here the optimizer's
    order [2; 0; 1] visits the dropoff of booking 1 first, and its polyline
    is "abc". *)
Lemma C9_counterexample :
  ~ (forall (calculateDistance : Q -> Q -> Q -> Q -> Q) (apiKey : string)
            (data : DirectionsData) (route : DirectionsRoute)
            (others : list DirectionsRoute)
            (pickupPoints dropoffPoints : list Point) (startLocation : LatLng)
            (r : OptimizedRoute),
       routes data = route :: others ->
       repair_branch (build_waypoints pickupPoints dropoffPoints) route ->
       optimizeRoute calculateDistance apiKey (HttpResponse true data)
                     pickupPoints dropoffPoints startLocation = Some r ->
       polyline r = "").
Proof.
  intros claim.
  specialize (claim planar_distance "AIzaSy-configured-key"
                (data_ok [2; 0; 1]%nat (Some "abc"))
                (route_of [2; 0; 1]%nat (Some "abc")) []
                scenario_pickups scenario_dropoffs P_pickup).
  edestruct (optimizeRoute planar_distance "AIzaSy-configured-key"
               (directions_ok [2; 0; 1]%nat (Some "abc"))
               scenario_pickups scenario_dropoffs P_pickup) as [r|] eqn:Hrun;
    [|vm_compute in Hrun; discriminate].
  specialize (claim r eq_refl).
  assert (polyline r = "abc") as Hpoly.
  { vm_compute in Hrun. by injection Hrun as <-. }
  rewrite claim in Hpoly; [discriminate| |exact Hrun].
  eexists. split; [vm_compute; reflexivity|]. vm_compute. reflexivity.
Qed.

(** C9, amended.  When [optimizeRoute] takes the repair branch it returns a
    result whose waypoints are the repaired order and whose polyline is the
    overview polyline of the optimizer's route; the polyline is the empty
    string only when the optimizer sent none. *)
Theorem C9_repair_polyline
    (calculateDistance : Q -> Q -> Q -> Q -> Q) (apiKey : string)
    (data : DirectionsData) (route : DirectionsRoute) (others : list DirectionsRoute)
    (pickupPoints dropoffPoints : list Point) (startLocation : LatLng) :
  apiKey <> "" ->
  dropoffPoints <> [] ->
  data_status data = "OK" ->
  routes data = route :: others ->
  repair_branch (build_waypoints pickupPoints dropoffPoints) route ->
  exists r : OptimizedRoute,
    optimizeRoute calculateDistance apiKey (HttpResponse true data)
                  pickupPoints dropoffPoints startLocation = Some r /\
    waypoints r = repaired_waypoints calculateDistance startLocation
                    (build_waypoints pickupPoints dropoffPoints) /\
    polyline r = default "" (overview_polyline route) /\
    (overview_polyline route = None -> polyline r = "").
Proof.
  intros Hkey Hdrop Hstatus Hroutes (m & Hrun & Hadj).
  unfold optimizeRoute.
  rewrite bool_decide_eq_false_2 by done.
  rewrite bool_decide_eq_false_2.
  2:{ unfold build_waypoints. rewrite length_app, !length_map.
      destruct dropoffPoints; [done | simpl; lia]. }
  assert (is_Some (last dropoffPoints)) as [d Hlast].
  { destruct dropoffPoints as [|p l]; [done|].
    rewrite last_cons. destruct (last l); by eexists. }
  rewrite Hlast. simpl. rewrite (bool_decide_eq_true_2 _ Hstatus). simpl.
  rewrite Hroutes, Hrun, Hadj.
  eexists. split; [reflexivity|]. simpl. split; [done|]. split; [done|].
  by intros ->.
Qed.

Lemma C9_repair_polyline_witness :
  exists r : OptimizedRoute,
    optimizeRoute planar_distance "AIzaSy-configured-key"
                  (directions_ok [2; 0; 1]%nat (Some "abc"))
                  scenario_pickups scenario_dropoffs P_pickup = Some r /\
    waypoints r = repaired_waypoints planar_distance P_pickup
                    (build_waypoints scenario_pickups scenario_dropoffs) /\
    polyline r = "abc" /\
    (Some "abc" = None -> polyline r = "").
Proof.
  eapply (C9_repair_polyline planar_distance "AIzaSy-configured-key"
            (data_ok [2; 0; 1]%nat (Some "abc"))
            (route_of [2; 0; 1]%nat (Some "abc")) []
            scenario_pickups scenario_dropoffs P_pickup).
  - discriminate.
  - discriminate.
  - reflexivity.
  - reflexivity.
  - eexists. split; [vm_compute; reflexivity|]. vm_compute. reflexivity.
Defined.

(** ** The table *)

Lemma select_by_id_id (db : Db) (x : Z) (b : Booking) :
  select_by_id db x = Some b -> id b = x.
Proof.
  unfold select_by_id. intros H. apply head_Some_elem_of in H.
  by apply list_elem_of_filter in H as [? _].
Qed.

Lemma select_update (db : Db) (x y : Z) (f : Booking -> Booking) :
  (forall b, id (f b) = id b) ->
  select_by_id (update_by_id db x f) y
  = if decide (y = x) then f <$> select_by_id db y else select_by_id db y.
Proof.
  intros Hid. unfold select_by_id, update_by_id.
  induction db as [|r db IH]; [by case_decide|]. cbn [map].
  destruct (decide (id r = x)) as [Hx|Hx].
  - destruct (decide (id r = y)) as [Hy|Hy].
    + rewrite !filter_cons_True by (rewrite ?Hid; done). simpl.
      by rewrite decide_True by congruence.
    + rewrite !filter_cons_False by (rewrite ?Hid; done). apply IH.
  - destruct (decide (id r = y)) as [Hy|Hy].
    + rewrite !filter_cons_True by done. simpl.
      by rewrite decide_False by congruence.
    + rewrite !filter_cons_False by done. apply IH.
Qed.

Lemma set_sequences_id (p d : Z) (b : Booking) : id (set_sequences p d b) = id b.
Proof. done. Qed.

Lemma set_merge_parent_id (cs : list Z) (t : string) (r : option OptimizedRoute)
    (b : Booking) : id (set_merge_parent cs t r b) = id b.
Proof. done. Qed.

Lemma set_merge_child_id (p : Z) (t : string) (b : Booking) :
  id (set_merge_child p t b) = id b.
Proof. done. Qed.

Lemma select_update_is_Some (db : Db) (x y : Z) (f : Booking -> Booking) :
  (forall b, id (f b) = id b) ->
  is_Some (select_by_id db y) -> is_Some (select_by_id (update_by_id db x f) y).
Proof.
  intros Hid [b Hb]. rewrite select_update, Hb by done.
  case_decide; by eexists.
Qed.

(** ** Preconditions of a merge (C2) *)

Lemma verify_children_Some (db : Db) (childBookingIds : list Z) (thrown : string) :
  verify_children db childBookingIds = Some thrown ->
  (exists c, c ∈ childBookingIds /\ select_by_id db c = None
             /\ thrown = "Child booking with id " +:+ pretty c +:+ " not found")
  \/ (exists c b, c ∈ childBookingIds /\ select_by_id db c = Some b
                  /\ is_merged b = true
                  /\ thrown = "Child booking with id " +:+ pretty c
                                +:+ " is already merged").
Proof.
  induction childBookingIds as [|c rest IH]; simpl; [done|].
  destruct (select_by_id db c) as [b|] eqn:Hc.
  - destruct (is_merged b) eqn:Hm.
    + intros [= <-]. right. exists c, b. repeat split; [left|done..].
    + intros H. destruct (IH H) as [(c' & ? & ?)|(c' & b' & ? & ?)].
      * left. exists c'. split; [by right | done].
      * right. exists c', b'. split; [by right | done].
  - intros [= <-]. left. exists c. repeat split; [left|done].
Qed.

Lemma verify_children_None (db : Db) (childBookingIds : list Z) :
  verify_children db childBookingIds = None ->
  forall c, c ∈ childBookingIds ->
    exists b, select_by_id db c = Some b /\ is_merged b = false.
Proof.
  induction childBookingIds as [|c rest IH]; simpl; intros Hv x Hx.
  - by apply elem_of_nil in Hx.
  - destruct (select_by_id db c) as [b|] eqn:Hc; [|done].
    destruct (is_merged b) eqn:Hm; [done|].
    apply elem_of_cons in Hx as [->|Hx]; [by exists b | by apply IH].
Qed.

(** C2.  A merge whose parent is missing or already merged as a child, or one
    of whose children is, fails: the transaction callback throws before it
    has written anything, the message names the offending booking (the parent
    by its role, a child by its identifier), the reply reports no success,
    and the table after the call is the table before it. *)
Theorem C2_failed_merge_changes_nothing
    (calculateDistance : Q -> Q -> Q -> Q -> Q) (apiKey : string)
    (response : FetchResult) (tripId : string)
    (parentBookingId : Z) (childBookingIds : list Z) (db : Db) :
  missing_or_merged db parentBookingId
  \/ (exists c, c ∈ childBookingIds /\ missing_or_merged db c) ->
  exists thrown : string,
    merge_callback calculateDistance apiKey response tripId
                   parentBookingId childBookingIds db = Throws thrown db
    /\ db_transaction
         (merge_callback calculateDistance apiKey response tripId
                         parentBookingId childBookingIds) db = (inl thrown, db)
    /\ names_offender db parentBookingId childBookingIds thrown
    /\ (merge calculateDistance apiKey response tripId
              parentBookingId childBookingIds db).2 = db
    /\ success (merge calculateDistance apiKey response tripId
                      parentBookingId childBookingIds db).1 = false
    /\ (parentBookingId <> 0 -> childBookingIds <> [] ->
        (merge calculateDistance apiKey response tripId
               parentBookingId childBookingIds db).1
        = mkHttpReply 500 false thrown None).
Proof.
  intros Hbad.
  assert (exists thrown,
    merge_callback calculateDistance apiKey response tripId
                   parentBookingId childBookingIds db = Throws thrown db
    /\ names_offender db parentBookingId childBookingIds thrown)
    as (thrown & Hthrow & Hname).
  { unfold merge_callback, names_offender.
    destruct (select_by_id db parentBookingId) as [p|] eqn:Hp.
    2:{ eexists. split; [done|]. by left. }
    destruct (is_merged p) eqn:Hm.
    { eexists. split; [done|]. right; left. split; [by exists p | done]. }
    destruct (verify_children db childBookingIds) as [msg|] eqn:Hv.
    { exists msg. split; [done|]. right; right.
      by apply verify_children_Some. }
    exfalso. destruct Hbad as [[Hnone|(b & Hb & Hbm)]|(c & Hc & Hcbad)].
    - congruence.
    - congruence.
    - destruct (verify_children_None _ _ Hv c Hc) as (b & Hb & Hbm).
      destruct Hcbad as [Hnone|(b' & Hb' & Hbm')]; congruence. }
  exists thrown. split; [done|]. split; [|split; [done|]].
  { unfold db_transaction. by rewrite Hthrow. }
  unfold merge, db_transaction. rewrite Hthrow.
  destruct ((parentBookingId =? 0) || bool_decide (length childBookingIds = 0%nat))
    eqn:Hvalid; simpl.
  - split; [done|]. split; [done|]. intros Hp Hc. exfalso.
    apply orb_true_iff in Hvalid as [Hz|Hl].
    + apply Z.eqb_eq in Hz. done.
    + apply bool_decide_eq_true in Hl. by destruct childBookingIds.
  - done.
Qed.

Lemma C2_failed_merge_changes_nothing_witness :
  exists thrown : string,
    merge_callback planar_distance "AIzaSy-configured-key" FetchThrows
                   "TRIP_20240101_000001" 1 [2; 7] scenario_db
      = Throws thrown scenario_db
    /\ db_transaction
         (merge_callback planar_distance "AIzaSy-configured-key" FetchThrows
                         "TRIP_20240101_000001" 1 [2; 7]) scenario_db
       = (inl thrown, scenario_db)
    /\ names_offender scenario_db 1 [2; 7] thrown
    /\ (merge planar_distance "AIzaSy-configured-key" FetchThrows
              "TRIP_20240101_000001" 1 [2; 7] scenario_db).2 = scenario_db
    /\ success (merge planar_distance "AIzaSy-configured-key" FetchThrows
                      "TRIP_20240101_000001" 1 [2; 7] scenario_db).1 = false
    /\ (1 <> 0 -> [2; 7] <> [] ->
        (merge planar_distance "AIzaSy-configured-key" FetchThrows
               "TRIP_20240101_000001" 1 [2; 7] scenario_db).1
        = mkHttpReply 500 false thrown None).
Proof.
  apply (C2_failed_merge_changes_nothing planar_distance "AIzaSy-configured-key"
           FetchThrows "TRIP_20240101_000001" 1 [2; 7] scenario_db).
  right. exists 7. split.
  - apply (bool_decide_unpack _). vm_compute. exact I.
  - left. reflexivity.
Defined.

(** ** The fallback numbering (C4) *)

Lemma fallback_sequences_other (len : nat) (ids : list Z) :
  forall (i : nat) (db : Db) (y : Z),
    y ∉ ids ->
    select_by_id (fallback_sequences len ids i db) y = select_by_id db y.
Proof.
  induction ids as [|x rest IH]; intros i db y Hy; simpl; [done|].
  apply not_elem_of_cons in Hy as [Hyx Hy].
  rewrite IH by done. rewrite select_update by apply set_sequences_id.
  by rewrite decide_False by done.
Qed.

Lemma fallback_sequences_select (len : nat) (ids : list Z) :
  forall (i : nat) (db : Db) (j : nat) (bid : Z),
    NoDup ids -> ids !! j = Some bid ->
    select_by_id (fallback_sequences len ids i db) bid
    = set_sequences (Z.of_nat (i + j))
                    (Z.of_nat len * 2 - Z.of_nat (i + j) - 1)
        <$> select_by_id db bid.
Proof.
  induction ids as [|x rest IH]; intros i db j bid Hnd Hj; [done|].
  apply NoDup_cons in Hnd as [Hx Hnd]. simpl.
  destruct j as [|j]; simpl in Hj.
  - simplify_eq. rewrite fallback_sequences_other by done.
    rewrite select_update by apply set_sequences_id.
    rewrite decide_True by done. by rewrite Nat.add_0_r.
  - rewrite (IH (S i) _ j bid Hnd Hj).
    rewrite select_update by apply set_sequences_id.
    assert (bid <> x) as Hne.
    { intros ->. apply Hx. by eapply list_elem_of_lookup_2. }
    rewrite decide_False by done.
    by replace (S i + j)%nat with (i + S j)%nat by lia.
Qed.

Lemma merge_children_is_Some (parentBookingId : Z) (tripId : string)
    (childBookingIds : list Z) :
  forall (db : Db) (y : Z),
    is_Some (select_by_id db y) ->
    is_Some (select_by_id
               (foldl (fun d childId =>
                         update_by_id d childId
                           (set_merge_child parentBookingId tripId))
                      db childBookingIds) y).
Proof.
  induction childBookingIds as [|c rest IH]; intros db y Hy; simpl; [done|].
  apply IH. by apply select_update_is_Some.
Qed.

Lemma merge_callback_Returns
    (calculateDistance : Q -> Q -> Q -> Q -> Q) (apiKey : string)
    (response : FetchResult) (tripId : string)
    (parentBookingId : Z) (childBookingIds : list Z) (db db' : Db)
    (result : MergeResult) :
  merge_callback calculateDistance apiKey response tripId
                 parentBookingId childBookingIds db = Returns result db' ->
  (exists p, select_by_id db parentBookingId = Some p /\ is_merged p = false)
  /\ verify_children db childBookingIds = None
  /\ db' = merge_writes parentBookingId childBookingIds tripId
             (ts_route (mr_trip result)) db.
Proof.
  unfold merge_callback.
  destruct (select_by_id db parentBookingId) as [p|]; [|done].
  destruct (is_merged p) eqn:Hm; [done|].
  destruct (verify_children db childBookingIds); [done|].
  destruct (mapM (select_by_id db) childBookingIds); [|done].
  intros [= <- <-]. simpl. split; [by exists p|]. done.
Qed.

Lemma merge_success
    (calculateDistance : Q -> Q -> Q -> Q -> Q) (apiKey : string)
    (response : FetchResult) (tripId : string)
    (parentBookingId : Z) (childBookingIds : list Z) (db db' : Db)
    (reply : HttpReply MergeResult) (result : MergeResult) :
  merge calculateDistance apiKey response tripId
        parentBookingId childBookingIds db = (reply, db') ->
  data reply = Some result ->
  merge_callback calculateDistance apiKey response tripId
                 parentBookingId childBookingIds db = Returns result db'.
Proof.
  unfold merge, db_transaction.
  destruct (_ || _); [by intros [= <- <-]|].
  destruct (merge_callback _ _ _ _ _ _ _) as [res d|msg d].
  - intros [= <- <-]. simpl. by intros [= ->].
  - by intros [= <- <-].
Qed.

(** C4.  When [optimizeRoute] returns null in a merge of [N] distinct
    requests (the parent, then the children), the request at position [i]
    ends with [pickup_sequence = i] and [dropoff_sequence = 2 N - i - 1], and
    [i < 2 N - i - 1]. *)
Theorem C4_fallback_numbering
    (calculateDistance : Q -> Q -> Q -> Q -> Q) (apiKey : string)
    (response : FetchResult) (tripId : string)
    (parentBookingId : Z) (childBookingIds : list Z) (db db' : Db)
    (reply : HttpReply MergeResult) (result : MergeResult) :
  let allBookingIds := parentBookingId :: childBookingIds in
  let memberCount := Z.of_nat (length allBookingIds) in
  merge calculateDistance apiKey response tripId
        parentBookingId childBookingIds db = (reply, db') ->
  data reply = Some result ->
  ts_route (mr_trip result) = None ->
  NoDup allBookingIds ->
  forall (i : nat) (bid : Z),
    allBookingIds !! i = Some bid ->
    exists b : Booking,
      select_by_id db' bid = Some b
      /\ pickup_sequence b = Some (Z.of_nat i)
      /\ dropoff_sequence b = Some (2 * memberCount - Z.of_nat i - 1)
      /\ Z.of_nat i < 2 * memberCount - Z.of_nat i - 1.
Proof.
  intros allBookingIds memberCount Hmerge Hdata Hnull Hnd i bid Hi.
  pose proof (merge_success _ _ _ _ _ _ _ _ _ _ Hmerge Hdata) as Hcb.
  apply merge_callback_Returns in Hcb as ((p & Hp & _) & Hv & ->).
  rewrite Hnull. unfold merge_writes.
  rewrite (fallback_sequences_select _ _ 0 _ i bid Hnd Hi).
  assert (is_Some (select_by_id db bid)) as Hbid.
  { destruct i as [|i]; simpl in Hi.
    - simplify_eq. by eexists.
    - destruct (verify_children_None _ _ Hv bid) as (b & -> & _); [|by eexists].
      by eapply list_elem_of_lookup_2. }
  destruct (merge_children_is_Some parentBookingId tripId childBookingIds
              (update_by_id db parentBookingId
                 (set_merge_parent childBookingIds tripId None)) bid) as [b Hb].
  { by apply select_update_is_Some. }
  rewrite Hb. simpl. eexists. split; [reflexivity|]. simpl.
  apply lookup_lt_Some in Hi. fold allBookingIds in Hi |- *.
  subst memberCount allBookingIds. cbn [length] in *.
  split; [done|]. split; [f_equal; lia | lia].
Qed.

Lemma C4_fallback_numbering_witness :
  exists b : Booking,
    select_by_id
      (merge planar_distance "AIzaSy-configured-key" FetchThrows
             "TRIP_20240101_000001" 1 [2] scenario_db).2 2 = Some b
    /\ pickup_sequence b = Some 1
    /\ dropoff_sequence b = Some 2
    /\ 1 < 2.
Proof.
  destruct (data (merge planar_distance "AIzaSy-configured-key" FetchThrows
                        "TRIP_20240101_000001" 1 [2] scenario_db).1)
    as [result|] eqn:Hdata; [|vm_compute in Hdata; discriminate].
  apply (C4_fallback_numbering planar_distance "AIzaSy-configured-key"
           FetchThrows "TRIP_20240101_000001" 1 [2] scenario_db _ _ result
           (surjective_pairing _) Hdata) with (i := 1%nat).
  - vm_compute in Hdata. injection Hdata as <-. reflexivity.
  - apply (bool_decide_unpack _). vm_compute. exact I.
  - reflexivity.
Defined.

(** ** Sequence numbers after an accepted order (C1) *)

(** When the optimizer's order is accepted, the returned waypoints are the
    waypoints at the indices of that order and nothing else.  The request to
    the optimizer leaves the last waypoint out (it is the destination), so an
    accepted order of the [2 N - 1] other waypoints gives fewer than the
    [2 N] stops of a trip of [N] members. *)
Lemma accepted_order_waypoints
    (calculateDistance : Q -> Q -> Q -> Q -> Q) (apiKey : string) (ok : bool)
    (data : DirectionsData) (route : DirectionsRoute) (others : list DirectionsRoute)
    (pickupPoints dropoffPoints : list Point) (startLocation : LatLng)
    (r : OptimizedRoute) :
  let wps := build_waypoints pickupPoints dropoffPoints in
  let order := default [] (waypoint_order route) in
  routes data = route :: others ->
  optimizeRoute calculateDistance apiKey (HttpResponse ok data)
                pickupPoints dropoffPoints startLocation = Some r ->
  ~ repair_branch wps route ->
  waypoints r = omap (fun idx => wps !! idx) order
  /\ waypointOrder r = order
  /\ (length (waypoints r) <= length order)%nat.
Proof.
  intros wps order Hroutes Hrun Hnot. unfold optimizeRoute in Hrun.
  fold wps in Hrun.
  destruct (bool_decide (apiKey = "")); [done|].
  destruct (bool_decide (length wps < 1)%nat); [done|].
  destruct (last dropoffPoints); [|done].
  destruct ok; [|done]. simpl in Hrun.
  destruct (bool_decide (data_status data = "OK")); [|done]. simpl in Hrun.
  rewrite Hroutes in Hrun. fold order in Hrun.
  destruct (apply_order wps order 0 (init_sequenceMap wps)) as [m|] eqn:Hm; [|done].
  destruct (requiresAdjustment m) eqn:Hadj.
  - exfalso. apply Hnot. by exists m.
  - injection Hrun as <-. simpl. split; [done|]. split; [done|].
    generalize order. intros l.
    induction l as [|i l IH]; [done|].
    change (omap (fun idx => wps !! idx) (i :: l))
      with (match wps !! i with
            | Some w => w :: omap (fun idx => wps !! idx) l
            | None => omap (fun idx => wps !! idx) l
            end).
    destruct (wps !! i); simpl; lia.
Qed.

(** C1 fails on the accepted path.  For the merge of [P] (id 1) and [C]
    (id 2) the waypoints are pickup 1, pickup 2, dropoff 1, dropoff 2; the
    last one is the destination of the request, so the optimizer orders the
    other three.  Its order [0; 1; 2] shows no dropoff before a pickup and is
    accepted; the dropoff of [C] is not in the accepted list, and [C] is left
    with [pickup_sequence = 1] and [dropoff_sequence = -1]. *)
Theorem C1_accepted_order_drops_last_dropoff :
  let run :=
    merge planar_distance "AIzaSy-configured-key"
          (directions_ok [0; 1; 2]%nat (Some "abc"))
          "TRIP_20240101_000001" 1 [2] scenario_db in
  success run.1 = true
  /\ (waypointOrder <$> (select_by_id run.2 1 ≫= optimized_route))
     = Some [0; 1; 2]%nat
  /\ (pickup_sequence <$> select_by_id run.2 2) = Some (Some 1)
  /\ (dropoff_sequence <$> select_by_id run.2 2) = Some (Some (-1))
  /\ ~ (1 < -1).
Proof.
  vm_compute. repeat split; try reflexivity. intros H. discriminate H.
Qed.

(** ** Unmerging (C5) *)

Lemma select_update_column {C : Type} (col : Booking -> C) (db : Db) (y x : Z)
    (f : Booking -> Booking) :
  (forall b, id (f b) = id b) -> (forall b, col (f b) = col b) ->
  col <$> select_by_id (update_by_id db y f) x = col <$> select_by_id db x.
Proof.
  intros Hid Hcol. rewrite select_update by done.
  case_decide; [|done]. destruct (select_by_id db x); simpl; [|done].
  by rewrite Hcol.
Qed.

(** The decimal string of a number is never empty, so the count that the
    driver returns is truthy and is a string: it is not strictly equal to the
    number 0, whatever the rows counted. *)
Lemma pretty_N_go_nonempty (x : N) (s : string) :
  s <> "" -> pretty_N_go x s <> "".
Proof.
  revert s. induction (N.lt_wf_0 x) as [x _ IH]; intros s Hs.
  destruct (decide (x = 0%N)) as [->|Hx]; [by rewrite pretty_N_go_0|].
  rewrite pretty_N_go_step by lia. apply IH; [|done].
  apply N.div_lt; lia.
Qed.

Lemma pretty_Z_nonempty (x : Z) : pretty x <> "".
Proof.
  assert (forall p : positive, pretty p <> "") as Hpos.
  { intros p. unfold pretty, pretty_positive, pretty, pretty_N.
    rewrite decide_False by done. rewrite pretty_N_go_step by lia.
    by apply pretty_N_go_nonempty. }
  destruct x as [|p|p]; [done|apply Hpos|].
  unfold pretty, pretty_Z. done.
Qed.

Lemma count_is_never_zero (rows : list Booking) :
  strict_equal (js_or (sql_count rows) (JsNumber 0)) (JsNumber 0) = false.
Proof.
  unfold sql_count, js_or.
  rewrite bool_decide_eq_false_2 by apply pretty_Z_nonempty. done.
Qed.

Section UnmergeColumns.
Variable id_fits : Z -> bool.
Variable failedQuery : Z -> string.

(** X13.  Whatever the request, the unmerge handler changes none of the
    columns [has_merged_trips], [optimized_route] and [merged_with_booking_id]
    of any row: the aggregate flag and the route that a merge has put on the
    parent stay, and so does the parent reference that it has put on the
    child. *)
Lemma unmerge_keeps_merge_columns (bookingId : option Z) (user : option string)
    (db : Db) (x : Z) :
  has_merged_trips
    <$> select_by_id (unmerge id_fits failedQuery bookingId user db).2 x
  = has_merged_trips <$> select_by_id db x
  /\ optimized_route
       <$> select_by_id (unmerge id_fits failedQuery bookingId user db).2 x
     = optimized_route <$> select_by_id db x
  /\ merged_with_booking_id
       <$> select_by_id (unmerge id_fits failedQuery bookingId user db).2 x
     = merged_with_booking_id <$> select_by_id db x.
Proof.
  unfold unmerge, db_transaction.
  destruct bookingId as [bid|]; [|done].
  destruct (select_by_id db bid) as [b|]; [|by destruct (id_fits bid)].
  destruct (negb (is_merged b) || negb (truthy (parent_booking_id b))); [done|].
  rewrite count_is_never_zero. cbn [snd].
  rewrite ?(select_update_column has_merged_trips),
          ?(select_update_column optimized_route),
          ?(select_update_column merged_with_booking_id); done.
Qed.
End UnmergeColumns.

Lemma merge_writes_parent_booking_id (parentBookingId : Z) (childBookingIds : list Z)
    (tripId : string) (optimizedRoute : option OptimizedRoute) (db : Db) (x : Z) :
  parent_booking_id
    <$> select_by_id
          (merge_writes parentBookingId childBookingIds tripId optimizedRoute db) x
  = parent_booking_id <$> select_by_id db x.
Proof.
  unfold merge_writes.
  assert (forall l d,
    parent_booking_id
      <$> select_by_id
            (foldl (fun d childId =>
                      update_by_id d childId
                        (set_merge_child parentBookingId tripId)) d l) x
    = parent_booking_id <$> select_by_id d x) as Hchildren.
  { induction l as [|c l IH]; intros d; simpl; [done|].
    rewrite IH. by apply select_update_column. }
  assert (forall l d,
    parent_booking_id <$> select_by_id (write_sequences d l) x
    = parent_booking_id <$> select_by_id d x) as Hwrite.
  { unfold write_sequences. induction l as [|e l IH]; intros d; simpl; [done|].
    rewrite IH. by apply select_update_column. }
  assert (forall len l i d,
    parent_booking_id <$> select_by_id (fallback_sequences len l i d) x
    = parent_booking_id <$> select_by_id d x) as Hfallback.
  { intros len. induction l as [|c l IH]; intros i d; simpl; [done|].
    rewrite IH. by apply select_update_column. }
  destruct optimizedRoute as [route|].
  - rewrite Hwrite, Hchildren. by apply select_update_column.
  - rewrite Hfallback, Hchildren. by apply select_update_column.
Qed.

(** X14.  A request that had no [parent_booking_id] before it was merged as a
    child by the merge handler cannot be unmerged: the unmerge handler answers
    400 and changes nothing. *)
Lemma unmerge_after_merge_refused
    (id_fits : Z -> bool) (failedQuery : Z -> string)
    (calculateDistance : Q -> Q -> Q -> Q -> Q) (apiKey : string)
    (response : FetchResult) (tripId : string)
    (parentBookingId : Z) (childBookingIds : list Z) (db db' : Db)
    (reply : HttpReply MergeResult) (result : MergeResult)
    (c : Z) (user : option string) :
  merge calculateDistance apiKey response tripId
        parentBookingId childBookingIds db = (reply, db') ->
  data reply = Some result ->
  c ∈ childBookingIds ->
  (forall b, select_by_id db c = Some b -> parent_booking_id b = None) ->
  unmerge id_fits failedQuery (Some c) user db'
  = (mkHttpReply 400 false
       ("Booking with ID " +:+ pretty c +:+ " is not part of a merged trip") None,
     db').
Proof.
  intros Hmerge Hdata Hc Hnone.
  pose proof (merge_success _ _ _ _ _ _ _ _ _ _ Hmerge Hdata) as Hcb.
  apply merge_callback_Returns in Hcb as (_ & Hv & ->).
  destruct (verify_children_None _ _ Hv c Hc) as (b & Hb & _).
  pose proof (merge_writes_parent_booking_id parentBookingId childBookingIds
                tripId (ts_route (mr_trip result)) db c) as Hcol.
  rewrite Hb in Hcol. simpl in Hcol. rewrite (Hnone b Hb) in Hcol.
  unfold unmerge.
  destruct (select_by_id (merge_writes _ _ _ _ db) c) as [b'|]; [|done].
  simpl in Hcol. injection Hcol as Hcol. rewrite Hcol. simpl.
  by rewrite orb_true_r.
Qed.

Lemma unmerge_after_merge_refused_witness :
  unmerge scenario_id_fits scenario_failedQuery (Some 2) None merged_db
  = (mkHttpReply 400 false
       ("Booking with ID " +:+ pretty 2 +:+ " is not part of a merged trip") None,
     merged_db).
Proof.
  destruct (data (merge planar_distance "AIzaSy-configured-key"
                        (directions_ok [2; 0; 1]%nat (Some "abc"))
                        "TRIP_20240101_000001" 1 [2] scenario_db).1)
    as [result|] eqn:Hdata; [|vm_compute in Hdata; discriminate].
  apply (unmerge_after_merge_refused scenario_id_fits scenario_failedQuery
           planar_distance "AIzaSy-configured-key"
           (directions_ok [2; 0; 1]%nat (Some "abc"))
           "TRIP_20240101_000001" 1 [2] scenario_db merged_db _ result 2 None
           (surjective_pairing _) Hdata).
  - left.
  - intros b Hb. vm_compute in Hb. injection Hb as <-. reflexivity.
Defined.

(** What the unmerge handler does do to the request it takes out of a trip:
    the merge flag, the parent reference it reads ([parent_booking_id]) and
    the trip id are cleared, and the status goes back to ["approved"] only
    from ["assigned"]. *)
Lemma unmerge_resets_child (id_fits : Z -> bool) (failedQuery : Z -> string)
    (bookingId : Z) (user : option string) (db : Db) (b : Booking) :
  select_by_id db bookingId = Some b ->
  is_merged b = true ->
  truthy (parent_booking_id b) = true ->
  success (unmerge id_fits failedQuery (Some bookingId) user db).1 = true
  /\ exists b' : Booking,
       select_by_id (unmerge id_fits failedQuery (Some bookingId) user db).2
                    bookingId = Some b'
       /\ is_merged b' = false
       /\ parent_booking_id b' = None
       /\ trip_id b' = None
       /\ status b'
          = (if bool_decide (status b = "assigned") then "approved" else status b).
Proof.
  intros Hsel Hmerged Hparent. unfold unmerge, db_transaction.
  rewrite Hsel, Hmerged, Hparent. cbn [negb orb].
  rewrite count_is_never_zero. cbn [fst snd success]. split; [done|].
  rewrite !select_update by done. rewrite Hsel.
  rewrite decide_True by done.
  eexists; (split; [reflexivity|]); done.
Qed.

(** A request is unmerged only when its row is flagged as merged and refers
    to a parent. *)
Lemma unmerge_success (id_fits : Z -> bool) (failedQuery : Z -> string)
    (bookingId : option Z) (user : option string) (db : Db) :
  success (unmerge id_fits failedQuery bookingId user db).1 = true ->
  exists (x : Z) (b : Booking),
    bookingId = Some x /\ select_by_id db x = Some b
    /\ is_merged b = true /\ truthy (parent_booking_id b) = true.
Proof.
  unfold unmerge, db_transaction.
  destruct bookingId as [x|]; [|done].
  destruct (select_by_id db x) as [b|] eqn:Hb; [|by destruct (id_fits x)].
  destruct (is_merged b) eqn:Hm; [|done].
  destruct (truthy (parent_booking_id b)) eqn:Ht; [|done].
  intros _. by exists x, b.
Qed.

(** C5 fails on the code.  (1) A child merged by [merge] has no
    [parent_booking_id] (the merge writes [merged_with_booking_id]), so
    unmerging it is refused and nothing changes.  (2) When the column is
    filled in and the last child is unmerged, the child is taken out of the
    trip, and no booking flagged as merged refers to the parent any more; but
    the parent's row is left as it was, with its trip id,
    [has_merged_trips = true] and its [optimized_route].  The handler compares
    the count of the remaining children, which the driver returns as a
    string, with the number 0, so its cleanup of the parent never runs (and
    that cleanup would clear [is_parent_booking] and [route_polyline], not
    the aggregate flag and the route). *)
Theorem C5_unmerge_keeps_parent_aggregate
    (id_fits : Z -> bool) (failedQuery : Z -> string) :
  unmerge id_fits failedQuery (Some 2) None merged_db
  = (mkHttpReply 400 false "Booking with ID 2 is not part of a merged trip" None,
     merged_db)
  /\ (let run := unmerge id_fits failedQuery (Some 2) None linked_db in
      success run.1 = true
      /\ (is_merged <$> select_by_id run.2 2) = Some false
      /\ (parent_booking_id <$> select_by_id run.2 2) = Some None
      /\ (trip_id <$> select_by_id run.2 2) = Some None
      /\ (merged_with_booking_id <$> select_by_id run.2 2) = Some (Some 1)
      /\ filter (fun b => parent_booking_id b = Some 1 /\ is_merged b = true) run.2
         = []
      /\ select_by_id run.2 1 = select_by_id linked_db 1
      /\ (trip_id <$> select_by_id run.2 1) = Some (Some "TRIP_20240101_000001")
      /\ (has_merged_trips <$> select_by_id run.2 1) = Some true
      /\ (select_by_id run.2 1 ≫= optimized_route) <> None
      /\ (is_parent_booking <$> select_by_id run.2 1)
         = (is_parent_booking <$> select_by_id linked_db 1)).
Proof.
  split; [vm_compute; reflexivity|].
  vm_compute. repeat split; try reflexivity. discriminate.
Qed.

(** ** Computations of the service *)

Lemma same_config_refl (w : World) : same_config w w.
Proof. by split. Qed.

Lemma same_config_sym (w1 w2 : World) : same_config w1 w2 -> same_config w2 w1.
Proof. intros [Hn Hb]. split; intros key; by rewrite ?Hn, ?Hb. Qed.

Lemma same_config_trans (w1 w2 w3 : World) :
  same_config w1 w2 -> same_config w2 w3 -> same_config w1 w3.
Proof.
  intros [Hn Hb] [Hn' Hb']. split; intros key; by rewrite ?Hn, ?Hb, ?Hn', ?Hb'.
Qed.

Lemma M_bind_unfold {A B : Type} (m : M A) (k : A -> M B) (w : World) :
  (m ≫= k) w = match m w with
               | (Some a, w') => k a w'
               | (None, w') => (None, w')
               end.
Proof. done. Qed.

Lemma reads_config_ret {A : Type} (a : A) : reads_config (mret a : M A).
Proof. split; [intros w; apply same_config_refl | done]. Qed.

Lemma reads_config_throw {A : Type} : reads_config (throw : M A).
Proof. split; [intros w; apply same_config_refl | done]. Qed.

Lemma reads_config_enter (c : Checkpoint) : reads_config (enter c).
Proof. split; [intros w; by split | done]. Qed.

Lemma getConfigNumber_run (key : NumberKey) (w : World) :
  (getConfigNumber key w).1 = Some (effective_number w key)
  /\ same_config w (getConfigNumber key w).2
  /\ entered (getConfigNumber key w).2 = entered w.
Proof.
  unfold getConfigNumber, effective_number.
  destruct (config_numbers w !! key) as [v|] eqn:Hk; simpl.
  - split; [done|]. split; [apply same_config_refl | done].
  - split; [done|]. split; [|done]. split; [|done].
    intros key'. unfold effective_number. simpl.
    destruct (decide (key = key')) as [<-|Hne].
    + by rewrite lookup_insert_eq, Hk.
    + by rewrite lookup_insert_ne.
Qed.

Lemma getConfigBoolean_run (key : BooleanKey) (w : World) :
  (getConfigBoolean key w).1 = Some (effective_boolean w key)
  /\ same_config w (getConfigBoolean key w).2
  /\ entered (getConfigBoolean key w).2 = entered w.
Proof.
  unfold getConfigBoolean, effective_boolean.
  destruct (config_booleans w !! key) as [v|] eqn:Hk; simpl.
  - split; [done|]. split; [apply same_config_refl | done].
  - split; [done|]. split; [|done]. split; [done|].
    intros key'. unfold effective_boolean. simpl.
    destruct (decide (key = key')) as [<-|Hne].
    + by rewrite lookup_insert_eq, Hk.
    + by rewrite lookup_insert_ne.
Qed.

Lemma reads_config_getConfigNumber (key : NumberKey) :
  reads_config (getConfigNumber key).
Proof.
  split.
  - intros w. apply getConfigNumber_run.
  - intros w1 w2 [Hn _].
    destruct (getConfigNumber_run key w1) as [-> _].
    destruct (getConfigNumber_run key w2) as [-> _]. by rewrite Hn.
Qed.

Lemma reads_config_getConfigBoolean (key : BooleanKey) :
  reads_config (getConfigBoolean key).
Proof.
  split.
  - intros w. apply getConfigBoolean_run.
  - intros w1 w2 [_ Hb].
    destruct (getConfigBoolean_run key w1) as [-> _].
    destruct (getConfigBoolean_run key w2) as [-> _]. by rewrite Hb.
Qed.

Lemma reads_config_bind {A B : Type} (m : M A) (k : A -> M B) :
  reads_config m -> (forall a, reads_config (k a)) -> reads_config (m ≫= k).
Proof.
  intros [Hkeep Hdet] Hk. split.
  - intros w. rewrite M_bind_unfold. specialize (Hkeep w).
    destruct (m w) as [[a|] w']; [|done].
    eapply same_config_trans; [exact Hkeep|]. apply (Hk a).
  - intros w1 w2 H12. rewrite !M_bind_unfold.
    pose proof (Hdet w1 w2 H12) as Hres.
    pose proof (Hkeep w1) as H1. pose proof (Hkeep w2) as H2.
    destruct (m w1) as [r1 w1'], (m w2) as [r2 w2']. simpl in *. subst r2.
    destruct r1 as [a|]; [|done].
    apply (Hk a). eapply same_config_trans; [apply same_config_sym, H1|].
    exact (same_config_trans _ _ _ H12 H2).
Qed.

Lemma reads_config_first_of {A : Type} (l : list A) : reads_config (first_of l).
Proof. destruct l; [apply reads_config_throw | apply reads_config_ret]. Qed.

Lemma silent_ret {A : Type} (a : A) : silent (mret a : M A).
Proof. done. Qed.

Lemma silent_throw {A : Type} : silent (throw : M A).
Proof. done. Qed.

Lemma silent_getConfigNumber (key : NumberKey) : silent (getConfigNumber key).
Proof. intros w. apply getConfigNumber_run. Qed.

Lemma silent_getConfigBoolean (key : BooleanKey) : silent (getConfigBoolean key).
Proof. intros w. apply getConfigBoolean_run. Qed.

Lemma silent_first_of {A : Type} (l : list A) : silent (first_of l).
Proof. by destruct l. Qed.

Lemma silent_bind {A B : Type} (m : M A) (k : A -> M B) :
  silent m -> (forall a, silent (k a)) -> silent (m ≫= k).
Proof.
  intros Hm Hk w. rewrite M_bind_unfold. specialize (Hm w).
  destruct (m w) as [[a|] w']; [|done]. simpl in Hm. by rewrite Hk.
Qed.

Lemma enters_enter_bind {B : Type} (c : Checkpoint) (k : unit -> M B) :
  (forall u, silent (k u)) -> enters c (enter c ≫= k).
Proof. intros Hk w. rewrite M_bind_unfold. simpl. by rewrite Hk. Qed.

(** Discharges [reads_config] and [silent] goals along the structure of a
    computation. *)
Ltac config_step :=
  first
    [ apply reads_config_ret | apply reads_config_throw | apply reads_config_enter
    | apply reads_config_getConfigNumber | apply reads_config_getConfigBoolean
    | apply reads_config_first_of
    | apply silent_ret | apply silent_throw
    | apply silent_getConfigNumber | apply silent_getConfigBoolean
    | apply silent_first_of
    | apply reads_config_bind; [|intros ?]
    | apply silent_bind; [|intros ?]
    | match goal with
      | |- context [if ?b then _ else _] => destruct b
      | |- context [match ?o with Some _ => _ | None => _ end] => destruct o
      end ].

Ltac config_solve := repeat config_step.

(** Refutes a membership [H : c ∈ l] in an explicit list without [c]. *)
Ltac not_in_list H :=
  simpl in H;
  repeat (apply elem_of_cons in H as [H|H]; [discriminate H|]);
  by apply elem_of_nil in H.

(** ** The compatibility tests *)

Section EligibilityFacts.
Variable calculateDistance : Q -> Q -> Q -> Q -> Q.
Variable getVehicle : Z -> option Vehicle.

Lemma run_check_reads_config (booking candidate : Booking) (c : Checkpoint) :
  reads_config (run_check calculateDistance getVehicle booking candidate c).
Proof.
  destruct c;
    unfold run_check, isPickupNearby, isDropoffNearby, isTimeCompatible,
      isBookingTypeCompatible, isPriorityMatchSafe, isVehicleCompatible,
      isRouteDeviationAllowed, isPickupGapAcceptable, isDurationWithinLimit,
      isZoneAllowed;
    config_solve.
Qed.

Lemma run_check_enters (booking candidate : Booking) (c : Checkpoint) :
  c ∈ service_order getVehicle candidate ->
  enters c (run_check calculateDistance getVehicle booking candidate c).
Proof.
  unfold service_order. intros Hc.
  destruct c;
    unfold run_check, isPickupNearby, isDropoffNearby, isTimeCompatible,
      isBookingTypeCompatible, isPriorityMatchSafe, isVehicleCompatible,
      isRouteDeviationAllowed, isPickupGapAcceptable, isDurationWithinLimit,
      isZoneAllowed;
    try (apply enters_enter_bind; intros ?; config_solve).
  - exfalso. destruct (candidate_vehicle getVehicle candidate); not_in_list Hc.
  - destruct (candidate_vehicle getVehicle candidate) as [v|].
    + apply enters_enter_bind; intros ?; config_solve.
    + exfalso. not_in_list Hc.
  - exfalso. destruct (candidate_vehicle getVehicle candidate); not_in_list Hc.
Qed.

Lemma check_candidate_run_checks (booking candidate : Booking) (w : World) :
  check_candidate calculateDistance getVehicle booking candidate w
  = run_checks calculateDistance getVehicle booking candidate
               (service_order getVehicle candidate) w.
Proof.
  unfold check_candidate, service_order.
  change (match vehicle_id candidate with
          | Some vid => if vid =? 0 then None else getVehicle vid
          | None => None
          end) with (candidate_vehicle getVehicle candidate).
  destruct (candidate_vehicle getVehicle candidate) as [v|] eqn:Hv;
    cbn [run_checks app run_check]; rewrite ?Hv;
    rewrite !M_bind_unfold; cbn [enter fst snd];
    destruct (bool_decide (id booking = id candidate)); reflexivity.
Qed.
End EligibilityFacts.

Section EligibilityOrder.
Variable calculateDistance : Q -> Q -> Q -> Q -> Q.
Variable getVehicle : Z -> option Vehicle.

Lemma passes_same_config (booking candidate : Booking) (w1 w2 : World)
    (c : Checkpoint) :
  same_config w1 w2 ->
  passes calculateDistance getVehicle booking candidate w1 c
  = passes calculateDistance getVehicle booking candidate w2 c.
Proof.
  intros H. unfold passes.
  destruct (run_check_reads_config calculateDistance getVehicle booking candidate c)
    as [_ Hdet].
  by rewrite (Hdet w1 w2 H).
Qed.

Lemma run_checks_spec (booking candidate : Booking) (order : list Checkpoint) :
  (forall c, c ∈ order ->
     enters c (run_check calculateDistance getVehicle booking candidate c)) ->
  forall w0 w : World,
    same_config w0 w ->
    let res := run_checks calculateDistance getVehicle booking candidate order w in
    let ok := passes calculateDistance getVehicle booking candidate w0 in
    entered res.2 = entered w ++ run_until_failure ok order
    /\ same_config w0 res.2
    /\ (res.1 = Some true <-> forallb ok order = true).
Proof.
  induction order as [|c rest IH]; intros Henters w0 w Hsame; simpl.
  - by rewrite app_nil_r.
  - rewrite M_bind_unfold.
    destruct (run_check_reads_config calculateDistance getVehicle booking candidate c)
      as [Hkeep Hdet].
    pose proof (Henters c (list_elem_of_here _ _) w) as Htrace.
    pose proof (Hkeep w) as Hkept.
    pose proof (Hdet w0 w Hsame) as Hres.
    unfold passes at 1 3. rewrite Hres.
    destruct (run_check _ _ _ _ c w) as [[[]|] w1]; simpl in *.
    + destruct (IH (fun c' Hc' => Henters c' (list_elem_of_further _ _ _ Hc')) w0 w1)
        as (Htr & Hcfg & Hok).
      { by eapply same_config_trans. }
      rewrite Htr, Htrace, <- app_assoc. done.
    + rewrite Htrace. split; [done|]. split; [by eapply same_config_trans|].
      split; discriminate.
    + rewrite Htrace. split; [done|]. split; [by eapply same_config_trans|].
      split; discriminate.
Qed.

Lemma check_candidate_spec (booking candidate : Booking) (w0 w : World) :
  same_config w0 w ->
  let res := check_candidate calculateDistance getVehicle booking candidate w in
  let ok := passes calculateDistance getVehicle booking candidate w0 in
  entered res.2 = entered w ++ run_until_failure ok (service_order getVehicle candidate)
  /\ same_config w0 res.2
  /\ (res.1 = Some true
      <-> eligible_with calculateDistance getVehicle booking w0 candidate = true).
Proof.
  intros Hsame. rewrite check_candidate_run_checks.
  apply run_checks_spec; [|done].
  intros c Hc. by apply run_check_enters.
Qed.

Lemma service_order_NoDup (candidate : Booking) :
  NoDup (service_order getVehicle candidate).
Proof.
  unfold service_order. destruct (candidate_vehicle getVehicle candidate);
    apply (bool_decide_unpack _); vm_compute; exact I.
Qed.

Lemma run_until_failure_subset (ok : Checkpoint -> bool) (order : list Checkpoint) :
  run_until_failure ok order ⊆ order.
Proof.
  induction order as [|c rest IH]; [done|]. simpl. intros x Hx.
  apply elem_of_cons in Hx as [->|Hx]; [left|].
  destruct (ok c); [right; by apply IH | by apply elem_of_nil in Hx].
Qed.

Lemma run_until_failure_short_circuits (ok : Checkpoint -> bool)
    (order : list Checkpoint) :
  NoDup order -> short_circuits order ok (run_until_failure ok order).
Proof.
  induction order as [|c rest IH]; intros Hnd a b (i & j & Hi & Hj & Hij) Ha.
  - done.
  - apply NoDup_cons in Hnd as [Hc Hnd]. simpl.
    destruct j as [|j]; [lia|]. simpl in Hj.
    assert (b ∈ rest) as Hb by (by eapply list_elem_of_lookup_2).
    assert (b <> c) as Hbc by (intros ->; done).
    destruct i as [|i]; simpl in Hi.
    + simplify_eq. rewrite Ha.
      apply not_elem_of_cons. split; [done | apply not_elem_of_nil].
    + apply not_elem_of_cons. split; [done|].
      destruct (ok c); [|apply not_elem_of_nil].
      apply (IH Hnd a b); [|done]. exists i, j. repeat split; [done..|lia].
Qed.

Lemma checkMergeEligibility_from_spec (booking : Booking) (candidates : list Booking) :
  forall (eligibleBookings : list Booking) (w0 w : World),
    same_config w0 w ->
    let res := checkMergeEligibility_from calculateDistance getVehicle booking
                 candidates eligibleBookings w in
    res.1 = eligibleBookings
            ++ filter (fun c => eligible_with calculateDistance getVehicle
                                  booking w0 c = true) candidates
    /\ same_config w0 res.2.
Proof.
  induction candidates as [|c rest IH]; intros acc w0 w Hsame; simpl.
  - by rewrite app_nil_r.
  - destruct (check_candidate_spec booking c w0 w Hsame) as (_ & Hcfg & Hok).
    destruct (check_candidate _ _ booking c w) as [r w1]. simpl in *.
    destruct (eligible_with _ _ booking w0 c) eqn:He.
    + rewrite filter_cons_True by done.
      assert (r = Some true) as -> by (by apply Hok).
      destruct (IH (acc ++ [c]) w0 w1 Hcfg) as [-> ?].
      by rewrite <- app_assoc.
    + rewrite filter_cons_False by (by rewrite He).
      assert (r <> Some true) as Hr.
      { intros ->. destruct Hok as [Hok _]. by specialize (Hok eq_refl). }
      destruct r as [[]|]; [done| |]; apply (IH acc w0 w1 Hcfg).
Qed.
End EligibilityOrder.

(** ** The order of the tests (C6) *)

(** C6, as stated, fails: in the order of the specification the type test
    stands before the time test, yet a candidate at the same places and time
    as the base request but of another type does not pass the type test and
    has been subjected to the time test. *)
Lemma C6_counterexample :
  ~ (forall (calculateDistance : Q -> Q -> Q -> Q -> Q)
            (getVehicle : Z -> option Vehicle)
            (booking candidate : Booking) (w : World),
       exists started : list Checkpoint,
         entered (check_candidate calculateDistance getVehicle
                                  booking candidate w).2
         = entered w ++ started
         /\ short_circuits spec_order
              (passes calculateDistance getVehicle booking candidate w) started).
Proof.
  intros claim.
  destruct (claim planar_distance no_vehicle booking_P booking_other_type fresh_world)
    as (started & Hstarted & Hshort).
  assert (started = [SelfExclusion; PickupProximity; DropoffProximity;
                     TimeCompatibility; TypeCompatibility]) as ->.
  { vm_compute in Hstarted. by simplify_eq. }
  apply (Hshort TypeCompatibility TimeCompatibility).
  - exists 4%nat, 6%nat. repeat split. lia.
  - vm_compute. reflexivity.
  - apply (bool_decide_unpack _). vm_compute. exact I.
Qed.

Section EligibilityClaims.
Variable calculateDistance : Q -> Q -> Q -> Q -> Q.
Variable getVehicle : Z -> option Vehicle.

(** C6, amended.  For one candidate, [checkMergeEligibility] starts its
    tests in the order self-exclusion, pickup proximity, dropoff proximity,
    time, type, priority, vehicle (when a vehicle is found for the
    candidate), route deviation, pickup gap, duration limit, zone, and stops
    after the first test that does not pass: a candidate that does not pass a
    test is subjected to no test that stands later in this order.  The
    candidate is pushed exactly when it passes them all.  There is no
    already-merged test. *)
Theorem C6_service_check_order (booking candidate : Booking) (w : World) :
  let res := check_candidate calculateDistance getVehicle booking candidate w in
  let order := service_order getVehicle candidate in
  let ok := passes calculateDistance getVehicle booking candidate w in
  let started := run_until_failure ok order in
  entered res.2 = entered w ++ started
  /\ short_circuits order ok started
  /\ (res.1 = Some true <-> forallb ok order = true)
  /\ AlreadyMerged ∉ started.
Proof.
  intros res order ok started.
  destruct (check_candidate_spec calculateDistance getVehicle booking candidate
              w w (same_config_refl w)) as (Htr & _ & Hok).
  split; [exact Htr|]. split; [|split; [exact Hok|]].
  - apply run_until_failure_short_circuits, service_order_NoDup.
  - intros Hin. apply run_until_failure_subset in Hin.
    unfold order, service_order in Hin.
    destruct (candidate_vehicle getVehicle candidate); not_in_list Hin.
Qed.

(** ** Batch evaluation (C7) *)

(** C7.  The eligible requests are the candidates that pass every test, in
    the order of the candidate list (a subsequence of it); none of them has
    the identifier of the base request; and the answer depends on the state
    only through the configuration values: it is the same in any state that
    reads the same configuration, in particular when the evaluation is run
    again in the state the first run has left. *)
Theorem C7_batch_eligibility (booking : Booking) (candidates : list Booking)
    (w : World) :
  let res := checkMergeEligibility calculateDistance getVehicle booking candidates w in
  res.1 = filter (fun c => eligible_with calculateDistance getVehicle booking w c = true)
                 candidates
  /\ sublist res.1 candidates
  /\ (forall c, c ∈ res.1 -> id c <> id booking)
  /\ (forall w2, same_config w w2 ->
        (checkMergeEligibility calculateDistance getVehicle booking candidates w2).1
        = res.1)
  /\ (checkMergeEligibility calculateDistance getVehicle booking candidates res.2).1
     = res.1.
Proof.
  intros res. unfold checkMergeEligibility in *.
  destruct (checkMergeEligibility_from_spec calculateDistance getVehicle booking
              candidates [] w w (same_config_refl w)) as [Hres Hcfg].
  fold res in Hres, Hcfg. simpl in Hres.
  assert (forall w2, same_config w w2 ->
            (checkMergeEligibility_from calculateDistance getVehicle booking
               candidates [] w2).1 = res.1) as Hdet.
  { intros w2 H2.
    destruct (checkMergeEligibility_from_spec calculateDistance getVehicle booking
                candidates [] w w2 H2) as [-> _]. by rewrite Hres. }
  split; [exact Hres|]. split; [|split; [|split]].
  - rewrite Hres. apply sublist_filter.
  - intros c Hc. rewrite Hres in Hc. apply list_elem_of_filter in Hc as [He _].
    unfold eligible_with, service_order in He. simpl in He.
    apply andb_true_iff in He as [Hself _].
    unfold passes in Hself. simpl in Hself.
    intros Hid. by rewrite bool_decide_eq_true_2 in Hself.
  - exact Hdet.
  - by apply Hdet.
Qed.

(** ** The placeholder route (C10) *)



End EligibilityClaims.

Lemma C7_batch_eligibility_witness :
  let res := checkMergeEligibility planar_distance no_vehicle booking_P
               [booking_P; booking_C; booking_other_type] lenient_world in
  res.1 = filter (fun c => eligible_with planar_distance no_vehicle booking_P
                             lenient_world c = true)
                 [booking_P; booking_C; booking_other_type]
  /\ sublist res.1 [booking_P; booking_C; booking_other_type]
  /\ (forall c, c ∈ res.1 -> id c <> id booking_P)
  /\ (forall w2, same_config lenient_world w2 ->
        (checkMergeEligibility planar_distance no_vehicle booking_P
           [booking_P; booking_C; booking_other_type] w2).1 = res.1)
  /\ (checkMergeEligibility planar_distance no_vehicle booking_P
        [booking_P; booking_C; booking_other_type] res.2).1 = res.1.
Proof.
  exact (C7_batch_eligibility planar_distance no_vehicle booking_P
           [booking_P; booking_C; booking_other_type] lenient_world).
Defined.

(** In the scenario, with a tolerance of 50 km, [C] alone can join [P]. *)
Example eligibility_scenario :
  (checkMergeEligibility planar_distance no_vehicle booking_P
     [booking_P; booking_C; booking_other_type] lenient_world).1 = [booking_C].
Proof. vm_compute. reflexivity. Qed.



(** ** Recommendations (C8) *)

(** A postcondition of [m ≫= k], from what [m] returns in the state [w0]
    with the same configuration. *)
Lemma bind_post_run {A B : Type} (m : M A) (k : A -> M B)
    (post : option B * World -> Prop) (w0 w : World) :
  reads_config m ->
  same_config w0 w ->
  (forall w1, same_config w0 w1 ->
     match (m w0).1 with
     | Some a => post (k a w1)
     | None => post (None, w1)
     end) ->
  post ((m ≫= k) w).
Proof.
  intros [Hkeep Hdet] Hsame Hpost. rewrite M_bind_unfold.
  pose proof (Hkeep w) as Hw. pose proof (Hdet w0 w Hsame) as Hres.
  specialize (Hpost (m w).2 (same_config_trans _ _ _ Hsame Hw)).
  rewrite Hres in Hpost. by destruct (m w) as [[a|] w1].
Qed.

Lemma Double_mul_comm (a b : double) : (a * b)%D = (b * a)%D.
Proof.
  unfold Double.mul.
  destruct a as [sa|sa| |sa ma ea], b as [sb|sb| |sb mb eb]; cbn;
    rewrite ?(xorb_comm sa sb); try done.
  by rewrite (Pos.mul_comm ma mb), (Z.add_comm ea eb).
Qed.

(** [js_sort] on a list whose members the comparator orders. *)
Section JsSortOn.
Context {A : Type} (cmp : A -> A -> Q) (R : A -> A -> Prop) (P : A -> Prop).
Hypothesis cmp_R :
  forall a b, P a -> P b -> (Qle_bool (cmp a b) 0 = true <-> R a b).
Hypothesis R_total : forall a b, P a -> P b -> R a b \/ R b a.
Hypothesis R_trans :
  forall a b c, P a -> P b -> P c -> R a b -> R b c -> R a c.

Lemma sort_insert_sorted_on (x : A) (l : list A) :
  P x -> Forall P l -> StronglySorted R l ->
  StronglySorted R (sort_insert cmp x l).
Proof.
  intros Hx HP Hsorted. induction Hsorted as [|y l Hl IH Hy]; simpl.
  - repeat constructor.
  - apply Forall_cons in HP as [HPy HPl].
    destruct (Qle_bool (cmp x y) 0) eqn:E.
    + apply (cmp_R x y Hx HPy) in E.
      constructor; [by constructor|].
      constructor; [done|].
      rewrite Forall_forall in Hy, HPl |- *. intros z Hz.
      apply (R_trans x y z); auto.
    + assert (R y x) as Hyx.
      { destruct (R_total x y Hx HPy) as [Hxy|Hyx]; [|done].
        apply (cmp_R x y Hx HPy) in Hxy. congruence. }
      constructor; [by apply IH|].
      rewrite <- sort_insert_perm. by constructor.
Qed.

Lemma js_sort_sorted_on (l : list A) :
  Forall P l -> StronglySorted R (js_sort cmp l).
Proof.
  induction l as [|x l IH]; simpl; [constructor|].
  intros [Hx Hl]%Forall_cons. apply sort_insert_sorted_on; [done| |by apply IH].
  eapply Permutation_Forall; [apply js_sort_perm|done].
Qed.
End JsSortOn.

Section RecommendationFacts.
Variable calculateDistance : Q -> Q -> Q -> Q -> Q.
Variable getBooking : Z -> list Booking.
Variable getActiveTrips : list Booking.
Variable getChildBookings : Z -> list Booking.

Lemma isPickupNearby_reads_config (a b : Location) :
  reads_config (isPickupNearby calculateDistance a b).
Proof. unfold isPickupNearby. config_solve. Qed.

Lemma isDropoffNearby_reads_config (a b : Location) :
  reads_config (isDropoffNearby calculateDistance a b).
Proof. unfold isDropoffNearby. config_solve. Qed.

Lemma isBookingTypeCompatible_reads_config (bookings : list Booking) :
  reads_config (isBookingTypeCompatible bookings).
Proof. unfold isBookingTypeCompatible. config_solve. Qed.

Lemma isDurationWithinLimit_reads_config (mergedRoute : RouteSummary) :
  reads_config (isDurationWithinLimit mergedRoute).
Proof. unfold isDurationWithinLimit. config_solve. Qed.

(** The score that the code computes is the score of the specification. *)
Lemma code_score (maxDistanceKm pickupKm dropoffKm : Q) :
  Math_round
    ((Math_max (double_of_Q 0)
               (double_of_Q 100
                - (double_of_Q pickupKm / double_of_Q maxDistanceKm
                   * double_of_Q 100))
      * double_of_Q (4 # 10))
     + (Math_max (double_of_Q 0)
                 (double_of_Q 100
                  - (double_of_Q dropoffKm / double_of_Q maxDistanceKm
                     * double_of_Q 100))
        * double_of_Q (4 # 10))
     + (double_of_Q 100 * double_of_Q (2 # 10)))%D
  = compositeScore maxDistanceKm pickupKm dropoffKm true.
Proof.
  unfold compositeScore, distanceScore.
  by rewrite !(Double_mul_comm (double_of_Q (4 # 10))),
             (Double_mul_comm (double_of_Q (2 # 10))).
Qed.

Lemma recommend_trip_spec (booking trip : Booking) (w0 w : World) :
  same_config w0 w ->
  let res := recommend_trip calculateDistance getChildBookings booking trip w in
  same_config w0 res.2
  /\ (forall r, res.1 = Some (Some r) ->
        recommendation_ok calculateDistance getChildBookings booking w0 [trip] r)
  /\ (if recommendable calculateDistance getChildBookings booking w0 trip
      then exists r, res.1 = Some (Some r) /\ rec_tripId r = id trip
      else forall r, res.1 <> Some (Some r)).
Proof.
  intros Hsame.
  set (post := fun res : option (option Recommendation) * World =>
         same_config w0 res.2
         /\ (forall r, res.1 = Some (Some r) ->
               recommendation_ok calculateDistance getChildBookings booking w0
                 [trip] r)
         /\ (if recommendable calculateDistance getChildBookings booking w0 trip
             then exists r, res.1 = Some (Some r) /\ rec_tripId r = id trip
             else forall r, res.1 <> Some (Some r))).
  assert (recommendable calculateDistance getChildBookings booking w0 trip = false ->
          forall (o : option (option Recommendation)) w1,
            same_config w0 w1 -> (forall r, o <> Some (Some r)) -> post (o, w1))
    as Hskip.
  { intros Hno o w1 H1 Ho. split; [done|]. split.
    - intros r Hr. by destruct (Ho r).
    - by rewrite Hno. }
  change (post (recommend_trip calculateDistance getChildBookings booking trip w)).
  unfold recommend_trip.
  destruct (bool_decide (status trip = "Completed")) eqn:Hstatus.
  { apply Hskip; [|done..]. unfold recommendable. by rewrite Hstatus. }
  apply (bind_post_run _ _ post w0);
    [apply isPickupNearby_reads_config | done |].
  intros w1 H1.
  destruct (isPickupNearby _ _ _ w0).1 as [pickupOk|] eqn:Hpickup.
  2:{ apply Hskip; [|done..]. unfold recommendable, holds.
      by rewrite Hstatus, Hpickup. }
  destruct pickupOk; cbn [negb].
  2:{ apply Hskip; [|done..]. unfold recommendable, holds.
      by rewrite Hstatus, Hpickup. }
  apply (bind_post_run _ _ post w0);
    [apply isDropoffNearby_reads_config | done |].
  intros w2 H2.
  destruct (isDropoffNearby _ _ _ w0).1 as [dropoffOk|] eqn:Hdropoff.
  2:{ apply Hskip; [|done..]. unfold recommendable, holds.
      by rewrite Hstatus, Hpickup, Hdropoff. }
  destruct dropoffOk; cbn [negb].
  2:{ apply Hskip; [|done..]. unfold recommendable, holds.
      by rewrite Hstatus, Hpickup, Hdropoff. }
  apply (bind_post_run _ _ post w0);
    [apply isBookingTypeCompatible_reads_config | done |].
  intros w3 H3.
  destruct (isBookingTypeCompatible _ w0).1 as [typeOk|] eqn:Htype.
  2:{ apply Hskip; [|done..]. unfold recommendable, holds.
      by rewrite Hstatus, Hpickup, Hdropoff, Htype. }
  destruct typeOk; cbn [negb].
  2:{ apply Hskip; [|done..]. unfold recommendable, holds.
      by rewrite Hstatus, Hpickup, Hdropoff, Htype. }
  apply (bind_post_run _ _ post w0);
    [apply isDurationWithinLimit_reads_config | done |].
  intros w4 H4.
  change (summary_of (calculateRouteWithStops _ _ _)) with (mkRouteSummary 0 0).
  destruct (isDurationWithinLimit _ w0).1 as [durationOk|] eqn:Hduration.
  2:{ apply Hskip; [|done..]. unfold recommendable, holds.
      by rewrite Hstatus, Hpickup, Hdropoff, Htype, Hduration. }
  destruct durationOk; cbn [negb].
  2:{ apply Hskip; [|done..]. unfold recommendable, holds.
      by rewrite Hstatus, Hpickup, Hdropoff, Htype, Hduration. }
  apply (bind_post_run _ _ post w0);
    [apply reads_config_getConfigNumber | done |].
  intros w5 H5.
  destruct (getConfigNumber_run TRIP_MERGE_PICKUP_DISTANCE_KM w0) as [Hv _].
  rewrite Hv. rewrite code_score.
  assert (recommendable calculateDistance getChildBookings booking w0 trip
          = rounded_geb
              (trip_score calculateDistance booking w0 trip) 50) as Hrec.
  { unfold recommendable, holds.
    by rewrite Hstatus, Hpickup, Hdropoff, Htype, Hduration. }
  fold (trip_score calculateDistance booking w0 trip).
  destruct (rounded_geb (trip_score calculateDistance booking w0 trip) 50)
    eqn:Hscore.
  2:{ by apply Hskip. }
  split; [done|]. split.
  - intros r [= <-]. exists trip. split; [left|]. split; [done|].
    cbn [rec_tripId pickupDistanceKm dropoffDistanceKm compatibilityScore].
    repeat split; done.
  - rewrite Hrec. by eexists.
Qed.

Lemma recommendations_from_spec (booking : Booking) (w0 : World)
    (trips : list Booking) :
  forall (more : list Booking) (recommendations : list Recommendation) (w : World),
    same_config w0 w ->
    (forall t, t ∈ more -> t ∈ trips) ->
    let out :=
      (recommendations_from calculateDistance getChildBookings booking
         more recommendations w).1 in
    (Forall (recommendation_ok calculateDistance getChildBookings booking w0 trips)
            recommendations ->
     Forall (recommendation_ok calculateDistance getChildBookings booking w0 trips)
            out)
    /\ map rec_tripId out
       = map rec_tripId recommendations
         ++ map id (filter (fun trip =>
                              recommendable calculateDistance getChildBookings
                                booking w0 trip = true) more).
Proof.
  induction more as [|trip rest IH]; intros acc w Hsame Hsub; simpl.
  { split; [done|]. by rewrite app_nil_r. }
  destruct (recommend_trip_spec booking trip w0 w Hsame) as (Hcfg & Hok & Hrec).
  assert (forall t, t ∈ rest -> t ∈ trips) as Hrest
    by (intros t Ht; apply Hsub; by right).
  destruct (recommendable calculateDistance getChildBookings booking w0 trip)
    eqn:Hyes.
  - destruct Hrec as (r & Hr & Hid).
    destruct (recommend_trip _ _ booking trip w) as [o w1].
    cbn [fst snd] in *. subst o.
    destruct (IH (acc ++ [r]) w1 Hcfg Hrest) as [Hall Hids].
    rewrite filter_cons_True by done. split.
    + intros Hacc. apply Hall. apply Forall_app. split; [done|].
      constructor; [|done].
      destruct (Hok r eq_refl) as (t & Ht & Hfields).
      exists t. split; [|done].
      apply list_elem_of_singleton in Ht as ->. apply Hsub. left.
    + rewrite Hids, map_app. cbn [map]. rewrite Hid.
      by rewrite <- app_assoc.
  - rewrite filter_cons_False by (by rewrite Hyes).
    destruct (recommend_trip _ _ booking trip w) as [[[r|]|] w1];
      cbn [fst snd] in *; [by destruct (Hrec r)|..]; by apply IH.
Qed.

(** Scores that are at least 50 are numbers, which the comparator of the
    final sort orders. *)
Lemma score_order (a b : Rounded) :
  rounded_geb a 50 = true -> rounded_geb b 50 = true ->
  (Qle_bool (rounded_difference b a) 0 = true <-> score_ge a b)
  /\ (score_ge a b \/ score_ge b a).
Proof.
  destruct a as [|[]|x], b as [|[]|y]; try done; cbn; intros _ _;
    try (split; vm_compute; intuition congruence).
  split; [|lia]. rewrite Qle_bool_iff.
  change 0%Q with (inject_Z 0). rewrite <- Zle_Qle. lia.
Qed.

Lemma score_ge_trans (a b c : Rounded) :
  rounded_geb a 50 = true -> rounded_geb b 50 = true -> rounded_geb c 50 = true ->
  score_ge a b -> score_ge b c -> score_ge a c.
Proof.
  destruct a as [|[]|x], b as [|[]|y], c as [|[]|z]; try done; cbn; lia.
Qed.

(** [getMergeRecommendations] returns the empty list unless the status of the
    request is ["Approved"].  For such a request it recommends exactly the
    active trips that the specification recommends, each once and with the
    score and the distances of the specification, in descending order of
    score. *)
Lemma getMergeRecommendations_spec (bookingId : Z) (w : World) :
  let res := getMergeRecommendations calculateDistance getBooking getActiveTrips
               getChildBookings bookingId w in
  (forall booking, head (getBooking bookingId) = Some booking ->
     status booking <> "Approved" -> res.1 = [])
  /\ (forall booking, head (getBooking bookingId) = Some booking ->
        status booking = "Approved" ->
        Permutation
          (map rec_tripId res.1)
          (map id (filter (fun trip =>
                             recommendable calculateDistance getChildBookings
                               booking w trip = true) getActiveTrips))
        /\ Forall (recommendation_ok calculateDistance getChildBookings
                     booking w getActiveTrips) res.1)
  /\ StronglySorted
       (fun a b => score_ge (compatibilityScore a) (compatibilityScore b)) res.1.
Proof.
  intros res. unfold getMergeRecommendations in res.
  destruct (getBooking bookingId) as [|booking others] eqn:Hb.
  { subst res. simpl. split; [done|]. split; [done|constructor]. }
  destruct (bool_decide (status booking = "Approved")) eqn:Hst.
  2:{ subst res. simpl. apply bool_decide_eq_false in Hst.
      split; [done|]. split; [|constructor]. by intros b [= <-]. }
  apply bool_decide_eq_true in Hst. simpl in res.
  destruct (recommendations_from_spec booking w getActiveTrips getActiveTrips [] w
              (same_config_refl w) (fun t Ht => Ht)) as [Hall Hids].
  specialize (Hall (Forall_nil_2 _)).
  destruct (recommendations_from _ _ booking getActiveTrips [] w) as [recs w'].
  subst res. cbn [fst snd] in *.
  set (cmp := fun a b : Recommendation =>
                rounded_difference (compatibilityScore b) (compatibilityScore a)).
  split; [|split].
  - intros b [= <-] Hne. done.
  - intros b [= <-] _. split.
    + rewrite <- (Permutation_map rec_tripId (js_sort_perm cmp recs)).
      by rewrite Hids.
    + eapply Permutation_Forall; [apply js_sort_perm|done].
  - apply (js_sort_sorted_on cmp _
             (fun r => rounded_geb (compatibilityScore r) 50 = true)).
    + intros a b Ha Hb'. by apply score_order.
    + intros a b Ha Hb'. by apply score_order.
    + intros a b c Ha Hb' Hc. by apply score_ge_trans.
    + eapply Forall_impl; [exact Hall|].
      intros r (t & _ & _ & _ & _ & _ & _ & Hr). exact Hr.
Qed.
End RecommendationFacts.

(** The score rounds the sum that the doubles give.  For the distances
    1/1600 and 299/1600 (as doubles) and the maximum 5, the exact value of
    [0.4 pickupScore + 0.4 dropoffScore + 20] is less than 98.5, but the sum
    of the doubles is 98.5 and the score is 99. *)
Example score_rounds_the_double_sum :
  let pickupKm := (5764607523034235 # 9223372036854775808)%Q in
  let dropoffKm := (1683220360729723 # 9007199254740992)%Q in
  double_of_Q (1 # 1600) = double_of_Q pickupKm
  /\ double_of_Q (299 # 1600) = double_of_Q dropoffKm
  /\ compositeScore 5 pickupKm dropoffKm true = Integer 99
  /\ ((4 # 10) * (100 - pickupKm / 5 * 100)
      + (4 # 10) * (100 - dropoffKm / 5 * 100) + (2 # 10) * 100 < 985 # 10)%Q.
Proof. vm_compute. repeat split; reflexivity. Qed.

(** C8 fails on the code.  The guard of [getMergeRecommendations] compares the
    status with ["Approved"], whereas the status of an approved request is
    ["approved"] (the unmerge handler writes it so): such a request gets no
    recommendation, although an active trip is near it, compatible with it
    and scores 84.  The same request gets this recommendation when its status
    is ["Approved"].  For the rest the property holds of the code: whatever
    the distance function and the storage, the result is empty unless the status
    is ["Approved"]; for such a request the code recommends exactly the
    active trips that are not completed, near the request, type-compatible,
    within the duration limit and scoring at least 50, each once, with the
    composite score [round(0.4 pickupScore + 0.4 dropoffScore + 0.2
    typeScore)] computed in doubles; and the list is in descending order of
    score. *)
Theorem C8_recommendations :
  (getMergeRecommendations planar_distance scenario_getBooking
     scenario_getActiveTrips scenario_getChildBookings 6 fresh_world).1 = []
  /\ head (scenario_getBooking 6) = Some booking_approved
  /\ status booking_approved = "approved"
  /\ recommendable planar_distance scenario_getChildBookings
       booking_approved fresh_world trip_P = true
  /\ trip_score planar_distance booking_approved fresh_world trip_P = Integer 84
  /\ map (fun r => (rec_tripId r, compatibilityScore r))
         (getMergeRecommendations planar_distance scenario_getBooking
            scenario_getActiveTrips scenario_getChildBookings 5 fresh_world).1
     = [(1, Integer 84)]
  /\ forall (calculateDistance : Q -> Q -> Q -> Q -> Q)
            (getBooking : Z -> list Booking) (getActiveTrips : list Booking)
            (getChildBookings : Z -> list Booking) (bookingId : Z) (w : World),
       let res := getMergeRecommendations calculateDistance getBooking
                    getActiveTrips getChildBookings bookingId w in
       (forall booking, head (getBooking bookingId) = Some booking ->
          status booking <> "Approved" -> res.1 = [])
       /\ (forall booking, head (getBooking bookingId) = Some booking ->
             status booking = "Approved" ->
             Permutation
               (map rec_tripId res.1)
               (map id (filter (fun trip =>
                                  recommendable calculateDistance getChildBookings
                                    booking w trip = true) getActiveTrips))
             /\ Forall (recommendation_ok calculateDistance getChildBookings
                          booking w getActiveTrips) res.1)
       /\ StronglySorted
            (fun a b => score_ge (compatibilityScore a) (compatibilityScore b))
            res.1.
Proof.
  split; [vm_compute; reflexivity|]. split; [reflexivity|].
  split; [reflexivity|]. split; [vm_compute; reflexivity|].
  split; [vm_compute; reflexivity|]. split; [vm_compute; reflexivity|].
  intros. apply getMergeRecommendations_spec.
Qed.

(** * Further properties of the merge handler *)

(** ** Updates of the table, row by row *)

Lemma update_by_id_ids (db : Db) (x : Z) (f : Booking -> Booking) :
  (forall b, id (f b) = id b) -> map id (update_by_id db x f) = map id db.
Proof.
  intros Hid. unfold update_by_id. induction db as [|r db IH]; [done|].
  cbn [map]. rewrite IH. by case_decide; rewrite ?Hid.
Qed.

Lemma update_by_id_untouched (db : Db) (x : Z) (f : Booking -> Booking)
    (i : nat) (b : Booking) :
  db !! i = Some b -> id b <> x -> update_by_id db x f !! i = Some b.
Proof.
  intros Hi Hx. unfold update_by_id.
  change (map ?g db) with (g <$> db). rewrite list_lookup_fmap, Hi. simpl.
  by rewrite decide_False.
Qed.

Lemma foldl_update_ids {K : Type} (key : K -> Z) (f : K -> Booking -> Booking)
    (ks : list K) :
  (forall k b, id (f k b) = id b) ->
  forall db : Db,
    map id (foldl (fun d k => update_by_id d (key k) (f k)) db ks) = map id db.
Proof.
  intros Hid. induction ks as [|k ks IH]; intros db; simpl; [done|].
  rewrite IH. by apply update_by_id_ids.
Qed.

Lemma foldl_update_untouched {K : Type} (key : K -> Z) (f : K -> Booking -> Booking)
    (ks : list K) (i : nat) (b : Booking) :
  id b ∉ map key ks ->
  forall db : Db,
    db !! i = Some b ->
    foldl (fun d k => update_by_id d (key k) (f k)) db ks !! i = Some b.
Proof.
  induction ks as [|k ks IH]; intros Hb db Hi; simpl; [done|].
  cbn [map] in Hb. apply not_elem_of_cons in Hb as [Hk Hb].
  apply IH; [done|]. by apply update_by_id_untouched.
Qed.

Lemma foldl_update_column {C K : Type} (col : Booking -> C) (key : K -> Z)
    (f : K -> Booking -> Booking) (ks : list K) :
  (forall k b, id (f k b) = id b) -> (forall k b, col (f k b) = col b) ->
  forall (db : Db) (x : Z),
    col <$> select_by_id (foldl (fun d k => update_by_id d (key k) (f k)) db ks) x
    = col <$> select_by_id db x.
Proof.
  intros Hid Hcol. induction ks as [|k ks IH]; intros db x; simpl; [done|].
  rewrite IH. by apply select_update_column.
Qed.

Lemma fallback_sequences_ids (len : nat) (ids : list Z) :
  forall (i : nat) (db : Db), map id (fallback_sequences len ids i db) = map id db.
Proof.
  induction ids as [|x rest IH]; intros i db; simpl; [done|].
  rewrite IH. by apply update_by_id_ids.
Qed.

Lemma fallback_sequences_untouched (len : nat) (ids : list Z) (k : nat) (b : Booking) :
  id b ∉ ids ->
  forall (i : nat) (db : Db),
    db !! k = Some b -> fallback_sequences len ids i db !! k = Some b.
Proof.
  induction ids as [|x rest IH]; intros Hb i db Hk; simpl; [done|].
  apply not_elem_of_cons in Hb as [Hx Hb].
  apply IH; [done|]. by apply update_by_id_untouched.
Qed.

Lemma fallback_sequences_column {C : Type} (col : Booking -> C) (len : nat)
    (ids : list Z) :
  (forall p d b, col (set_sequences p d b) = col b) ->
  forall (i : nat) (db : Db) (x : Z),
    col <$> select_by_id (fallback_sequences len ids i db) x
    = col <$> select_by_id db x.
Proof.
  intros Hcol. induction ids as [|y rest IH]; intros i db x; simpl; [done|].
  rewrite IH. by apply select_update_column.
Qed.

Lemma write_sequences_column {C : Type} (col : Booking -> C)
    (sequenceEntries : list (Z * Sequence)) :
  (forall p d b, col (set_sequences p d b) = col b) ->
  forall (db : Db) (x : Z),
    col <$> select_by_id (write_sequences db sequenceEntries) x
    = col <$> select_by_id db x.
Proof.
  intros Hcol db x. unfold write_sequences.
  by apply (foldl_update_column col fst
              (fun e => set_sequences (pickupSequence e.2) (dropoffSequence e.2))).
Qed.

Lemma select_by_id_elem_of (db : Db) (x : Z) (b : Booking) :
  select_by_id db x = Some b -> b ∈ db.
Proof.
  unfold select_by_id. intros H. apply head_Some_elem_of in H.
  by apply list_elem_of_filter in H as [_ ?].
Qed.

(** ** The updates of a merge *)

Lemma merge_children_select (parentBookingId : Z) (tripId : string)
    (childBookingIds : list Z) :
  forall (db : Db) (y : Z),
    select_by_id
      (foldl (fun d childId =>
                update_by_id d childId (set_merge_child parentBookingId tripId))
             db childBookingIds) y
    = if decide (y ∈ childBookingIds)
      then set_merge_child parentBookingId tripId <$> select_by_id db y
      else select_by_id db y.
Proof.
  induction childBookingIds as [|c rest IH]; intros db y; cbn [foldl].
  - case_decide as H; [by apply elem_of_nil in H | done].
  - rewrite IH, select_update by apply set_merge_child_id.
    destruct (decide (y ∈ rest)) as [Hr|Hr], (decide (y = c)) as [->|Hc];
      case_decide as H; try done.
    + by destruct (select_by_id db c).
    + exfalso. apply H. left.
    + exfalso. apply H. by right.
    + exfalso. apply H. left.
    + apply elem_of_cons in H as [?|?]; done.
Qed.

Lemma merge_writes_without_sequences (parentBookingId : Z)
    (childBookingIds : list Z) (tripId : string)
    (optimizedRoute : option OptimizedRoute) (db : Db) (x : Z) :
  without_sequences
    <$> select_by_id
          (merge_writes parentBookingId childBookingIds tripId optimizedRoute db) x
  = without_sequences
      <$> select_by_id
            (foldl (fun d childId =>
                      update_by_id d childId
                        (set_merge_child parentBookingId tripId))
                   (update_by_id db parentBookingId
                      (set_merge_parent childBookingIds tripId optimizedRoute))
                   childBookingIds) x.
Proof.
  unfold merge_writes. destruct optimizedRoute as [route|].
  - by apply write_sequences_column.
  - by apply fallback_sequences_column.
Qed.

Lemma verify_children_all (db : Db) (childBookingIds : list Z) :
  (forall c, c ∈ childBookingIds ->
     exists b, select_by_id db c = Some b /\ is_merged b = false) ->
  verify_children db childBookingIds = None.
Proof.
  induction childBookingIds as [|c rest IH]; intros Hall; simpl; [done|].
  destruct (Hall c) as (b & -> & ->); [left|].
  apply IH. intros c' Hc'. apply Hall. by right.
Qed.

Lemma mapM_select_ids (db : Db) (ids : list Z) (rows : list Booking) :
  mapM (select_by_id db) ids = Some rows -> map id rows = ids.
Proof.
  rewrite mapM_Some. induction 1 as [|x b ids rows Hx _ IH]; [done|].
  cbn [map]. by rewrite IH, (select_by_id_id _ _ _ Hx).
Qed.

(** What a returning callback has read and written. *)
Lemma merge_callback_inv
    (calculateDistance : Q -> Q -> Q -> Q -> Q) (apiKey : string)
    (response : FetchResult) (tripId : string)
    (parentBookingId : Z) (childBookingIds : list Z) (db db' : Db)
    (result : MergeResult) :
  merge_callback calculateDistance apiKey response tripId
                 parentBookingId childBookingIds db = Returns result db' ->
  exists (allBookings : list Booking) (startLocation : LatLng),
    mapM (select_by_id db) (parentBookingId :: childBookingIds) = Some allBookings
    /\ Forall (fun b => is_merged b = false) allBookings
    /\ ts_route (mr_trip result)
       = optimizeRoute calculateDistance apiKey response
           (pickup_points allBookings) (dropoff_points allBookings) startLocation
    /\ db' = merge_writes parentBookingId childBookingIds tripId
               (ts_route (mr_trip result)) db
    /\ mr_parent result = select_by_id db' parentBookingId
    /\ mr_children result
       = filter (fun b => merged_with_booking_id b = Some parentBookingId) db'.
Proof.
  unfold merge_callback.
  destruct (select_by_id db parentBookingId) as [p|] eqn:Hp; [|done].
  destruct (is_merged p) eqn:Hm; [done|].
  destruct (verify_children db childBookingIds) eqn:Hv; [done|].
  destruct (mapM (select_by_id db) childBookingIds) as [rows|] eqn:Hrows; [|done].
  intros [= <- <-]. eexists (p :: rows), _.
  split; [|split; [|split; [reflexivity|done]]].
  - change (mapM (select_by_id db) (parentBookingId :: childBookingIds))
      with (b ← select_by_id db parentBookingId;
            k ← mapM (select_by_id db) childBookingIds; mret (b :: k)).
    by rewrite Hp, Hrows.
  - constructor; [done|]. apply Forall_forall. intros b Hb.
    apply mapM_Some in Hrows.
    apply list_elem_of_lookup in Hb as [i Hi].
    destruct (Forall2_lookup_r _ _ _ _ _ Hrows Hi) as (c & Hc & Hsel).
    destruct (verify_children_None _ _ Hv c) as (b' & Hb' & Hbm).
    { by eapply list_elem_of_lookup_2. }
    congruence.
Qed.

Lemma merge_callback_total
    (calculateDistance : Q -> Q -> Q -> Q -> Q) (apiKey : string)
    (response : FetchResult) (tripId : string)
    (parentBookingId : Z) (childBookingIds : list Z) (db : Db) (p : Booking) :
  select_by_id db parentBookingId = Some p -> is_merged p = false ->
  (forall c, c ∈ childBookingIds ->
     exists b, select_by_id db c = Some b /\ is_merged b = false) ->
  exists result db',
    merge_callback calculateDistance apiKey response tripId
                   parentBookingId childBookingIds db = Returns result db'.
Proof.
  intros Hp Hm Hall. unfold merge_callback.
  rewrite Hp, Hm, (verify_children_all _ _ Hall).
  destruct (mapM (select_by_id db) childBookingIds) as [rows|] eqn:Hrows.
  - by eexists _, _.
  - exfalso. apply eq_None_not_Some in Hrows. apply Hrows.
    apply mapM_is_Some, Forall_forall. intros c Hc.
    destruct (Hall c Hc) as (b & Hb & _). simpl. by eexists.
Qed.

(** X1.  A merge by the merge handler succeeds exactly when the request names
    a parent and at least one child, the parent exists and is not merged, and
    every child exists and is not merged. Neither the places, times and types
    of the requests nor the answer of the optimizer play a part: the handler
    runs none of the compatibility tests. *)
Theorem merge_succeeds_iff
    (calculateDistance : Q -> Q -> Q -> Q -> Q) (apiKey : string)
    (response : FetchResult) (tripId : string)
    (parentBookingId : Z) (childBookingIds : list Z) (db : Db) :
  success (merge calculateDistance apiKey response tripId
                 parentBookingId childBookingIds db).1 = true
  <-> parentBookingId <> 0
      /\ childBookingIds <> []
      /\ (exists p, select_by_id db parentBookingId = Some p /\ is_merged p = false)
      /\ Forall (fun c => exists b, select_by_id db c = Some b /\ is_merged b = false)
                childBookingIds.
Proof.
  unfold merge, db_transaction.
  destruct ((parentBookingId =? 0) || bool_decide (length childBookingIds = 0%nat))
    eqn:Hvalid.
  - split; [done|]. intros (Hp & Hc & _). exfalso.
    apply orb_true_iff in Hvalid as [Hz|Hl].
    + by apply Z.eqb_eq in Hz.
    + apply bool_decide_eq_true in Hl. by destruct childBookingIds.
  - apply orb_false_iff in Hvalid as [Hz Hl].
    apply Z.eqb_neq in Hz. apply bool_decide_eq_false in Hl.
    assert (childBookingIds <> []) as Hne by (by intros ->).
    destruct (merge_callback _ _ _ _ _ _ _) as [res d|msg d] eqn:Hcb; simpl.
    + split; [intros _|done].
      apply merge_callback_Returns in Hcb as (Hp & Hv & _).
      repeat split; [done..|]. apply Forall_forall.
      by apply verify_children_None.
    + split; [done|]. intros (_ & _ & (p & Hp & Hm) & Hall). exfalso.
      rewrite Forall_forall in Hall.
      destruct (merge_callback_total calculateDistance apiKey response tripId
                  parentBookingId childBookingIds db p Hp Hm Hall)
        as (result & db' & Hret).
      congruence.
Qed.

(** X2.  After a successful merge whose parent is not among its own children,
    the parent is ["confirmed"], flagged [has_merged_trips], carries the trip
    id, the route of the reply and the list of its children, and is not itself
    marked as merged; every child is ["merged"], flagged [is_merged], refers
    to the parent in [merged_with_booking_id], carries the same trip id, and
    is among the children of the reply. *)
Theorem merge_marks_group
    (calculateDistance : Q -> Q -> Q -> Q -> Q) (apiKey : string)
    (response : FetchResult) (tripId : string)
    (parentBookingId : Z) (childBookingIds : list Z) (db db' : Db)
    (reply : HttpReply MergeResult) (result : MergeResult) :
  merge calculateDistance apiKey response tripId
        parentBookingId childBookingIds db = (reply, db') ->
  data reply = Some result ->
  parentBookingId ∉ childBookingIds ->
  (exists p : Booking,
     select_by_id db' parentBookingId = Some p
     /\ mr_parent result = Some p
     /\ status p = "confirmed"
     /\ has_merged_trips p = true
     /\ is_merged p = false
     /\ trip_id p = Some tripId
     /\ optimized_route p = ts_route (mr_trip result)
     /\ merged_booking_ids p = map pretty childBookingIds)
  /\ (forall c, c ∈ childBookingIds ->
        exists b : Booking,
          select_by_id db' c = Some b
          /\ b ∈ mr_children result
          /\ status b = "merged"
          /\ is_merged b = true
          /\ merged_with_booking_id b = Some parentBookingId
          /\ trip_id b = Some tripId).
Proof.
  intros Hmerge Hdata Hnotin.
  pose proof (merge_success _ _ _ _ _ _ _ _ _ _ Hmerge Hdata) as Hcb.
  pose proof Hcb as Hinv.
  apply merge_callback_Returns in Hcb as ((p & Hp & Hpm) & Hv & Hdb).
  apply merge_callback_inv in Hinv as (rows & start & _ & _ & _ & _ & Hparent & Hchildren).
  split.
  - pose proof (merge_writes_without_sequences parentBookingId childBookingIds
                  tripId (ts_route (mr_trip result)) db parentBookingId) as Hrow.
    rewrite <- Hdb, merge_children_select in Hrow.
    rewrite decide_False in Hrow by done.
    rewrite select_update, decide_True, Hp in Hrow by done.
    destruct (select_by_id db' parentBookingId) as [p'|] eqn:Hp'; [|done].
    simpl in Hrow. apply (inj Some) in Hrow. exists p'. split; [done|]. split; [by rewrite Hparent|].
    repeat split.
    + exact (f_equal status Hrow).
    + exact (f_equal has_merged_trips Hrow).
    + rewrite <- Hpm. exact (f_equal is_merged Hrow).
    + exact (f_equal trip_id Hrow).
    + exact (f_equal optimized_route Hrow).
    + exact (f_equal merged_booking_ids Hrow).
  - intros c Hc.
    destruct (verify_children_None _ _ Hv c Hc) as (b & Hb & _).
    pose proof (merge_writes_without_sequences parentBookingId childBookingIds
                  tripId (ts_route (mr_trip result)) db c) as Hrow.
    rewrite <- Hdb, merge_children_select in Hrow.
    rewrite decide_True in Hrow by done.
    rewrite select_update, decide_False, Hb in Hrow
      by (done || by intros ->).
    destruct (select_by_id db' c) as [b'|] eqn:Hb'; [|done].
    simpl in Hrow. apply (inj Some) in Hrow. exists b'. split; [done|].
    assert (merged_with_booking_id b' = Some parentBookingId) as Hlink
      by exact (f_equal merged_with_booking_id Hrow).
    split.
    { rewrite Hchildren. apply list_elem_of_filter. split; [done|].
      by eapply select_by_id_elem_of. }
    repeat split.
    + exact (f_equal status Hrow).
    + exact (f_equal is_merged Hrow).
    + done.
    + exact (f_equal trip_id Hrow).
Qed.

Lemma merge_marks_group_witness :
  let run :=
    merge planar_distance "AIzaSy-configured-key"
          (directions_ok [2; 0; 1]%nat (Some "abc"))
          "TRIP_20240101_000001" 1 [2] scenario_db in
  exists result : MergeResult,
    data run.1 = Some result
    /\ (exists p : Booking,
          select_by_id run.2 1 = Some p
          /\ mr_parent result = Some p
          /\ status p = "confirmed"
          /\ has_merged_trips p = true
          /\ is_merged p = false
          /\ trip_id p = Some "TRIP_20240101_000001"
          /\ optimized_route p = ts_route (mr_trip result)
          /\ merged_booking_ids p = map pretty [2])
    /\ (forall c, c ∈ [2] ->
          exists b : Booking,
            select_by_id run.2 c = Some b
            /\ b ∈ mr_children result
            /\ status b = "merged"
            /\ is_merged b = true
            /\ merged_with_booking_id b = Some 1
            /\ trip_id b = Some "TRIP_20240101_000001").
Proof.
  intros run.
  destruct (data run.1) as [result|] eqn:Hdata; [|vm_compute in Hdata; discriminate].
  exists result. split; [reflexivity|].
  apply (merge_marks_group planar_distance "AIzaSy-configured-key"
           (directions_ok [2; 0; 1]%nat (Some "abc"))
           "TRIP_20240101_000001" 1 [2] scenario_db _ _ result
           (surjective_pairing _) Hdata).
  intros H. not_in_list H.
Defined.

(** ** The rows a merge touches *)

Lemma build_waypoints_ids (pickupPoints dropoffPoints : list Point) :
  map bookingId (build_waypoints pickupPoints dropoffPoints)
  = map pt_bookingId pickupPoints ++ map pt_bookingId dropoffPoints.
Proof. unfold build_waypoints. by rewrite map_app, !map_map. Qed.

Lemma pickup_points_ids (allBookings : list Booking) :
  map pt_bookingId (pickup_points allBookings) = map id allBookings.
Proof. unfold pickup_points. by rewrite map_map. Qed.

Lemma dropoff_points_ids (allBookings : list Booking) :
  map pt_bookingId (dropoff_points allBookings) = map id allBookings.
Proof. unfold dropoff_points. by rewrite map_map. Qed.

Lemma matching_dropoffs_elem_of (ids : list Z) (dl : list Waypoint) (w : Waypoint) :
  w ∈ matching_dropoffs ids dl -> w ∈ dl.
Proof.
  unfold matching_dropoffs. rewrite list_elem_of_In, in_flat_map.
  intros (bid & _ & Hin).
  destruct (find _ dl) as [d|] eqn:Hfind; [|done].
  apply find_some in Hfind as [Hd _].
  destruct Hin as [<-|[]]. by apply list_elem_of_In.
Qed.

(** Every stop of a route that [optimizeRoute] returns is one of the stops of
    the request. *)
Lemma optimizeRoute_waypoints
    (calculateDistance : Q -> Q -> Q -> Q -> Q) (apiKey : string)
    (response : FetchResult) (pickupPoints dropoffPoints : list Point)
    (startLocation : LatLng) (r : OptimizedRoute) :
  optimizeRoute calculateDistance apiKey response
                pickupPoints dropoffPoints startLocation = Some r ->
  forall w, w ∈ waypoints r -> w ∈ build_waypoints pickupPoints dropoffPoints.
Proof.
  unfold optimizeRoute. set (wps := build_waypoints pickupPoints dropoffPoints).
  destruct (bool_decide (apiKey = "")); [done|].
  destruct (bool_decide (length wps < 1)%nat); [done|].
  destruct (last dropoffPoints); [|done].
  destruct response as [|ok data]; [done|].
  destruct ok; [|done]. cbn [negb].
  destruct (bool_decide (data_status data = "OK")); [|done]. cbn [negb].
  destruct (routes data) as [|route others]; [done|].
  destruct (apply_order _ _ _ _) as [m|]; [|done].
  destruct (requiresAdjustment m); intros [= <-] w Hw; cbn [waypoints] in Hw.
  - unfold repaired_waypoints in Hw. apply elem_of_app in Hw as [Hw|Hw].
    + unfold sorted_pickups in Hw. rewrite <- js_sort_perm in Hw.
      by apply list_elem_of_filter in Hw as [_ ?].
    + apply matching_dropoffs_elem_of in Hw.
      by apply list_elem_of_filter in Hw as [_ ?].
  - apply list_elem_of_omap in Hw as (idx & _ & Hidx).
    by eapply list_elem_of_lookup_2.
Qed.

Lemma JsMap_set_keys {V : Type} (m : JsMap.t V) (k : Z) (v : V) (x : Z) :
  x ∈ map fst (JsMap.set m k v) -> x = k \/ x ∈ map fst m.
Proof.
  induction m as [|[k' v'] m IH]; cbn [JsMap.set map fst].
  - intros H. apply list_elem_of_singleton in H. by left.
  - case_decide; cbn [map fst]; intros Hx; apply elem_of_cons in Hx as [->|Hx].
    + right. left.
    + right. by right.
    + right. left.
    + destruct (IH Hx) as [->|?]; [by left | right; by right].
Qed.

Lemma build_sequences_keys (wps : list Waypoint) :
  forall (index : nat) (m : JsMap.t Sequence) (x : Z),
    x ∈ map fst (build_sequences wps index m) ->
    x ∈ map fst m \/ x ∈ map bookingId wps.
Proof.
  induction wps as [|w rest IH]; intros index m x; cbn [build_sequences map].
  - by left.
  - intros H. apply IH in H as [H|H]; [|right; by right].
    apply JsMap_set_keys in H as [->|H]; [right; left|].
    destruct (JsMap.has m (bookingId w)); [by left|].
    apply JsMap_set_keys in H as [->|H]; [right; left | by left].
Qed.

Lemma merge_writes_ids (parentBookingId : Z) (childBookingIds : list Z)
    (tripId : string) (optimizedRoute : option OptimizedRoute) (db : Db) :
  map id (merge_writes parentBookingId childBookingIds tripId optimizedRoute db)
  = map id db.
Proof.
  unfold merge_writes.
  assert (map id
            (foldl (fun d childId =>
                      update_by_id d childId
                        (set_merge_child parentBookingId tripId))
                   (update_by_id db parentBookingId
                      (set_merge_parent childBookingIds tripId optimizedRoute))
                   childBookingIds) = map id db) as Hdb2.
  { rewrite (foldl_update_ids (fun c => c)
               (fun _ => set_merge_child parentBookingId tripId)) by done.
    by apply update_by_id_ids. }
  destruct optimizedRoute as [route|].
  - unfold write_sequences.
    by rewrite (foldl_update_ids fst
                  (fun e => set_sequences (pickupSequence e.2) (dropoffSequence e.2))).
  - by rewrite fallback_sequences_ids.
Qed.

Lemma merge_writes_untouched (parentBookingId : Z) (childBookingIds : list Z)
    (tripId : string) (optimizedRoute : option OptimizedRoute) (db : Db)
    (i : nat) (b : Booking) :
  db !! i = Some b ->
  id b ∉ parentBookingId :: childBookingIds ->
  (forall r w, optimizedRoute = Some r -> w ∈ waypoints r ->
     bookingId w ∈ parentBookingId :: childBookingIds) ->
  merge_writes parentBookingId childBookingIds tripId optimizedRoute db !! i
  = Some b.
Proof.
  intros Hi Hb Hroute. unfold merge_writes.
  pose proof Hb as Hb'. apply not_elem_of_cons in Hb' as [Hp Hc].
  assert (foldl (fun d childId =>
                   update_by_id d childId
                     (set_merge_child parentBookingId tripId))
                (update_by_id db parentBookingId
                   (set_merge_parent childBookingIds tripId optimizedRoute))
                childBookingIds !! i = Some b) as Hdb2.
  { apply (foldl_update_untouched (fun c => c)
             (fun _ => set_merge_child parentBookingId tripId)).
    - by rewrite map_id.
    - by apply update_by_id_untouched. }
  destruct optimizedRoute as [route|].
  - unfold write_sequences.
    apply (foldl_update_untouched fst
             (fun e => set_sequences (pickupSequence e.2) (dropoffSequence e.2)));
      [|done].
    intros Hin. apply build_sequences_keys in Hin as [Hin|Hin].
    + by apply elem_of_nil in Hin.
    + apply list_elem_of_fmap in Hin as (w & Hw & Hin).
      apply Hb. rewrite Hw. by eapply Hroute.
  - by apply fallback_sequences_untouched.
Qed.

(** X3.  The merge handler never adds or deletes a row and never changes an
    identifier, and it leaves every row as it is that belongs to a request
    other than the parent and the children it was called with; this holds
    whether the merge succeeds or not and whatever the optimizer answers. *)
Theorem merge_frame
    (calculateDistance : Q -> Q -> Q -> Q -> Q) (apiKey : string)
    (response : FetchResult) (tripId : string)
    (parentBookingId : Z) (childBookingIds : list Z) (db : Db) :
  let db' := (merge calculateDistance apiKey response tripId
                    parentBookingId childBookingIds db).2 in
  map id db' = map id db
  /\ forall (i : nat) (b : Booking),
       db !! i = Some b ->
       id b ∉ parentBookingId :: childBookingIds ->
       db' !! i = Some b.
Proof.
  unfold merge, db_transaction.
  destruct (_ || _); [done|].
  destruct (merge_callback _ _ _ _ _ _ _) as [res d|msg d] eqn:Hcb; [|done].
  cbn [snd].
  apply merge_callback_inv in Hcb
    as (rows & start & Hrows & _ & Hroute & -> & _).
  split; [apply merge_writes_ids|].
  intros i b Hi Hb. apply merge_writes_untouched; [done..|].
  intros r w Hr Hw. rewrite Hroute in Hr.
  apply (optimizeRoute_waypoints _ _ _ _ _ _ _ Hr) in Hw.
  apply (list_elem_of_fmap_2 bookingId) in Hw.
  change (bookingId <$> ?l) with (map bookingId l) in Hw.
  rewrite build_waypoints_ids, pickup_points_ids, dropoff_points_ids,
    (mapM_select_ids _ _ _ Hrows) in Hw.
  by apply elem_of_app in Hw as [?|?].
Qed.

Lemma merge_frame_witness :
  let db' := (merge planar_distance "AIzaSy-configured-key"
                    (directions_ok [2; 0; 1]%nat (Some "abc"))
                    "TRIP_20240101_000001" 1 [2]
                    (scenario_db ++ [booking_other_type])).2 in
  map id db' = [1; 2; 3]
  /\ db' !! 2%nat = Some booking_other_type.
Proof.
  destruct (merge_frame planar_distance "AIzaSy-configured-key"
              (directions_ok [2; 0; 1]%nat (Some "abc"))
              "TRIP_20240101_000001" 1 [2]
              (scenario_db ++ [booking_other_type])) as [Hids Hrows].
  split; [exact Hids|].
  apply Hrows; [reflexivity|]. intros H. not_in_list H.
Defined.

(** ** No request is merged twice *)




(** ** Sequence numbers are positions in the route *)

Lemma JsMap_get_None {V : Type} (m : JsMap.t V) (k : Z) :
  k ∉ map fst m -> JsMap.get m k = None.
Proof.
  induction m as [|[k' v'] m IH]; cbn [JsMap.get map fst]; [done|].
  intros Hk. apply not_elem_of_cons in Hk as [Hne Hk].
  rewrite decide_False by done. by apply IH.
Qed.

Lemma JsMap_set_NoDup {V : Type} (m : JsMap.t V) (k : Z) (v : V) :
  NoDup (map fst m) -> NoDup (map fst (JsMap.set m k v)).
Proof.
  induction m as [|[k' v'] m IH]; cbn [JsMap.set map fst]; intros Hnd.
  - apply NoDup_singleton.
  - apply NoDup_cons in Hnd as [Hk' Hnd].
    case_decide as Hk; cbn [map fst]; apply NoDup_cons; split; [done..| |by apply IH].
    intros Hin. apply JsMap_set_keys in Hin as [?|?]; done.
Qed.

Lemma build_sequences_NoDup (wps : list Waypoint) :
  forall (index : nat) (m : JsMap.t Sequence),
    NoDup (map fst m) -> NoDup (map fst (build_sequences wps index m)).
Proof.
  induction wps as [|w rest IH]; intros index m Hnd; cbn [build_sequences]; [done|].
  apply IH, JsMap_set_NoDup.
  destruct (JsMap.has m (bookingId w)); [done | by apply JsMap_set_NoDup].
Qed.

Lemma write_sequences_select (sequenceEntries : list (Z * Sequence)) :
  NoDup (map fst sequenceEntries) ->
  forall (db : Db) (x : Z),
    select_by_id (write_sequences db sequenceEntries) x
    = match JsMap.get sequenceEntries x with
      | Some s =>
          set_sequences (pickupSequence s) (dropoffSequence s) <$> select_by_id db x
      | None => select_by_id db x
      end.
Proof.
  unfold write_sequences.
  induction sequenceEntries as [|[k v] rest IH]; intros Hnd db x;
    cbn [foldl JsMap.get map fst]; [done|].
  cbn [map fst] in Hnd. apply NoDup_cons in Hnd as [Hk Hnd].
  rewrite (IH Hnd), select_update by apply set_sequences_id. cbn [fst snd].
  destruct (decide (k = x)) as [<-|Hne].
  - rewrite (JsMap_get_None rest k Hk). by rewrite decide_True.
  - by rewrite decide_False by done.
Qed.

Lemma build_step_default (m : JsMap.t Sequence) (bid y : Z) (d : Sequence) :
  default d (JsMap.get (if JsMap.has m bid then m else JsMap.set m bid d) y)
  = default d (JsMap.get m y).
Proof.
  destruct (JsMap.has m bid) eqn:Hhas; [done|].
  rewrite JsMap_get_set. case_decide as Hy; [subst y|done].
  destruct (JsMap.get m bid) as [s|] eqn:Hget; [|done].
  assert (JsMap.has m bid = true) as Htrue by (apply JsMap_has_true; by eexists).
  congruence.
Qed.

Lemma build_sequences_get (wps : list Waypoint) :
  forall (index : nat) (m : JsMap.t Sequence) (x : Z),
    x ∈ map bookingId wps \/ is_Some (JsMap.get m x) ->
    JsMap.get (build_sequences wps index m) x
    = Some (let previous := default (mkSequence (-1) (-1)) (JsMap.get m x) in
            mkSequence
              (if bool_decide (stop_sequence pickup x wps index = -1)
               then pickupSequence previous
               else stop_sequence pickup x wps index)
              (if bool_decide (stop_sequence dropoff x wps index = -1)
               then dropoffSequence previous
               else stop_sequence dropoff x wps index)).
Proof.
  induction wps as [|w rest IH]; intros index m x Hx.
  - destruct Hx as [Hx|[s Hs]]; [by apply elem_of_nil in Hx|].
    cbn. rewrite Hs. by destruct s.
  - cbn [build_sequences].
    set (m1 := if JsMap.has m (bookingId w) then m
               else JsMap.set m (bookingId w) (mkSequence (-1) (-1))).
    set (updated := match stopType w with
                    | pickup => _
                    | dropoff => _
                    end).
    rewrite IH.
    2:{ rewrite JsMap_get_set.
        destruct (decide (bookingId w = x)) as [Heq|Hne]; [right; by eexists|].
        destruct Hx as [Hx|Hx].
        - cbn [map] in Hx. apply elem_of_cons in Hx as [?|?]; [done | by left].
        - right. subst m1. destruct (JsMap.has m (bookingId w)); [done|].
          rewrite JsMap_get_set. by rewrite decide_False. }
    f_equal. cbn zeta. rewrite JsMap_get_set. cbn [stop_sequence].
    pose proof (build_step_default m (bookingId w) x (mkSequence (-1) (-1))) as Hm1.
    pose proof (build_step_default m (bookingId w) (bookingId w)
                  (mkSequence (-1) (-1))) as Hself.
    fold m1 in Hm1, Hself.
    destruct (decide (bookingId w = x)) as [Heq|Hne].
    + subst x. cbn [default]. subst updated. rewrite Hself.
      rewrite (bool_decide_eq_true_2 (bookingId w = bookingId w)) by done.
      rewrite !andb_true_r.
      destruct (stopType w); cbn [pickupSequence dropoffSequence];
        repeat case_bool_decide; try done; try lia; f_equal; lia.
    + rewrite Hm1.
      rewrite (bool_decide_eq_false_2 (bookingId w = x)) by done.
      rewrite !andb_false_r.
      repeat case_bool_decide; try done; try lia; f_equal; lia.
Qed.

Lemma stop_sequence_spec (t : StopType) (x : Z) (wps : list Waypoint) :
  forall index : nat,
    (stop_sequence t x wps index = -1
     /\ forall w, w ∈ wps -> ~ (stopType w = t /\ bookingId w = x))
    \/ exists (i : nat) (w : Waypoint),
         stop_sequence t x wps index = Z.of_nat (index + i)
         /\ wps !! i = Some w /\ stopType w = t /\ bookingId w = x.
Proof.
  induction wps as [|w rest IH]; intros index; cbn [stop_sequence].
  - left. split; [done|]. intros w Hw. by apply elem_of_nil in Hw.
  - destruct (IH (S index)) as [[Hnone Hall]|(i & w' & Hs & Hi & Ht & Hb)].
    + rewrite Hnone, bool_decide_eq_true_2 by done.
      destruct (bool_decide (stopType w = t) && bool_decide (bookingId w = x))
        eqn:Hhere.
      * right. exists 0%nat, w. apply andb_true_iff in Hhere as [H1 H2].
        apply bool_decide_eq_true in H1, H2.
        split; [f_equal; lia | done].
      * left. split; [done|]. intros w' Hw'.
        apply elem_of_cons in Hw' as [->|Hw']; [|by apply Hall].
        intros [H1 H2]. apply andb_false_iff in Hhere as [H|H];
          apply bool_decide_eq_false in H; done.
    + right. exists (S i), w'. rewrite Hs.
      rewrite bool_decide_eq_false_2 by lia.
      split; [f_equal; lia | done].
Qed.

(** The sequence numbers that a merge writes, read off the route. *)
Lemma merge_writes_sequences (parentBookingId : Z) (childBookingIds : list Z)
    (tripId : string) (r : OptimizedRoute) (db : Db) (x : Z) (b0 : Booking) :
  select_by_id db x = Some b0 ->
  x ∈ map bookingId (waypoints r) ->
  exists b : Booking,
    select_by_id (merge_writes parentBookingId childBookingIds tripId (Some r) db) x
    = Some b
    /\ pickup_sequence b = Some (stop_sequence pickup x (waypoints r) 0)
    /\ dropoff_sequence b = Some (stop_sequence dropoff x (waypoints r) 0).
Proof.
  intros Hb0 Hx. unfold merge_writes.
  rewrite write_sequences_select
    by (apply build_sequences_NoDup; cbn; apply NoDup_nil_2).
  unfold JsMap.entries. rewrite build_sequences_get by (by left).
  destruct (merge_children_is_Some parentBookingId tripId childBookingIds
              (update_by_id db parentBookingId
                 (set_merge_parent childBookingIds tripId (Some r))) x) as [b2 Hb2].
  { apply select_update_is_Some; [done | by eexists]. }
  rewrite Hb2. eexists. split; [reflexivity|].
  cbn. split; f_equal; by case_bool_decide.
Qed.

(** X5.  After a successful merge that has a route, the sequence numbers
    stored for a request of the route are the positions of its pickup and of
    its dropoff in the waypoint list of the route, and [-1] for a stop that
    the list does not have; a request that has no stop in the list keeps the
    sequence numbers it had. *)
Theorem merge_sequences_are_positions
    (calculateDistance : Q -> Q -> Q -> Q -> Q) (apiKey : string)
    (response : FetchResult) (tripId : string)
    (parentBookingId : Z) (childBookingIds : list Z) (db db' : Db)
    (reply : HttpReply MergeResult) (result : MergeResult) (r : OptimizedRoute) :
  merge calculateDistance apiKey response tripId
        parentBookingId childBookingIds db = (reply, db') ->
  data reply = Some result ->
  ts_route (mr_trip result) = Some r ->
  (forall x, x ∈ map bookingId (waypoints r) ->
     exists b : Booking,
       select_by_id db' x = Some b
       /\ pickup_sequence b = Some (stop_sequence pickup x (waypoints r) 0)
       /\ dropoff_sequence b = Some (stop_sequence dropoff x (waypoints r) 0))
  /\ (forall x, x ∉ map bookingId (waypoints r) ->
        pickup_sequence <$> select_by_id db' x = pickup_sequence <$> select_by_id db x
        /\ dropoff_sequence <$> select_by_id db' x
           = dropoff_sequence <$> select_by_id db x).
Proof.
  intros Hmerge Hdata Hroute.
  pose proof (merge_success _ _ _ _ _ _ _ _ _ _ Hmerge Hdata) as Hcb.
  apply merge_callback_inv in Hcb
    as (rows & start & Hrows & _ & Hopt & -> & _).
  rewrite Hroute in Hopt |- *. symmetry in Hopt. split.
  - intros x Hx.
    assert (x ∈ parentBookingId :: childBookingIds) as Hgroup.
    { apply list_elem_of_fmap in Hx as (w & -> & Hw).
      apply (optimizeRoute_waypoints _ _ _ _ _ _ _ Hopt) in Hw.
      apply (list_elem_of_fmap_2 bookingId) in Hw.
      change (bookingId <$> ?l) with (map bookingId l) in Hw.
      rewrite build_waypoints_ids, pickup_points_ids, dropoff_points_ids,
        (mapM_select_ids _ _ _ Hrows) in Hw.
      by apply elem_of_app in Hw as [?|?]. }
    apply mapM_Some in Hrows.
    apply list_elem_of_lookup in Hgroup as [i Hi].
    destruct (Forall2_lookup_l _ _ _ _ _ Hrows Hi) as (b0 & _ & Hb0).
    by apply (merge_writes_sequences _ _ _ _ _ _ b0).
  - intros x Hx. unfold merge_writes.
    rewrite write_sequences_select
      by (apply build_sequences_NoDup; cbn; apply NoDup_nil_2).
    rewrite JsMap_get_None.
    2:{ intros Hin. apply build_sequences_keys in Hin as [Hin|Hin]; [|done].
        by apply elem_of_nil in Hin. }
    split.
    + rewrite (foldl_update_column pickup_sequence (fun c => c)
                 (fun _ => set_merge_child parentBookingId tripId)) by done.
      by apply select_update_column.
    + rewrite (foldl_update_column dropoff_sequence (fun c => c)
                 (fun _ => set_merge_child parentBookingId tripId)) by done.
      by apply select_update_column.
Qed.

Lemma merge_sequences_are_positions_witness :
  let run :=
    merge planar_distance "AIzaSy-configured-key"
          (directions_ok [0; 1; 2]%nat (Some "abc"))
          "TRIP_20240101_000001" 1 [2] scenario_db in
  exists (result : MergeResult) (r : OptimizedRoute),
    data run.1 = Some result
    /\ ts_route (mr_trip result) = Some r
    /\ (forall x, x ∈ map bookingId (waypoints r) ->
          exists b : Booking,
            select_by_id run.2 x = Some b
            /\ pickup_sequence b = Some (stop_sequence pickup x (waypoints r) 0)
            /\ dropoff_sequence b = Some (stop_sequence dropoff x (waypoints r) 0))
    /\ (forall x, x ∉ map bookingId (waypoints r) ->
          pickup_sequence <$> select_by_id run.2 x
          = pickup_sequence <$> select_by_id scenario_db x
          /\ dropoff_sequence <$> select_by_id run.2 x
             = dropoff_sequence <$> select_by_id scenario_db x).
Proof.
  intros run.
  destruct (data run.1) as [result|] eqn:Hdata; [|vm_compute in Hdata; discriminate].
  destruct (ts_route (mr_trip result)) as [r|] eqn:Hroute.
  2:{ vm_compute in Hdata. injection Hdata as <-. discriminate Hroute. }
  exists result, r. split; [reflexivity|]. split; [exact Hroute|].
  exact (merge_sequences_are_positions planar_distance "AIzaSy-configured-key"
           (directions_ok [0; 1; 2]%nat (Some "abc"))
           "TRIP_20240101_000001" 1 [2] scenario_db _ _ result r
           (surjective_pairing _) Hdata Hroute).
Defined.

(** ** Sequence numbers of a repaired route *)

Lemma optimizeRoute_repaired
    (calculateDistance : Q -> Q -> Q -> Q -> Q) (apiKey : string)
    (directions : DirectionsData) (route : DirectionsRoute)
    (others : list DirectionsRoute)
    (pickupPoints dropoffPoints : list Point) (startLocation : LatLng) :
  apiKey <> "" ->
  dropoffPoints <> [] ->
  data_status directions = "OK" ->
  routes directions = route :: others ->
  repair_branch (build_waypoints pickupPoints dropoffPoints) route ->
  exists r : OptimizedRoute,
    optimizeRoute calculateDistance apiKey (HttpResponse true directions)
                  pickupPoints dropoffPoints startLocation = Some r
    /\ waypoints r = repaired_waypoints calculateDistance startLocation
                       (build_waypoints pickupPoints dropoffPoints).
Proof.
  intros Hkey Hdrop Hstatus Hroutes (m & Hrun & Hadj).
  unfold optimizeRoute.
  rewrite bool_decide_eq_false_2 by done.
  rewrite bool_decide_eq_false_2.
  2:{ unfold build_waypoints. rewrite length_app, !length_map.
      destruct dropoffPoints; [done | simpl; lia]. }
  assert (is_Some (last dropoffPoints)) as [d Hlast].
  { destruct dropoffPoints as [|p l]; [done|].
    rewrite last_cons. destruct (last l); by eexists. }
  rewrite Hlast. simpl. rewrite (bool_decide_eq_true_2 _ Hstatus). simpl.
  rewrite Hroutes, Hrun, Hadj.
  eexists. split; reflexivity.
Qed.

(** In a list of pickups followed by as many dropoffs, a booking that has a
    stop in each part gets a pickup number in the first half and a dropoff
    number in the second. *)
Lemma stop_sequence_halves (P D : list Waypoint) (x : Z) :
  Forall (fun w => stopType w = pickup) P ->
  Forall (fun w => stopType w = dropoff) D ->
  x ∈ map bookingId P -> x ∈ map bookingId D ->
  0 <= stop_sequence pickup x (P ++ D) 0 < Z.of_nat (length P)
  /\ Z.of_nat (length P) <= stop_sequence dropoff x (P ++ D) 0
     < Z.of_nat (length P + length D).
Proof.
  intros HP HD HxP HxD.
  apply list_elem_of_fmap in HxP as (wp & Hwp & HinP).
  apply list_elem_of_fmap in HxD as (wd & Hwd & HinD).
  rewrite Forall_forall in HP, HD. split.
  - destruct (stop_sequence_spec pickup x (P ++ D) 0)
      as [[_ Hnone]|(i & w & -> & Hi & Ht & _)].
    + exfalso. apply (Hnone wp); [apply elem_of_app; by left|].
      split; [by apply HP | done].
    + destruct (decide (i < length P)%nat) as [Hlt|Hge]; [lia|]. exfalso.
      rewrite lookup_app_r in Hi by lia.
      apply list_elem_of_lookup_2 in Hi. apply HD in Hi. congruence.
  - destruct (stop_sequence_spec dropoff x (P ++ D) 0)
      as [[_ Hnone]|(i & w & -> & Hi & Ht & _)].
    + exfalso. apply (Hnone wd); [apply elem_of_app; by right|].
      split; [by apply HD | done].
    + pose proof (lookup_lt_Some _ _ _ Hi) as Hlen. rewrite length_app in Hlen.
      destruct (decide (i < length P)%nat) as [Hlt|Hge]; [|lia]. exfalso.
      rewrite lookup_app_l in Hi by lia.
      apply list_elem_of_lookup_2 in Hi. apply HP in Hi. congruence.
Qed.

Lemma repaired_waypoints_halves
    (calculateDistance : Q -> Q -> Q -> Q -> Q) (startLocation : LatLng)
    (allBookings : list Booking) (x : Z) :
  let wps := build_waypoints (pickup_points allBookings) (dropoff_points allBookings) in
  let N := Z.of_nat (length allBookings) in
  x ∈ map id allBookings ->
  0 <= stop_sequence pickup x
         (repaired_waypoints calculateDistance startLocation wps) 0 < N
  /\ N <= stop_sequence dropoff x
            (repaired_waypoints calculateDistance startLocation wps) 0 < 2 * N.
Proof.
  intros wps N Hx. unfold repaired_waypoints.
  set (P := sorted_pickups calculateDistance startLocation wps).
  set (dl := filter (fun wp => stopType wp = dropoff) wps).
  assert (Permutation P (filter (fun wp => stopType wp = pickup) wps)) as HpermP.
  { unfold P, sorted_pickups. symmetry. apply js_sort_perm. }
  assert (map bookingId (filter (fun wp => stopType wp = pickup) wps)
          = map id allBookings) as Hpids.
  { unfold wps. rewrite filter_pickup_waypoints, <- list_fmap_compose.
    unfold pickup_points. by rewrite <- list_fmap_compose. }
  assert (map bookingId dl = map id allBookings) as Hdids.
  { unfold dl, wps. rewrite filter_dropoff_waypoints, <- list_fmap_compose.
    unfold dropoff_points. by rewrite <- list_fmap_compose. }
  assert (Permutation (map bookingId P) (map id allBookings)) as HidsP.
  { rewrite <- Hpids. by apply Permutation_map. }
  assert (map bookingId (matching_dropoffs (map bookingId P) dl) = map bookingId P)
    as HidsD.
  { apply matching_dropoffs_ids. rewrite Hdids. intros y Hy. by rewrite <- HidsP. }
  assert (length P = length allBookings) as HlenP.
  { rewrite <- (length_map bookingId P), <- (length_map id allBookings).
    by apply Permutation_length. }
  assert (length (matching_dropoffs (map bookingId P) dl) = length allBookings)
    as HlenD.
  { rewrite <- (length_map bookingId (matching_dropoffs _ _)), HidsD, length_map.
    done. }
  destruct (stop_sequence_halves P (matching_dropoffs (map bookingId P) dl) x)
    as [Hp Hd].
  - rewrite HpermP. apply Forall_forall. intros w Hw.
    by apply list_elem_of_filter in Hw as [? _].
  - apply matching_dropoffs_stopType. apply Forall_forall. intros w Hw.
    by apply list_elem_of_filter in Hw as [? _].
  - by rewrite HidsP.
  - by rewrite HidsD, HidsP.
  - rewrite HlenP, HlenD in *. subst N. lia.
Qed.

(** X6.  When the merge handler gets a route from the repair heuristic, every
    member of the trip ends with [0 <= pickup_sequence < N <= dropoff_sequence
    < 2 N], where [N] is the number of members: each pickup comes before the
    dropoff of the same request, and all pickups come before all dropoffs. *)
Theorem merge_repaired_sequences
    (calculateDistance : Q -> Q -> Q -> Q -> Q) (apiKey : string)
    (directions : DirectionsData) (route : DirectionsRoute)
    (others : list DirectionsRoute) (tripId : string)
    (parentBookingId : Z) (childBookingIds : list Z) (db db' : Db)
    (reply : HttpReply MergeResult) (result : MergeResult)
    (allBookings : list Booking) :
  let N := Z.of_nat (length (parentBookingId :: childBookingIds)) in
  merge calculateDistance apiKey (HttpResponse true directions) tripId
        parentBookingId childBookingIds db = (reply, db') ->
  data reply = Some result ->
  apiKey <> "" ->
  data_status directions = "OK" ->
  routes directions = route :: others ->
  mapM (select_by_id db) (parentBookingId :: childBookingIds) = Some allBookings ->
  repair_branch
    (build_waypoints (pickup_points allBookings) (dropoff_points allBookings))
    route ->
  forall x, x ∈ parentBookingId :: childBookingIds ->
    exists (b : Booking) (pickupSeq dropoffSeq : Z),
      select_by_id db' x = Some b
      /\ pickup_sequence b = Some pickupSeq
      /\ dropoff_sequence b = Some dropoffSeq
      /\ 0 <= pickupSeq < N
      /\ N <= dropoffSeq < 2 * N.
Proof.
  intros N Hmerge Hdata Hkey Hstatus Hroutes Hrows Hrepair x Hx.
  pose proof (merge_success _ _ _ _ _ _ _ _ _ _ Hmerge Hdata) as Hcb.
  apply merge_callback_inv in Hcb
    as (rows & start & Hrows' & _ & Hopt & -> & _).
  assert (rows = allBookings) as -> by congruence.
  pose proof (mapM_select_ids _ _ _ Hrows) as Hids.
  destruct (optimizeRoute_repaired calculateDistance apiKey directions route others
              (pickup_points allBookings) (dropoff_points allBookings) start)
    as (r & Hr & Hwps); [done| |done..|].
  { destruct allBookings; [|done]. apply mapM_Some, Forall2_length in Hrows.
    done. }
  rewrite Hopt, Hr.
  assert (length allBookings = length (parentBookingId :: childBookingIds)) as Hlen.
  { by rewrite <- Hids, length_map. }
  destruct (repaired_waypoints_halves calculateDistance start allBookings x)
    as [Hp Hd]; [by rewrite Hids|].
  rewrite <- Hwps, Hlen in Hp, Hd.
  apply mapM_Some in Hrows.
  pose proof Hx as Hx'. apply list_elem_of_lookup in Hx' as [i Hi].
  destruct (Forall2_lookup_l _ _ _ _ _ Hrows Hi) as (b0 & _ & Hb0).
  destruct (merge_writes_sequences parentBookingId childBookingIds tripId r db x b0)
    as (b & Hb & Hbp & Hbd); [done| |].
  { rewrite Hwps. unfold repaired_waypoints. rewrite map_app.
    apply elem_of_app. left. unfold sorted_pickups.
    rewrite <- (Permutation_map bookingId (js_sort_perm _ _)).
    rewrite filter_pickup_waypoints, <- list_fmap_compose.
    unfold pickup_points. rewrite <- list_fmap_compose.
    pose proof Hx as Hx2. rewrite <- Hids in Hx2. exact Hx2. }
  exists b, (stop_sequence pickup x (waypoints r) 0),
    (stop_sequence dropoff x (waypoints r) 0).
  split; [done|]. split; [done|]. split; [done|]. done.
Qed.

Lemma merge_repaired_sequences_witness :
  let run :=
    merge planar_distance "AIzaSy-configured-key"
          (directions_ok [2; 0; 1]%nat (Some "abc"))
          "TRIP_20240101_000001" 1 [2] scenario_db in
  exists (b : Booking) (pickupSeq dropoffSeq : Z),
    select_by_id run.2 2 = Some b
    /\ pickup_sequence b = Some pickupSeq
    /\ dropoff_sequence b = Some dropoffSeq
    /\ 0 <= pickupSeq < 2
    /\ 2 <= dropoffSeq < 2 * 2.
Proof.
  intros run.
  destruct (data run.1) as [result|] eqn:Hdata; [|vm_compute in Hdata; discriminate].
  apply (merge_repaired_sequences planar_distance "AIzaSy-configured-key"
           (data_ok [2; 0; 1]%nat (Some "abc"))
           (route_of [2; 0; 1]%nat (Some "abc")) []
           "TRIP_20240101_000001" 1 [2] scenario_db _ _ result scenario_db
           (surjective_pairing _) Hdata).
  - discriminate.
  - reflexivity.
  - reflexivity.
  - reflexivity.
  - eexists. split; [vm_compute; reflexivity|]. vm_compute. reflexivity.
  - right. left.
Defined.

(** * Further properties of the route sequencer *)

Lemma last_index_Some (P : nat -> bool) (order : list nat) :
  forall (k p : nat),
    last_index P order k = Some p ->
    exists (j x : nat), p = (k + j)%nat /\ order !! j = Some x /\ P x = true.
Proof.
  induction order as [|y rest IH]; intros k p; cbn [last_index]; [done|].
  destruct (last_index P rest (S k)) as [q|] eqn:Hrest.
  - intros [= <-]. destruct (IH _ _ Hrest) as (j & x & -> & Hj & Hx).
    exists (S j), x. split; [lia | done].
  - destruct (P y) eqn:Hy; [|done]. intros [= <-].
    exists 0%nat, y. split; [lia | done].
Qed.

Lemma apply_order_in_range (wps : list Waypoint) (order : list nat) :
  forall (k : nat) (m m' : JsMap.t Mapping),
    apply_order wps order k m = Some m' ->
    Forall (fun idx => idx < length wps)%nat order.
Proof.
  induction order as [|idx rest IH]; intros k m m'; cbn [apply_order]; [done|].
  destruct (wps !! idx) as [w|] eqn:Hidx; [|done].
  destruct (JsMap.get m (bookingId w)); [|done].
  intros Hrest. constructor; [by eapply lookup_lt_Some | by eapply IH].
Qed.

Lemma omap_lookup_in_range (wps : list Waypoint) (order : list nat) :
  Forall (fun idx => idx < length wps)%nat order ->
  forall j : nat,
    omap (fun idx => wps !! idx) order !! j = order !! j ≫= (fun idx => wps !! idx).
Proof.
  induction 1 as [|idx rest Hidx _ IH]; intros j; [done|].
  apply lookup_lt_is_Some_2 in Hidx as [w Hw].
  change (omap (fun idx => wps !! idx) (idx :: rest))
    with (match wps !! idx with
          | Some w => w :: omap (fun idx => wps !! idx) rest
          | None => omap (fun idx => wps !! idx) rest
          end).
  rewrite Hw. destruct j as [|j]; cbn; [done | apply IH].
Qed.

Lemma optimizeRoute_accepted
    (calculateDistance : Q -> Q -> Q -> Q -> Q) (apiKey : string) (ok : bool)
    (directions : DirectionsData) (route : DirectionsRoute)
    (others : list DirectionsRoute)
    (pickupPoints dropoffPoints : list Point) (startLocation : LatLng)
    (r : OptimizedRoute) :
  let wps := build_waypoints pickupPoints dropoffPoints in
  let order := default [] (waypoint_order route) in
  routes directions = route :: others ->
  optimizeRoute calculateDistance apiKey (HttpResponse ok directions)
                pickupPoints dropoffPoints startLocation = Some r ->
  ~ repair_branch wps route ->
  exists m : JsMap.t Mapping,
    apply_order wps order 0 (init_sequenceMap wps) = Some m
    /\ requiresAdjustment m = false
    /\ waypoints r = omap (fun idx => wps !! idx) order.
Proof.
  intros wps order Hroutes Hrun Hnot. unfold optimizeRoute in Hrun.
  fold wps in Hrun.
  destruct (bool_decide (apiKey = "")); [done|].
  destruct (bool_decide (length wps < 1)%nat); [done|].
  destruct (last dropoffPoints); [|done].
  destruct ok; [|done]. simpl in Hrun.
  destruct (bool_decide (data_status directions = "OK")); [|done]. simpl in Hrun.
  rewrite Hroutes in Hrun. fold order in Hrun.
  destruct (apply_order wps order 0 (init_sequenceMap wps)) as [m|] eqn:Hm; [|done].
  destruct (requiresAdjustment m) eqn:Hadj.
  - exfalso. apply Hnot. by exists m.
  - injection Hrun as <-. by exists m.
Qed.

(** X7.  When [optimizeRoute] accepts the order of the optimizer, every
    dropoff of the returned list is preceded by the pickup of the same booking
    (the bookings being distinct, and the order a list of distinct indices).
    *)
Theorem accepted_order_pickup_first
    (calculateDistance : Q -> Q -> Q -> Q -> Q) (apiKey : string) (ok : bool)
    (directions : DirectionsData) (route : DirectionsRoute)
    (others : list DirectionsRoute)
    (pickupPoints dropoffPoints : list Point) (startLocation : LatLng)
    (r : OptimizedRoute) :
  let wps := build_waypoints pickupPoints dropoffPoints in
  routes directions = route :: others ->
  optimizeRoute calculateDistance apiKey (HttpResponse ok directions)
                pickupPoints dropoffPoints startLocation = Some r ->
  ~ repair_branch wps route ->
  NoDup (map pt_bookingId pickupPoints) ->
  NoDup (map pt_bookingId dropoffPoints) ->
  NoDup (default [] (waypoint_order route)) ->
  forall (j : nat) (wj : Waypoint),
    waypoints r !! j = Some wj -> stopType wj = dropoff ->
    exists (i : nat) (wi : Waypoint),
      (i < j)%nat /\ waypoints r !! i = Some wi
      /\ stopType wi = pickup /\ bookingId wi = bookingId wj.
Proof.
  intros wps Hroutes Hrun Hnot Hndp Hndd Hndo j wj Hj Hdrop.
  destruct (optimizeRoute_accepted _ _ _ _ _ _ _ _ _ _ Hroutes Hrun Hnot)
    as (m & Hm & Hadj & Hwps).
  fold wps in Hm, Hwps. set (order := default [] (waypoint_order route)) in *.
  pose proof (apply_order_in_range _ _ _ _ _ Hm) as Hrange.
  rewrite Hwps, (omap_lookup_in_range wps order Hrange) in Hj.
  destruct (order !! j) as [idx|] eqn:Hidx; [|done]. cbn in Hj.
  set (b := bookingId wj).
  assert (is_stop wps dropoff b idx = true) as Hstop.
  { unfold is_stop. rewrite Hj. by rewrite !bool_decide_eq_true_2. }
  assert (last_index (is_stop wps dropoff b) order 0 = Some j) as Hlast.
  { apply (last_index_unique _ order 0 j idx Hidx Hstop).
    intros j' x' Hj' Hx'.
    assert (x' = idx) as -> by exact (is_stop_unique _ _ _ _ _ _ Hndp Hndd Hx' Hstop).
    exact (NoDup_lookup _ _ _ _ Hndo Hj' Hidx). }
  pose proof (apply_order_get wps order 0 _ _ b (mkMapping None None) Hm) as Hget.
  rewrite Hlast in Hget. cbn [pickupIndex dropoffIndex] in Hget.
  specialize (Hget (init_sequenceMap_get wps wj (list_elem_of_lookup_2 _ _ _ Hj))).
  apply JsMap_get_entry in Hget.
  unfold requiresAdjustment in Hadj.
  assert (index_gt
            (match last_index (is_stop wps pickup b) order 0 with
             | Some p => Some p
             | None => None
             end) (Some j) = false) as Hgt.
  { destruct (index_gt _ (Some j)) eqn:E; [|done].
    assert (existsb (fun entry => index_gt (pickupIndex entry.2) (dropoffIndex entry.2))
                    (JsMap.entries m) = true) as Hex; [|congruence].
    apply existsb_exists. eexists. split; [apply list_elem_of_In, Hget|].
    exact E. }
  destruct (last_index (is_stop wps pickup b) order 0) as [i|] eqn:Hpick; [|done].
  cbn in Hgt. apply bool_decide_eq_false in Hgt.
  destruct (last_index_Some _ _ _ _ Hpick) as (i' & x & -> & Hi & Hx).
  cbn [Nat.add] in *. unfold is_stop in Hx.
  destruct (wps !! x) as [wi|] eqn:Hwi; [|done].
  apply andb_true_iff in Hx as [Ht Hb]. apply bool_decide_eq_true in Ht, Hb.
  exists i', wi. split; [|split; [|done]].
  - destruct (decide (i' = j)) as [->|Hne]; [|lia].
    exfalso. rewrite Hidx in Hi. simplify_eq. congruence.
  - rewrite Hwps, (omap_lookup_in_range wps order Hrange), Hi. exact Hwi.
Qed.

Lemma accepted_order_pickup_first_witness :
  exists r : OptimizedRoute,
    optimizeRoute planar_distance "AIzaSy-configured-key"
                  (directions_ok [0; 1; 2]%nat (Some "abc"))
                  scenario_pickups scenario_dropoffs P_pickup = Some r
    /\ exists (i : nat) (wi : Waypoint),
         (i < 2)%nat /\ waypoints r !! i = Some wi
         /\ stopType wi = pickup /\ bookingId wi = 1.
Proof.
  destruct (optimizeRoute planar_distance "AIzaSy-configured-key"
              (directions_ok [0; 1; 2]%nat (Some "abc"))
              scenario_pickups scenario_dropoffs P_pickup) as [r|] eqn:Hrun;
    [|vm_compute in Hrun; discriminate].
  exists r. split; [reflexivity|].
  apply (accepted_order_pickup_first planar_distance "AIzaSy-configured-key" true
           (data_ok [0; 1; 2]%nat (Some "abc"))
           (route_of [0; 1; 2]%nat (Some "abc")) []
           scenario_pickups scenario_dropoffs P_pickup r eq_refl Hrun)
    with (j := 2%nat) (wj := mkWaypoint P_dropoff dropoff 1).
  - intros (m & Hm & Hadj). vm_compute in Hm. injection Hm as <-.
    vm_compute in Hadj. discriminate Hadj.
  - apply (bool_decide_unpack _). vm_compute. exact I.
  - apply (bool_decide_unpack _). vm_compute. exact I.
  - apply (bool_decide_unpack _). vm_compute. exact I.
  - vm_compute in Hrun. injection Hrun as <-. reflexivity.
  - reflexivity.
Defined.

(** X8.  [optimizeRoute] returns a route exactly when an API key is
    configured, the request has a dropoff point, the optimizer answers with
    HTTP success, status ["OK"] and at least one route, and every index of the
    order it gives lies within the waypoints of the request; in every other
    case, among them a failed request and an index out of range, the result is
    null. *)
Theorem optimizeRoute_returns_iff
    (calculateDistance : Q -> Q -> Q -> Q -> Q) (apiKey : string)
    (response : FetchResult) (pickupPoints dropoffPoints : list Point)
    (startLocation : LatLng) :
  is_Some (optimizeRoute calculateDistance apiKey response
                         pickupPoints dropoffPoints startLocation)
  <-> apiKey <> ""
      /\ dropoffPoints <> []
      /\ exists (directions : DirectionsData) (route : DirectionsRoute)
                (others : list DirectionsRoute),
           response = HttpResponse true directions
           /\ data_status directions = "OK"
           /\ routes directions = route :: others
           /\ Forall (fun idx =>
                        idx < length (build_waypoints pickupPoints dropoffPoints))%nat
                     (default [] (waypoint_order route)).
Proof.
  unfold optimizeRoute. set (wps := build_waypoints pickupPoints dropoffPoints).
  split.
  - case_bool_decide as Hkey; [by intros [? ?]|].
    case_bool_decide as Hlen; [by intros [? ?]|].
    destruct (last dropoffPoints) as [d|] eqn:Hlast; [|by intros [? ?]].
    destruct response as [|ok directions]; [by intros [? ?]|].
    destruct ok; [|by intros [? ?]]. cbn [negb].
    case_bool_decide as Hstatus; [|by intros [? ?]]. cbn [negb].
    destruct (routes directions) as [|route others] eqn:Hroutes; [by intros [? ?]|].
    destruct (apply_order _ _ _ _) as [m|] eqn:Hm; [|by intros [? ?]].
    intros _. split; [done|]. split; [by intros ->|].
    exists directions, route, others. repeat split; [done..|].
    by eapply apply_order_in_range.
  - intros (Hkey & Hdrop & directions & route & others & -> & Hstatus & Hroutes & Hrange).
    rewrite bool_decide_eq_false_2 by done.
    rewrite bool_decide_eq_false_2.
    2:{ unfold wps, build_waypoints. rewrite length_app, !length_map.
        destruct dropoffPoints; [done | simpl; lia]. }
    assert (is_Some (last dropoffPoints)) as [d Hlast].
    { destruct dropoffPoints as [|p l]; [done|].
      rewrite last_cons. destruct (last l); by eexists. }
    rewrite Hlast. cbn [negb]. rewrite (bool_decide_eq_true_2 _ Hstatus). cbn [negb].
    rewrite Hroutes.
    destruct (apply_order_total wps (default [] (waypoint_order route)) 0
                (init_sequenceMap wps) Hrange) as [m Hm].
    { intros w Hw. rewrite init_sequenceMap_get by done. by eexists. }
    rewrite Hm. by destruct (requiresAdjustment m).
Qed.

(** * Further properties of the unmerge handler *)

Section UnmergeFacts.
Variable id_fits : Z -> bool.
Variable failedQuery : Z -> string.

(** X9.  The unmerge handler succeeds exactly when the identifier is a number,
    the booking exists, is flagged [is_merged] and has a [parent_booking_id];
    otherwise it leaves the table as it is.  It answers 400 for an identifier
    that is no number and for a booking that is not such a merged one, 404
    for a number that the id column can hold and no booking has, and 500 with
    the driver's message for a number that the column cannot hold. *)
Theorem unmerge_succeeds_iff (bookingId : option Z) (user : option string) (db : Db) :
  let run := unmerge id_fits failedQuery bookingId user db in
  (success run.1 = true
   <-> exists (x : Z) (b : Booking),
         bookingId = Some x /\ select_by_id db x = Some b
         /\ is_merged b = true /\ truthy (parent_booking_id b) = true)
  /\ (success run.1 = false -> run.2 = db)
  /\ http_status run.1
     = match bookingId with
       | None => 400
       | Some x =>
           match select_by_id db x with
           | None => if id_fits x then 404 else 500
           | Some b =>
               if is_merged b && truthy (parent_booking_id b) then 200 else 400
           end
       end
  /\ (forall x, bookingId = Some x -> select_by_id db x = None ->
        id_fits x = false -> message run.1 = failedQuery x).
Proof.
  unfold unmerge, db_transaction.
  destruct bookingId as [x|].
  2:{ split; [split; [done | by intros (? & ? & ? & _)]|]. done. }
  destruct (select_by_id db x) as [b|] eqn:Hb.
  2:{ destruct (id_fits x) eqn:Hfits.
      - split; [split; [done | intros (? & ? & [= <-] & ? & _); congruence]|].
        split; [done|]. split; [done|]. intros ? [= <-] _ ?. congruence.
      - split; [split; [done | intros (? & ? & [= <-] & ? & _); congruence]|].
        split; [done|]. split; [done|]. by intros ? [= <-] _ _. }
  destruct (is_merged b) eqn:Hm; cbn [negb orb andb].
  2:{ split; [split; [done|]|].
      - intros (? & b' & [= <-] & Hb' & Hm' & _). congruence.
      - split; [done|]. split; [done|]. intros ? [= <-] ?. congruence. }
  destruct (truthy (parent_booking_id b)) eqn:Ht; cbn [negb].
  2:{ split; [split; [done|]|].
      - intros (? & b' & [= <-] & Hb' & _ & Ht'). congruence.
      - split; [done|]. split; [done|]. intros ? [= <-] ?. congruence. }
  rewrite count_is_never_zero. cbn [fst snd success http_status].
  split; [split; [intros _|done]; by exists x, b|].
  split; [done|]. split; [done|]. intros ? [= <-] ?. congruence.
Qed.

(** X10.  A booking that has been unmerged cannot be unmerged a second time:
    the second call answers 400 and changes nothing. *)
Theorem unmerge_twice_refused (bookingId : Z) (user user2 : option string) (db : Db) :
  success (unmerge id_fits failedQuery (Some bookingId) user db).1 = true ->
  unmerge id_fits failedQuery (Some bookingId) user2
          (unmerge id_fits failedQuery (Some bookingId) user db).2
  = (mkHttpReply 400 false
       ("Booking with ID " +:+ pretty bookingId +:+ " is not part of a merged trip")
       None,
     (unmerge id_fits failedQuery (Some bookingId) user db).2).
Proof.
  intros Hok.
  apply unmerge_success in Hok as (x & b & [= <-] & Hb & Hm & Ht).
  destruct (unmerge_resets_child id_fits failedQuery bookingId user db b Hb Hm Ht)
    as (_ & b' & Hb' & Hm' & _).
  set (db' := (unmerge id_fits failedQuery (Some bookingId) user db).2) in *.
  unfold unmerge at 1. by rewrite Hb', Hm'.
Qed.

(** X11.  The unmerge handler never cleans up the parent.  It compares the
    count of the merged bookings that still refer to the parent, which the
    driver returns as a string, with the number 0; so when a merged booking
    with a parent is unmerged, every row but its own stays as it is, the
    parent's among them, whether or not another merged booking refers to the
    parent. *)
Theorem unmerge_leaves_parent (bookingId : Z) (user : option string) (db : Db)
    (b : Booking) (p : Z) :
  let db' := (unmerge id_fits failedQuery (Some bookingId) user db).2 in
  select_by_id db bookingId = Some b ->
  is_merged b = true ->
  parent_booking_id b = Some p ->
  p <> 0 ->
  p <> bookingId ->
  success (unmerge id_fits failedQuery (Some bookingId) user db).1 = true
  /\ select_by_id db' p = select_by_id db p
  /\ (forall (i : nat) (r : Booking),
        db !! i = Some r -> id r <> bookingId -> db' !! i = Some r).
Proof.
  intros db' Hb Hm Hp Hp0 Hne. subst db'.
  unfold unmerge, db_transaction. rewrite Hb, Hm, Hp. cbn [truthy negb orb default].
  rewrite (proj2 (Z.eqb_neq p 0) Hp0). cbn [negb].
  rewrite count_is_never_zero. cbn [fst snd success].
  split; [done|]. split.
  - rewrite select_update by done. by rewrite decide_False.
  - intros i r Hi Hr. by apply update_by_id_untouched.
Qed.

(** X12.  The unmerge handler never adds or deletes a row and never changes an
    identifier, and it leaves every row as it is that belongs neither to the
    booking it was called for nor to the parent this booking refers to. *)
Theorem unmerge_frame (bookingId : option Z) (user : option string) (db : Db) :
  let db' := (unmerge id_fits failedQuery bookingId user db).2 in
  map id db' = map id db
  /\ forall (i : nat) (r : Booking),
       db !! i = Some r ->
       bookingId <> Some (id r) ->
       (forall b, bookingId ≫= select_by_id db = Some b ->
                  parent_booking_id b <> Some (id r)) ->
       db' !! i = Some r.
Proof.
  unfold unmerge, db_transaction.
  destruct bookingId as [x|]; [|done].
  destruct (select_by_id db x) as [b|] eqn:Hb; [|by destruct (id_fits x)].
  destruct (negb (is_merged b) || negb (truthy (parent_booking_id b))) eqn:Hnot;
    [done|].
  rewrite count_is_never_zero. cbn [snd].
  split; [by rewrite update_by_id_ids|].
  intros i r Hi Hx _. apply update_by_id_untouched; [done|].
  intros Heq. apply Hx. by rewrite Heq.
Qed.
End UnmergeFacts.

Lemma unmerge_succeeds_iff_witness :
  let run := unmerge scenario_id_fits scenario_failedQuery (Some 99999999999) None
               scenario_db in
  (success run.1 = true
   <-> exists (x : Z) (b : Booking),
         Some 99999999999 = Some x /\ select_by_id scenario_db x = Some b
         /\ is_merged b = true /\ truthy (parent_booking_id b) = true)
  /\ run.2 = scenario_db
  /\ http_status run.1 = 500
  /\ message run.1 = scenario_failedQuery 99999999999.
Proof.
  destruct (unmerge_succeeds_iff scenario_id_fits scenario_failedQuery
              (Some 99999999999) None scenario_db) as (Hiff & Hfail & Hstatus & Hmsg).
  split; [exact Hiff|]. split; [apply Hfail; reflexivity|].
  split; [exact Hstatus|]. apply Hmsg; reflexivity.
Defined.

Lemma unmerge_twice_refused_witness :
  unmerge scenario_id_fits scenario_failedQuery (Some 2) None
          (unmerge scenario_id_fits scenario_failedQuery (Some 2) None linked_db).2
  = (mkHttpReply 400 false
       ("Booking with ID " +:+ pretty 2 +:+ " is not part of a merged trip")
       None,
     (unmerge scenario_id_fits scenario_failedQuery (Some 2) None linked_db).2).
Proof.
  apply (unmerge_twice_refused scenario_id_fits scenario_failedQuery
           2 None None linked_db).
  vm_compute. reflexivity.
Defined.

Lemma unmerge_leaves_parent_witness :
  let db' :=
    (unmerge scenario_id_fits scenario_failedQuery (Some 2) None linked_db).2 in
  filter (fun r => id r <> 2 /\ parent_booking_id r = Some 1 /\ is_merged r = true)
         linked_db = []
  /\ success (unmerge scenario_id_fits scenario_failedQuery (Some 2) None
                      linked_db).1 = true
  /\ select_by_id db' 1 = select_by_id linked_db 1
  /\ (trip_id <$> select_by_id db' 1) = Some (Some "TRIP_20240101_000001").
Proof.
  destruct (select_by_id linked_db 2) as [b|] eqn:Hb; [|vm_compute in Hb; discriminate].
  assert (is_merged b = true /\ parent_booking_id b = Some 1) as [Hm Hp].
  { vm_compute in Hb. injection Hb as <-. split; reflexivity. }
  destruct (unmerge_leaves_parent scenario_id_fits scenario_failedQuery
              2 None linked_db b 1 Hb Hm Hp) as (Hok & Hparent & _);
    [discriminate | discriminate |].
  split; [vm_compute; reflexivity|]. split; [exact Hok|].
  split; [exact Hparent|]. rewrite Hparent. vm_compute. reflexivity.
Defined.

Lemma unmerge_frame_witness :
  let db' :=
    (unmerge scenario_id_fits scenario_failedQuery (Some 2) None
             (linked_db ++ [booking_other_type])).2 in
  map id db' = [1; 2; 3] /\ db' !! 2%nat = Some booking_other_type.
Proof.
  destruct (unmerge_frame scenario_id_fits scenario_failedQuery (Some 2) None
              (linked_db ++ [booking_other_type]))
    as [Hids Hrows].
  split; [exact Hids|]. apply Hrows.
  - reflexivity.
  - discriminate.
  - intros b Hb. vm_compute in Hb. injection Hb as <-. discriminate.
Defined.

(** * The eligibility endpoint *)

Lemma minutes_apart (d : Z) :
  Qgtb (Math_abs (inject_Z d / (60 * 1000))%Q) 15 = false
  <-> Z.abs d <= 15 * 60 * 1000.
Proof.
  rewrite Qgtb_false. unfold Math_abs.
  assert (Qabs (inject_Z d / (60 * 1000)) == inject_Z (Z.abs d) / (60 * 1000))%Q as ->.
  { unfold Qdiv. rewrite Qabs_Qmult. unfold Qabs at 1 2, inject_Z. simpl.
    reflexivity. }
  rewrite <- (Qmult_le_r (inject_Z (Z.abs d) / (60 * 1000)) 15 (60 * 1000))
    by reflexivity.
  assert (inject_Z (Z.abs d) / (60 * 1000) * (60 * 1000) == inject_Z (Z.abs d))%Q
    as -> by (field; discriminate).
  rewrite Zle_Qle. reflexivity.
Qed.

Section EligibilityEndpointFacts.
Variable calculateDistance : Q -> Q -> Q -> Q -> Q.
Variable toFixed : nat -> Q -> string.

(** One turn of the loop: the child is found eligible after six checkpoints,
    or it is put among the ineligible ones with one reason after one to six
    checkpoints. *)
Lemma check_child_step (parentBooking : Booking) (db : Db)
    (scan : EligibilityScan) (childId : Z) :
  let scan' := check_child calculateDistance toFixed parentBooking db scan childId in
  (exists childBooking,
     select_by_id db childId = Some childBooking
     /\ child_eligible calculateDistance parentBooking db childId = true
     /\ childBookings scan' = childBookings scan ++ [childBooking]
     /\ scan_ineligibleBookings scan' = scan_ineligibleBookings scan
     /\ scan_reasons scan' = scan_reasons scan
     /\ checkpointCount scan' = (checkpointCount scan + 6)%nat)
  \/ (child_eligible calculateDistance parentBooking db childId = false
      /\ childBookings scan' = childBookings scan
      /\ scan_ineligibleBookings scan' = scan_ineligibleBookings scan ++ [childId]
      /\ (exists reason, scan_reasons scan' = scan_reasons scan ++ [reason])
      /\ (checkpointCount scan + 1 <= checkpointCount scan'
          <= checkpointCount scan + 6)%nat).
Proof.
  unfold check_child, child_eligible, endpoint_eligible, haversineDistance.
  destruct (select_by_id db childId) as [childBooking|] eqn:Hchild.
  2:{ right. simpl. repeat split; [by eexists | lia..]. }
  destruct (is_merged childBooking) eqn:Hm.
  { right. simpl. repeat split; [by eexists | lia..]. }
  cbn [negb andb].
  destruct (Qgtb _ 7) eqn:Hpick.
  { right. unfold Qgtb in Hpick. apply negb_true_iff in Hpick.
    rewrite Hpick. simpl. repeat split; [by eexists | lia..]. }
  unfold Qgtb in Hpick. apply negb_false_iff in Hpick. rewrite Hpick. cbn [andb].
  destruct (Qgtb _ 7) eqn:Hdrop in |- *.
  { right. unfold Qgtb in Hdrop. apply negb_true_iff in Hdrop.
    rewrite Hdrop. simpl. repeat split; [by eexists | lia..]. }
  unfold Qgtb in Hdrop. apply negb_false_iff in Hdrop. rewrite Hdrop. cbn [andb].
  destruct (decide (booking_type parentBooking = booking_type childBooking))
    as [Htype|Htype].
  2:{ right. rewrite (bool_decide_eq_false_2 _ Htype).
      rewrite (bool_decide_eq_true_2 (_ ≠ _) Htype).
      simpl. repeat split; [by eexists | lia..]. }
  rewrite (bool_decide_eq_true_2 _ Htype).
  rewrite (bool_decide_eq_false_2 (_ ≠ _)) by (by intros ?). cbn [andb].
  destruct (Qgtb _ 15) eqn:Htime.
  { right. rewrite bool_decide_eq_false_2.
    - simpl. repeat split; [by eexists | lia..].
    - intros H. apply minutes_apart in H. congruence. }
  left. exists childBooking. apply minutes_apart in Htime.
  rewrite bool_decide_eq_true_2 by done. simpl.
  repeat split; try done. lia.
Qed.

(** The loop as a whole, from any state of its variables. *)
Lemma check_children_scan (parentBooking : Booking) (db : Db)
    (childBookingIds : list Z) :
  forall scan : EligibilityScan,
    let scan' :=
      foldl (check_child calculateDistance toFixed parentBooking db) scan
            childBookingIds in
    exists (eligible : list Booking) (ineligible : list Z) (more : list string),
      childBookings scan' = childBookings scan ++ eligible
      /\ scan_ineligibleBookings scan' = scan_ineligibleBookings scan ++ ineligible
      /\ scan_reasons scan' = scan_reasons scan ++ more
      /\ length more = length ineligible
      /\ map id eligible
         = filter (fun c => child_eligible calculateDistance parentBooking db c = true)
                  childBookingIds
      /\ ineligible
         = filter (fun c => child_eligible calculateDistance parentBooking db c = false)
                  childBookingIds
      /\ (checkpointCount scan + 6 * length eligible + length ineligible
          <= checkpointCount scan'
          <= checkpointCount scan + 6 * length eligible + 6 * length ineligible)%nat.
Proof.
  induction childBookingIds as [|c rest IH]; intros scan; cbn [foldl].
  - exists [], [], []. rewrite !app_nil_r. repeat split; try done. all: cbn; lia.
  - destruct (IH (check_child calculateDistance toFixed parentBooking db scan c))
      as (el & inel & more & Hcb & Hin & Hre & Hlen & Hel & Hinel & Hcount).
    destruct (check_child_step parentBooking db scan c)
      as [(b & Hb & Hok & Hcb1 & Hin1 & Hre1 & Hc1)
         |(Hnot & Hcb1 & Hin1 & (reason & Hre1) & Hc1)].
    + exists (b :: el), inel, more.
      rewrite Hcb, Hin, Hre, Hcb1, Hin1, Hre1, <- !app_assoc.
      pose proof (select_by_id_id _ _ _ Hb) as Hid.
      split; [done|]. split; [done|]. split; [done|]. split; [done|].
      split; [|split].
      * rewrite filter_cons_True by done. cbn [map]. by rewrite Hel, Hid.
      * rewrite filter_cons_False; [done|]. by rewrite Hok.
      * cbn [length]. lia.
    + exists el, (c :: inel), (reason :: more).
      rewrite Hcb, Hin, Hre, Hcb1, Hin1, Hre1, <- !app_assoc.
      split; [done|]. split; [done|]. split; [done|].
      split; [cbn [length]; by rewrite Hlen|].
      split; [|split].
      * rewrite filter_cons_False; [done|]. by rewrite Hnot.
      * rewrite filter_cons_True by done. by rewrite Hinel.
      * cbn [length]. lia.
Qed.
End EligibilityEndpointFacts.

Section EligibilityEndpointTheorems.
Variable calculateDistance : Q -> Q -> Q -> Q -> Q.
Variable toFixed : nat -> Q -> string.

(** What a reply with status 200 tells about the request. *)
Lemma check_merge_eligibility_ok (parentBookingId : Z) (childBookingIds : list Z)
    (db : Db) :
  er_status (check_merge_eligibility calculateDistance toFixed
               parentBookingId childBookingIds db) = 200 ->
  exists parentBooking : Booking,
    parentBookingId <> 0 /\ childBookingIds <> []
    /\ select_by_id db parentBookingId = Some parentBooking
    /\ is_merged parentBooking = false
    /\ let scan :=
         foldl (check_child calculateDistance toFixed parentBooking db)
               (mkEligibilityScan [] [] [] 0) childBookingIds in
       eligibility (check_merge_eligibility calculateDistance toFixed
                      parentBookingId childBookingIds db)
       = mkEligibility
           (bool_decide (0 < length (map id (childBookings scan)))%nat)
           (Some (map id (childBookings scan)))
           (Some (scan_ineligibleBookings scan))
           (Some (checkpointCount scan))
           (if bool_decide (0 < length (scan_reasons scan))%nat
            then scan_reasons scan
            else ["All selected bookings are eligible for merging"]).
Proof.
  unfold check_merge_eligibility.
  destruct ((parentBookingId =? 0) || bool_decide (length childBookingIds = 0%nat))
    eqn:Hvalid; [done|].
  apply orb_false_iff in Hvalid as [Hz Hl].
  apply Z.eqb_neq in Hz. apply bool_decide_eq_false in Hl.
  destruct (select_by_id db parentBookingId) as [p|]; [|done].
  destruct (is_merged p) eqn:Hm; [done|].
  intros _. exists p. repeat split; try done. by intros ->.
Qed.

(** X15.  A reply with status 200 of the eligibility endpoint lists, in the
    order of the request, the children that exist and meet its requirements as
    eligible and all the other children as ineligible; [canMerge] says that
    some child is eligible; there is one reason for each ineligible child; and
    the checkpoint counter adds up over all the children: six for each
    eligible child and between one and six for each ineligible one. *)
Theorem check_merge_eligibility_lists (parentBookingId : Z)
    (childBookingIds : list Z) (db : Db) :
  let reply := check_merge_eligibility calculateDistance toFixed
                 parentBookingId childBookingIds db in
  er_status reply = 200 ->
  exists (parentBooking : Booking) (eligible ineligible : list Z) (total : nat),
    select_by_id db parentBookingId = Some parentBooking
    /\ eligibleBookings (eligibility reply) = Some eligible
    /\ ineligibleBookings (eligibility reply) = Some ineligible
    /\ totalCheckpoints (eligibility reply) = Some total
    /\ eligible
       = filter (fun c => child_eligible calculateDistance parentBooking db c = true)
                childBookingIds
    /\ ineligible
       = filter (fun c => child_eligible calculateDistance parentBooking db c = false)
                childBookingIds
    /\ canMerge (eligibility reply) = bool_decide (eligible <> [])
    /\ length (reasons (eligibility reply)) = Nat.max 1 (length ineligible)
    /\ (6 * length eligible + length ineligible <= total
        <= 6 * length eligible + 6 * length ineligible)%nat.
Proof.
  intros reply Hok. subst reply.
  destruct (check_merge_eligibility_ok _ _ _ Hok)
    as (p & _ & _ & Hp & _ & ->).
  destruct (check_children_scan calculateDistance toFixed p db childBookingIds
              (mkEligibilityScan [] [] [] 0))
    as (el & inel & more & Hcb & Hin & Hre & Hlen & Hel & Hinel & Hcount).
  cbn [childBookings scan_ineligibleBookings scan_reasons checkpointCount app]
    in Hcb, Hin, Hre, Hcount.
  rewrite Hcb, Hin, Hre.
  eexists p, (map id el), inel, _.
  cbn [eligibleBookings ineligibleBookings totalCheckpoints canMerge reasons].
  split; [done|]. split; [done|]. split; [done|]. split; [reflexivity|].
  split; [done|]. split; [done|]. split; [|split].
  - apply bool_decide_ext. destruct (map id el); cbn [length]; split; intros H;
      (done || lia).
  - rewrite <- Hlen. destruct more; cbn [length]; [done|].
    rewrite bool_decide_eq_true_2 by lia. cbn [length]. lia.
  - rewrite length_map. lia.
Qed.

(** X16.  When the eligibility endpoint answers 200 with no ineligible child,
    the merge handler accepts the same request, whatever the optimizer
    answers. *)
Theorem eligible_request_is_merged
    (apiKey : string) (response : FetchResult) (tripId : string)
    (parentBookingId : Z) (childBookingIds : list Z) (db : Db) :
  let reply := check_merge_eligibility calculateDistance toFixed
                 parentBookingId childBookingIds db in
  er_status reply = 200 ->
  ineligibleBookings (eligibility reply) = Some [] ->
  success (merge calculateDistance apiKey response tripId
                 parentBookingId childBookingIds db).1 = true.
Proof.
  intros reply Hok. subst reply.
  destruct (check_merge_eligibility_ok _ _ _ Hok)
    as (p & Hp0 & Hne & Hp & Hm & ->).
  destruct (check_children_scan calculateDistance toFixed p db childBookingIds
              (mkEligibilityScan [] [] [] 0))
    as (el & inel & more & _ & Hin & _ & _ & _ & Hinel & _).
  cbn [ineligibleBookings]. rewrite Hin. cbn [scan_ineligibleBookings app].
  intros [= ->].
  assert (forall c, c ∈ childBookingIds ->
            exists b, select_by_id db c = Some b /\ is_merged b = false) as Hall.
  { intros c Hc.
    destruct (child_eligible calculateDistance p db c) eqn:Hel.
    - unfold child_eligible, endpoint_eligible in Hel.
      destruct (select_by_id db c) as [b|]; [|done]. exists b. split; [done|].
      destruct (is_merged b); [done|done].
    - exfalso. assert (c ∈ @nil Z) as Hin'; [|by apply elem_of_nil in Hin'].
      rewrite Hinel. by apply list_elem_of_filter. }
  destruct (merge_callback_total calculateDistance apiKey response tripId
              parentBookingId childBookingIds db p Hp Hm Hall)
    as (result & db' & Hret).
  unfold merge, db_transaction. rewrite Hret.
  rewrite (proj2 (Z.eqb_neq _ _) Hp0). rewrite bool_decide_eq_false_2.
  - done.
  - by destruct childBookingIds.
Qed.

End EligibilityEndpointTheorems.

Lemma check_merge_eligibility_lists_witness :
  let reply := check_merge_eligibility planar_distance (fun _ _ => "")
                 1 [2; 7; 3] (scenario_db ++ [booking_other_type]) in
  exists (parentBooking : Booking) (eligible ineligible : list Z) (total : nat),
    select_by_id (scenario_db ++ [booking_other_type]) 1 = Some parentBooking
    /\ eligibleBookings (eligibility reply) = Some eligible
    /\ ineligibleBookings (eligibility reply) = Some ineligible
    /\ totalCheckpoints (eligibility reply) = Some total
    /\ eligible
       = filter (fun c => child_eligible planar_distance parentBooking
                            (scenario_db ++ [booking_other_type]) c = true)
                [2; 7; 3]
    /\ ineligible
       = filter (fun c => child_eligible planar_distance parentBooking
                            (scenario_db ++ [booking_other_type]) c = false)
                [2; 7; 3]
    /\ canMerge (eligibility reply) = bool_decide (eligible <> [])
    /\ length (reasons (eligibility reply)) = Nat.max 1 (length ineligible)
    /\ (6 * length eligible + length ineligible <= total
        <= 6 * length eligible + 6 * length ineligible)%nat.
Proof.
  apply (check_merge_eligibility_lists planar_distance (fun _ _ => "") 1 [2; 7; 3]
           (scenario_db ++ [booking_other_type])).
  reflexivity.
Defined.

Lemma eligible_request_is_merged_witness :
  success (merge planar_distance "AIzaSy-configured-key" FetchThrows
                 "TRIP_20240101_000001" 1 [2] scenario_db).1 = true.
Proof.
  apply (eligible_request_is_merged planar_distance (fun _ _ => "")
           "AIzaSy-configured-key" FetchThrows "TRIP_20240101_000001"
           1 [2] scenario_db).
  - reflexivity.
  - vm_compute. reflexivity.
Defined.

(** * The optimize-sequence handler *)

Lemma select_by_id_is_Some (db : Db) (b : Booking) :
  b ∈ db -> is_Some (select_by_id db (id b)).
Proof.
  intros Hb. unfold select_by_id.
  destruct (filter (fun r => id r = id b) db) as [|r l] eqn:Hf; [|by eexists].
  exfalso. assert (b ∈ filter (fun r => id r = id b) db) as Hin
    by (by apply list_elem_of_filter).
  rewrite Hf in Hin. by apply elem_of_nil in Hin.
Qed.

Lemma write_sequences_positions (wps : list Waypoint) (db : Db) (x : Z)
    (b0 : Booking) :
  select_by_id db x = Some b0 ->
  x ∈ map bookingId wps ->
  exists b : Booking,
    select_by_id
      (write_sequences db (JsMap.entries (build_sequences wps 0 JsMap.empty))) x
    = Some b
    /\ pickup_sequence b = Some (stop_sequence pickup x wps 0)
    /\ dropoff_sequence b = Some (stop_sequence dropoff x wps 0)
    /\ without_sequences b = without_sequences b0.
Proof.
  intros Hb0 Hx.
  rewrite write_sequences_select
    by (apply build_sequences_NoDup; cbn; apply NoDup_nil_2).
  unfold JsMap.entries. rewrite build_sequences_get by (by left).
  rewrite Hb0. eexists. split; [reflexivity|].
  cbn. repeat split; f_equal; by case_bool_decide.
Qed.

Section OptimizeSequenceFacts.
Variable id_fits : Z -> bool.
Variable failedQuery : option Z -> string.
Variable calculateDistance : Q -> Q -> Q -> Q -> Q.
Variable apiKey : string.
Variable response : FetchResult.

(** What a returning callback has read and written. *)
Lemma optimize_sequence_callback_inv (parsedId : option Z) (db db' : Db)
    (result : SequenceResult) :
  optimize_sequence_callback id_fits failedQuery calculateDistance apiKey response parsedId db
  = Returns result db' ->
  exists (parentId : Z) (parentBooking : Booking) (startLocation : LatLng),
    let allBookings :=
      parentBooking
        :: filter (fun b => merged_with_booking_id b = Some parentId) db in
    parsedId = Some parentId
    /\ select_by_id db parentId = Some parentBooking
    /\ has_merged_trips parentBooking = true
    /\ sr_route result
       = optimizeRoute calculateDistance apiKey response
           (pickup_points allBookings) (dropoff_points allBookings) startLocation
    /\ db' = match sr_route result with
             | Some route =>
                 write_sequences
                   (update_by_id db parentId (set_optimized_route (sr_route result)))
                   (JsMap.entries (build_sequences (waypoints route) 0 JsMap.empty))
             | None =>
                 fallback_sequences (length allBookings) (map id allBookings) 0
                   (update_by_id db parentId (set_optimized_route (sr_route result)))
             end
    /\ sr_parent result = select_by_id db' parentId
    /\ sr_children result
       = filter (fun b => merged_with_booking_id b = Some parentId) db'.
Proof.
  unfold optimize_sequence_callback.
  destruct parsedId as [x|]; [|done].
  destruct (select_by_id db x) as [p|] eqn:Hp; [|by destruct (id_fits x)].
  destruct (has_merged_trips p) eqn:Hm; [|done]. cbn [negb].
  intros [= <- <-]. exists x, p. eexists.
  split; [done|]. split; [done|]. split; [done|].
  split; [reflexivity|]. cbn [sr_route sr_parent sr_children]. done.
Qed.

(** X17.  The optimize-sequence handler succeeds exactly when the identifier
    is a number and the booking exists and is flagged [has_merged_trips];
    otherwise it answers 500 and leaves the table as it is.  The message is
    then ["Booking not found"] for a number that the id column can hold and
    no booking has, ["This booking does not have any merged trips"] for a
    booking without the flag, and the driver's message for an identifier
    that is no number (the handler has no guard for it) or a number that the
    column cannot hold. *)
Theorem optimize_sequence_succeeds_iff (parsedId : option Z) (db : Db) :
  let run :=
    optimize_sequence id_fits failedQuery calculateDistance apiKey response
                      parsedId db in
  (success run.1 = true
   <-> exists (x : Z) (p : Booking),
         parsedId = Some x /\ select_by_id db x = Some p
         /\ has_merged_trips p = true)
  /\ (success run.1 = false ->
      run.2 = db /\ http_status run.1 = 500
      /\ message run.1
         = match parsedId with
           | None => failedQuery None
           | Some x =>
               match select_by_id db x with
               | None =>
                   if id_fits x then "Booking not found"
                   else failedQuery (Some x)
               | Some _ => "This booking does not have any merged trips"
               end
           end).
Proof.
  unfold optimize_sequence, db_transaction, optimize_sequence_callback.
  destruct parsedId as [x|].
  2:{ cbn. split; [split; [done | by intros (? & ? & ? & _)]|]. done. }
  destruct (select_by_id db x) as [p|] eqn:Hp.
  2:{ destruct (id_fits x); cbn;
        (split; [split; [done | intros (? & ? & [= <-] & ? & _); congruence]|]);
        done. }
  destruct (has_merged_trips p) eqn:Hm; cbn [negb fst snd success].
  - split; [|done]. split; [intros _; by exists x, p | done].
  - split; [|done].
    split; [done|]. intros (? & ? & [= <-] & ? & ?). congruence.
Qed.

Lemma optimize_sequence_writes_column {C : Type} (col : Booking -> C)
    (parsedId : option Z) (db : Db) (x : Z) :
  (forall r b, col (set_optimized_route r b) = col b) ->
  (forall p d b, col (set_sequences p d b) = col b) ->
  col <$> select_by_id
            (optimize_sequence id_fits failedQuery calculateDistance apiKey response parsedId db).2 x
  = col <$> select_by_id db x.
Proof.
  intros Hroute Hseq. unfold optimize_sequence, db_transaction.
  destruct (optimize_sequence_callback _ _ _ _ _ _ _) as [res d|msg d] eqn:Hcb; [|done].
  cbn [snd].
  apply optimize_sequence_callback_inv in Hcb
    as (pid & p & start & _ & _ & _ & _ & -> & _).
  destruct (sr_route res) as [route|].
  - rewrite write_sequences_column by done. by apply select_update_column.
  - rewrite fallback_sequences_column by done. by apply select_update_column.
Qed.

(** X18.  The optimize-sequence handler never adds or deletes a row and never
    changes an identifier, and in every row it leaves every column as it is
    except [optimized_route], [pickup_sequence] and [dropoff_sequence]. *)
Theorem optimize_sequence_frame (parsedId : option Z) (db : Db) :
  let db' := (optimize_sequence id_fits failedQuery calculateDistance apiKey response parsedId db).2 in
  map id db' = map id db
  /\ forall x : Z,
       without_route_and_sequences <$> select_by_id db' x
       = without_route_and_sequences <$> select_by_id db x.
Proof.
  split.
  - unfold optimize_sequence, db_transaction.
    destruct (optimize_sequence_callback _ _ _ _ _ _ _) as [res d|msg d] eqn:Hcb; [|done].
    cbn [snd].
    apply optimize_sequence_callback_inv in Hcb
      as (pid & p & start & _ & _ & _ & _ & -> & _).
    destruct (sr_route res) as [route|].
    + unfold write_sequences.
      rewrite (foldl_update_ids fst
                 (fun e => set_sequences (pickupSequence e.2) (dropoffSequence e.2)))
        by done.
      by apply update_by_id_ids.
    + rewrite fallback_sequences_ids. by apply update_by_id_ids.
  - intros x. by apply optimize_sequence_writes_column.
Qed.
End OptimizeSequenceFacts.

Lemma optimize_sequence_succeeds_iff_witness :
  let run := optimize_sequence scenario_id_fits scenario_failedId
               planar_distance "AIzaSy-configured-key" FetchThrows
               None scenario_db in
  (success run.1 = true
   <-> exists (x : Z) (p : Booking),
         None = Some x /\ select_by_id scenario_db x = Some p
         /\ has_merged_trips p = true)
  /\ run.2 = scenario_db /\ http_status run.1 = 500
  /\ message run.1 = "Failed query: params: NaN".
Proof.
  destruct (optimize_sequence_succeeds_iff scenario_id_fits scenario_failedId
              planar_distance "AIzaSy-configured-key"
              FetchThrows None scenario_db) as [Hiff Hfail].
  split; [exact Hiff|]. apply Hfail. reflexivity.
Defined.

(** X19.  After a successful merge, the optimize-sequence handler accepts the
    parent of the merge, and every child of the merge is among the children
    that it takes into the new route and returns. *)
Theorem merge_then_optimize_sequence
    (id_fits : Z -> bool) (failedQuery : option Z -> string)
    (calculateDistance : Q -> Q -> Q -> Q -> Q) (apiKey apiKey2 : string)
    (response response2 : FetchResult) (tripId : string)
    (parentBookingId : Z) (childBookingIds : list Z) (db db' : Db)
    (reply : HttpReply MergeResult) (result : MergeResult) :
  merge calculateDistance apiKey response tripId
        parentBookingId childBookingIds db = (reply, db') ->
  data reply = Some result ->
  exists result2 : SequenceResult,
    (optimize_sequence id_fits failedQuery calculateDistance apiKey2 response2
                       (Some parentBookingId) db').1
    = mkHttpReply 200 true "Sequence optimized successfully" (Some result2)
    /\ forall c, c ∈ childBookingIds ->
         exists b, b ∈ sr_children result2 /\ id b = c.
Proof.
  intros Hmerge Hdata.
  pose proof (merge_success _ _ _ _ _ _ _ _ _ _ Hmerge Hdata) as Hcb.
  apply merge_callback_Returns in Hcb as ((p & Hp & Hpm) & Hv & Hdb).
  assert (forall x b0,
            select_by_id db x = Some b0 ->
            exists b1 b',
              select_by_id
                (foldl (fun d childId =>
                          update_by_id d childId
                            (set_merge_child parentBookingId tripId))
                       (update_by_id db parentBookingId
                          (set_merge_parent childBookingIds tripId
                             (ts_route (mr_trip result))))
                       childBookingIds) x = Some b1
              /\ select_by_id db' x = Some b'
              /\ without_sequences b' = without_sequences b1) as Hrow.
  { intros x b0 Hb0.
    pose proof (merge_writes_without_sequences parentBookingId childBookingIds
                  tripId (ts_route (mr_trip result)) db x) as Hrow.
    rewrite <- Hdb in Hrow.
    destruct (merge_children_is_Some parentBookingId tripId childBookingIds
                (update_by_id db parentBookingId
                   (set_merge_parent childBookingIds tripId
                      (ts_route (mr_trip result)))) x) as [b1 Hb1].
    { apply select_update_is_Some; [done | by eexists]. }
    rewrite Hb1 in Hrow.
    destruct (select_by_id db' x) as [b'|]; [|done].
    cbn in Hrow. apply (inj Some) in Hrow. by exists b1, b'. }
  assert (exists p', select_by_id db' parentBookingId = Some p'
                     /\ has_merged_trips p' = true) as (p' & Hp' & Hflag).
  { destruct (Hrow _ _ Hp) as (b1 & b' & Hb1 & Hb' & Heq).
    exists b'. split; [done|].
    rewrite merge_children_select, select_update in Hb1 by done.
    rewrite (decide_True (P := parentBookingId = parentBookingId)), Hp in Hb1
      by done.
    transitivity (has_merged_trips b1); [exact (f_equal has_merged_trips Heq)|].
    case_decide; cbn in Hb1; by injection Hb1 as <-. }
  assert (forall c, c ∈ childBookingIds ->
            exists b', select_by_id db' c = Some b'
                       /\ merged_with_booking_id b' = Some parentBookingId)
    as Hchildren.
  { intros c Hc. destruct (verify_children_None _ _ Hv c Hc) as (b0 & Hb0 & _).
    destruct (Hrow _ _ Hb0) as (b1 & b' & Hb1 & Hb' & Heq).
    exists b'. split; [done|].
    rewrite merge_children_select, decide_True in Hb1 by done.
    transitivity (merged_with_booking_id b1);
      [exact (f_equal merged_with_booking_id Heq)|].
    destruct (select_by_id (update_by_id _ _ _) c); cbn in Hb1; [|done].
    by injection Hb1 as <-. }
  unfold optimize_sequence, db_transaction.
  destruct (optimize_sequence_callback id_fits failedQuery calculateDistance
              apiKey2 response2 (Some parentBookingId) db')
    as [res d|msg d] eqn:Hcb.
  2:{ exfalso. unfold optimize_sequence_callback in Hcb.
      by rewrite Hp', Hflag in Hcb. }
  exists res. split; [done|]. intros c Hc.
  destruct (Hchildren c Hc) as (b' & Hb' & Hlink).
  pose proof (optimize_sequence_writes_column id_fits failedQuery
                calculateDistance apiKey2 response2
                merged_with_booking_id (Some parentBookingId) db' c) as Hcol.
  unfold optimize_sequence, db_transaction in Hcol. rewrite Hcb in Hcol.
  cbn [snd] in Hcol. rewrite Hb' in Hcol by done.
  specialize (Hcol (fun _ _ => eq_refl) (fun _ _ _ => eq_refl)).
  apply optimize_sequence_callback_inv in Hcb
    as (pid & pb & start & [= <-] & _ & _ & _ & _ & _ & Hkids).
  destruct (select_by_id d c) as [b''|] eqn:Hb''; [|done].
  cbn in Hcol. injection Hcol as Hcol.
  exists b''. split; [|by eapply select_by_id_id].
  rewrite Hkids. apply list_elem_of_filter. split; [congruence|].
  by eapply select_by_id_elem_of.
Qed.

Lemma merge_then_optimize_sequence_witness :
  let db' := (merge planar_distance "AIzaSy-configured-key"
                    (directions_ok [2; 0; 1]%nat (Some "abc"))
                    "TRIP_20240101_000001" 1 [2] scenario_db).2 in
  exists result2 : SequenceResult,
    (optimize_sequence scenario_id_fits scenario_failedId
                       planar_distance "" FetchThrows (Some 1) db').1
    = mkHttpReply 200 true "Sequence optimized successfully" (Some result2)
    /\ forall c, c ∈ [2] -> exists b, b ∈ sr_children result2 /\ id b = c.
Proof.
  intros db'.
  destruct (data (merge planar_distance "AIzaSy-configured-key"
                        (directions_ok [2; 0; 1]%nat (Some "abc"))
                        "TRIP_20240101_000001" 1 [2] scenario_db).1)
    as [result|] eqn:Hdata; [|vm_compute in Hdata; discriminate].
  exact (merge_then_optimize_sequence scenario_id_fits scenario_failedId
           planar_distance "AIzaSy-configured-key" "" (directions_ok [2; 0; 1]%nat (Some "abc"))
           FetchThrows "TRIP_20240101_000001" 1 [2] scenario_db db' _ result
           (surjective_pairing _) Hdata).
Defined.

Lemma optimize_sequence_success
    (id_fits : Z -> bool) (failedQuery : option Z -> string)
    (calculateDistance : Q -> Q -> Q -> Q -> Q) (apiKey : string)
    (response : FetchResult) (parsedId : option Z) (db db' : Db)
    (reply : HttpReply SequenceResult) (result : SequenceResult) :
  optimize_sequence id_fits failedQuery calculateDistance apiKey response
                    parsedId db = (reply, db') ->
  data reply = Some result ->
  optimize_sequence_callback id_fits failedQuery calculateDistance apiKey response
                             parsedId db
  = Returns result db'.
Proof.
  unfold optimize_sequence, db_transaction.
  destruct (optimize_sequence_callback _ _ _ _ _ _ _) as [res d|msg d].
  - intros [= <- <-]. cbn. by intros [= ->].
  - by intros [= <- <-].
Qed.

(** X20.  After a successful call of the optimize-sequence handler that has a
    route, the sequence numbers stored for a request of the route are the
    positions of its pickup and of its dropoff in the waypoint list of the
    route, and [-1] for a stop that the list does not have. *)
Theorem optimize_sequence_sequences_are_positions
    (id_fits : Z -> bool) (failedQuery : option Z -> string)
    (calculateDistance : Q -> Q -> Q -> Q -> Q) (apiKey : string)
    (response : FetchResult) (parsedId : option Z) (db db' : Db)
    (reply : HttpReply SequenceResult) (result : SequenceResult)
    (r : OptimizedRoute) :
  optimize_sequence id_fits failedQuery calculateDistance apiKey response
                    parsedId db = (reply, db') ->
  data reply = Some result ->
  sr_route result = Some r ->
  forall x, x ∈ map bookingId (waypoints r) ->
    exists b : Booking,
      select_by_id db' x = Some b
      /\ pickup_sequence b = Some (stop_sequence pickup x (waypoints r) 0)
      /\ dropoff_sequence b = Some (stop_sequence dropoff x (waypoints r) 0).
Proof.
  intros Hrun Hdata Hroute x Hx.
  pose proof (optimize_sequence_success _ _ _ _ _ _ _ _ _ _ Hrun Hdata) as Hcb.
  apply optimize_sequence_callback_inv in Hcb
    as (pid & p & start & _ & Hp & _ & Hopt & -> & _).
  rewrite Hroute in Hopt |- *. symmetry in Hopt.
  assert (is_Some (select_by_id db x)) as [b0 Hb0].
  { apply list_elem_of_fmap in Hx as (w & -> & Hw).
    apply (optimizeRoute_waypoints _ _ _ _ _ _ _ Hopt) in Hw.
    apply (list_elem_of_fmap_2 bookingId) in Hw.
    change (bookingId <$> ?l) with (map bookingId l) in Hw.
    rewrite build_waypoints_ids, pickup_points_ids, dropoff_points_ids in Hw.
    assert (bookingId w
              ∈ map id (p :: filter (fun b => merged_with_booking_id b = Some pid) db))
      as Hin by (by apply elem_of_app in Hw as [?|?]).
    apply list_elem_of_fmap in Hin as (b & -> & Hb).
    apply select_by_id_is_Some.
    apply elem_of_cons in Hb as [->|Hb]; [by eapply select_by_id_elem_of|].
    by apply list_elem_of_filter in Hb as [_ ?]. }
  destruct (select_update_is_Some db pid x (set_optimized_route (Some r)))
    as [b1 Hb1]; [done | by eexists |].
  destruct (write_sequences_positions (waypoints r) _ x b1 Hb1 Hx)
    as (b & Hb & Hbp & Hbd & _).
  by exists b.
Qed.

Lemma optimize_sequence_sequences_are_positions_witness :
  let run :=
    optimize_sequence scenario_id_fits scenario_failedId planar_distance
      "AIzaSy-configured-key"
      (directions_ok [0; 1; 2]%nat (Some "abc")) (Some 1) merged_db in
  exists (result : SequenceResult) (r : OptimizedRoute),
    data run.1 = Some result
    /\ sr_route result = Some r
    /\ forall x, x ∈ map bookingId (waypoints r) ->
         exists b : Booking,
           select_by_id run.2 x = Some b
           /\ pickup_sequence b = Some (stop_sequence pickup x (waypoints r) 0)
           /\ dropoff_sequence b = Some (stop_sequence dropoff x (waypoints r) 0).
Proof.
  intros run.
  destruct (data run.1) as [result|] eqn:Hdata; [|vm_compute in Hdata; discriminate].
  destruct (sr_route result) as [r|] eqn:Hroute.
  2:{ vm_compute in Hdata. injection Hdata as <-. discriminate Hroute. }
  exists result, r. split; [reflexivity|]. split; [exact Hroute|].
  exact (optimize_sequence_sequences_are_positions
           scenario_id_fits scenario_failedId planar_distance
           "AIzaSy-configured-key" (directions_ok [0; 1; 2]%nat (Some "abc"))
           (Some 1) merged_db _ _ result r (surjective_pairing _) Hdata Hroute).
Defined.

(** * Manual merging and the search for merges *)

Lemma isPickupNearby_run (calculateDistance : Q -> Q -> Q -> Q -> Q)
    (a b : Location) (w : World) :
  (isPickupNearby calculateDistance a b w).1
  = Some (Qle_bool (distance_between calculateDistance a b)
            (effective_number w TRIP_MERGE_PICKUP_DISTANCE_KM)
          && negb (effective_boolean w TRIP_MERGE_SAME_ZONE_REQUIRED
                   && bool_decide (zone a ≠ zone b))).
Proof.
  unfold isPickupNearby. rewrite M_bind_unfold. cbn [enter].
  rewrite M_bind_unfold.
  match goal with |- context [getConfigNumber ?k ?w1] =>
    destruct (getConfigNumber_run k w1) as (Hv & Hsame & _);
    destruct (getConfigNumber k w1) as [r w2] end.
  cbn [fst snd] in Hv, Hsame. subst r. rewrite M_bind_unfold.
  destruct (getConfigBoolean_run TRIP_MERGE_SAME_ZONE_REQUIRED w2) as (Hz & _).
  destruct (getConfigBoolean TRIP_MERGE_SAME_ZONE_REQUIRED w2) as [z w3].
  cbn [fst] in Hz. subst z.
  destruct Hsame as [Hn Hb]. rewrite <- (Hb TRIP_MERGE_SAME_ZONE_REQUIRED).
  unfold effective_number at 1. cbn [config_numbers].
  fold (effective_number w TRIP_MERGE_PICKUP_DISTANCE_KM).
  unfold effective_boolean at 1. cbn [config_booleans].
  fold (effective_boolean w TRIP_MERGE_SAME_ZONE_REQUIRED).
  unfold Qgtb. destruct (Qle_bool _ _); cbn [negb andb]; [|done].
  by destruct (_ && _).
Qed.

Lemma isDropoffNearby_run (calculateDistance : Q -> Q -> Q -> Q -> Q)
    (a b : Location) (w : World) :
  (isDropoffNearby calculateDistance a b w).1
  = Some (Qle_bool (distance_between calculateDistance a b)
            (effective_number w TRIP_MERGE_DROPOFF_DISTANCE_KM)
          && negb (effective_boolean w TRIP_MERGE_SAME_ZONE_REQUIRED
                   && bool_decide (zone a ≠ zone b))).
Proof.
  unfold isDropoffNearby. rewrite M_bind_unfold. cbn [enter].
  rewrite M_bind_unfold.
  match goal with |- context [getConfigNumber ?k ?w1] =>
    destruct (getConfigNumber_run k w1) as (Hv & Hsame & _);
    destruct (getConfigNumber k w1) as [r w2] end.
  cbn [fst snd] in Hv, Hsame. subst r. rewrite M_bind_unfold.
  destruct (getConfigBoolean_run TRIP_MERGE_SAME_ZONE_REQUIRED w2) as (Hz & _).
  destruct (getConfigBoolean TRIP_MERGE_SAME_ZONE_REQUIRED w2) as [z w3].
  cbn [fst] in Hz. subst z.
  destruct Hsame as [Hn Hb]. rewrite <- (Hb TRIP_MERGE_SAME_ZONE_REQUIRED).
  unfold effective_number at 1. cbn [config_numbers].
  fold (effective_number w TRIP_MERGE_DROPOFF_DISTANCE_KM).
  unfold effective_boolean at 1. cbn [config_booleans].
  fold (effective_boolean w TRIP_MERGE_SAME_ZONE_REQUIRED).
  unfold Qgtb. destruct (Qle_bool _ _); cbn [negb andb]; [|done].
  by destruct (_ && _).
Qed.

Lemma isBookingTypeCompatible_pair (a b : Booking) (w : World) :
  (isBookingTypeCompatible [a; b] w).1
  = Some (negb (effective_boolean w TRIP_MERGE_SAME_BOOKING_TYPE_REQUIRED)
          || bool_decide (booking_type b = booking_type a)).
Proof.
  unfold isBookingTypeCompatible. rewrite M_bind_unfold. cbn [enter].
  rewrite M_bind_unfold.
  match goal with |- context [getConfigBoolean ?k ?w1] =>
    destruct (getConfigBoolean_run k w1) as (Hv & _);
    destruct (getConfigBoolean k w1) as [r w2] end.
  cbn [fst] in Hv. subst r.
  unfold effective_boolean at 1. cbn [config_booleans].
  fold (effective_boolean w TRIP_MERGE_SAME_BOOKING_TYPE_REQUIRED).
  destruct (effective_boolean w TRIP_MERGE_SAME_BOOKING_TYPE_REQUIRED);
    cbn [negb orb]; [|done].
  rewrite M_bind_unfold. cbn [first_of forallb]. cbv [mret M_ret]. cbn [fst].
  by rewrite (bool_decide_eq_true_2 (booking_type a = booking_type a)),
       andb_true_r by done.
Qed.

Section ManualFacts.
Variable calculateDistance : Q -> Q -> Q -> Q -> Q.
Variable getVehicle : Z -> option Vehicle.

Lemma manual_check_candidate_run_checks (booking candidate : Booking) (w : World) :
  manual_check_candidate calculateDistance getVehicle booking candidate w
  = (ok ← run_checks calculateDistance getVehicle booking candidate
            [SelfExclusion; PickupProximity; DropoffProximity; TypeCompatibility];
     if negb ok then mret false
     else mret (match booking_vehicle getVehicle booking with
                | Some vehicle =>
                    passengers booking + passengers candidate <=? capacity vehicle
                | None => true
                end)) w.
Proof.
  unfold manual_check_candidate, booking_vehicle.
  cbn [run_checks run_check]. rewrite !M_bind_unfold. cbn [enter fst snd].
  destruct (bool_decide (id booking = id candidate)); [reflexivity|].
  cbv [mret M_ret]. cbn [negb].
  rewrite !M_bind_unfold.
  destruct (isPickupNearby _ _ _ _) as [[[|]|] w1]; cbn [negb]; try reflexivity.
  rewrite !M_bind_unfold.
  destruct (isDropoffNearby _ _ _ _) as [[[|]|] w2]; cbn [negb]; try reflexivity.
  rewrite !M_bind_unfold.
  destruct (isBookingTypeCompatible _ _) as [[[|]|] w3]; cbn [negb]; try reflexivity.
  destruct (vehicle_id booking) as [vid|]; [|reflexivity].
  destruct (vid =? 0); [reflexivity|].
  destruct (getVehicle vid) as [v|]; [|reflexivity].
  rewrite Z.leb_antisym. by destruct (capacity v <? _).
Qed.

Lemma passes_of_run (booking candidate : Booking) (w : World) (c : Checkpoint)
    (v : bool) :
  (run_check calculateDistance getVehicle booking candidate c w).1 = Some v ->
  passes calculateDistance getVehicle booking candidate w c = v.
Proof. unfold passes. intros ->. by destruct v. Qed.

Lemma manually_eligible_checks (booking candidate : Booking) (w : World) :
  manually_eligible calculateDistance getVehicle booking w candidate
  = forallb (passes calculateDistance getVehicle booking candidate w)
      [SelfExclusion; PickupProximity; DropoffProximity; TypeCompatibility]
    && match booking_vehicle getVehicle booking with
       | Some vehicle =>
           passengers booking + passengers candidate <=? capacity vehicle
       | None => true
       end.
Proof.
  unfold manually_eligible. cbn [forallb].
  rewrite (passes_of_run booking candidate w SelfExclusion
             (negb (bool_decide (id booking = id candidate)))) by done.
  rewrite (passes_of_run booking candidate w PickupProximity _
             (isPickupNearby_run _ _ _ _)).
  rewrite (passes_of_run booking candidate w DropoffProximity _
             (isDropoffNearby_run _ _ _ _)).
  rewrite (passes_of_run booking candidate w TypeCompatibility _
             (isBookingTypeCompatible_pair _ _ _)).
  rewrite andb_true_r, !andb_assoc. reflexivity.
Qed.

Lemma manual_check_candidate_spec (booking candidate : Booking) (w0 w : World) :
  same_config w0 w ->
  let res := manual_check_candidate calculateDistance getVehicle booking candidate w in
  same_config w0 res.2
  /\ (res.1 = Some true
      <-> manually_eligible calculateDistance getVehicle booking w0 candidate = true).
Proof.
  intros Hsame res. subst res. rewrite manual_check_candidate_run_checks.
  rewrite M_bind_unfold, manually_eligible_checks.
  destruct (run_checks_spec calculateDistance getVehicle booking candidate
              [SelfExclusion; PickupProximity; DropoffProximity; TypeCompatibility])
    with (w0 := w0) (w := w) as (_ & Hcfg & Hiff); [|done|].
  { intros c Hc. apply run_check_enters. unfold service_order.
    apply elem_of_app. left.
    repeat (apply elem_of_cons in Hc as [->|Hc];
            [repeat (first [left | right])|]).
    by apply elem_of_nil in Hc. }
  destruct (run_checks _ _ _ _ _ w) as [[ok|] w1]; cbn [fst snd] in *.
  - destruct ok; cbn [negb]; cbv [mret M_ret]; cbn [fst snd]; (split; [done|]).
    + rewrite (proj1 Hiff eq_refl). cbn [andb].
      split; [by intros [= ?] | by intros ->].
    + destruct (forallb _ _); [discriminate (proj2 Hiff eq_refl)|].
      cbn [andb]. split; intros H; discriminate H.
  - split; [done|].
    destruct (forallb _ _); [discriminate (proj2 Hiff eq_refl)|].
    cbn [andb]. split; intros H; discriminate H.
Qed.

Lemma checkManualMergeEligibility_from_spec (booking : Booking)
    (candidates : list Booking) :
  forall (eligibleBookings : list Booking) (w0 w : World),
    same_config w0 w ->
    let res := checkManualMergeEligibility_from calculateDistance getVehicle booking
                 candidates eligibleBookings w in
    res.1 = eligibleBookings
            ++ filter (fun c => manually_eligible calculateDistance getVehicle
                                  booking w0 c = true) candidates
    /\ same_config w0 res.2.
Proof.
  induction candidates as [|c rest IH]; intros el w0 w Hsame;
    cbn [checkManualMergeEligibility_from].
  - by rewrite app_nil_r.
  - destruct (manual_check_candidate_spec booking c w0 w Hsame) as [Hcfg Hiff].
    destruct (manual_check_candidate _ _ _ _ w) as [[[|]|] w1]; cbn [fst snd] in *.
    + destruct (IH (el ++ [c]) w0 w1 Hcfg) as [-> Hcfg'].
      rewrite filter_cons_True by (by apply Hiff). by rewrite <- app_assoc.
    + destruct (IH el w0 w1 Hcfg) as [-> Hcfg'].
      rewrite filter_cons_False; [done|]. intros H. by apply Hiff in H.
    + destruct (IH el w0 w1 Hcfg) as [-> Hcfg'].
      rewrite filter_cons_False; [done|]. intros H. by apply Hiff in H.
Qed.
End ManualFacts.

Section MergeSearchFacts.
Variable calculateDistance : Q -> Q -> Q -> Q -> Q.
Variable getVehicle : Z -> option Vehicle.
Variable getBooking : Z -> list Booking.
Variable getActiveBookings : list Booking.
Variable getBookingsEligibleForMerging : list Booking.

Lemma eligible_with_manual_checks (booking candidate : Booking) (w : World) :
  eligible_with calculateDistance getVehicle booking w candidate = true ->
  forallb (passes calculateDistance getVehicle booking candidate w)
    [SelfExclusion; PickupProximity; DropoffProximity; TypeCompatibility] = true.
Proof.
  unfold eligible_with, service_order. cbn [app forallb].
  intros H. repeat (apply andb_true_iff in H as [? H]).
  repeat match goal with Hp : passes _ _ _ _ _ _ = true |- _ => rewrite Hp; clear Hp end.
  reflexivity.
Qed.

Lemma eligible_with_not_self (booking candidate : Booking) (w : World) :
  eligible_with calculateDistance getVehicle booking w candidate = true ->
  id candidate <> id booking.
Proof.
  intros He. apply eligible_with_manual_checks in He. cbn [forallb] in He.
  apply andb_true_iff in He as [Hself _].
  unfold passes in Hself. simpl in Hself.
  intros Hid. by rewrite bool_decide_eq_true_2 in Hself.
Qed.

Lemma checkManualMergeEligibility_run (booking : Booking)
    (candidates : list Booking) (w : World) :
  let res := checkManualMergeEligibility calculateDistance getVehicle booking
               candidates w in
  res.1 = filter (fun c => manually_eligible calculateDistance getVehicle
                             booking w c = true) candidates
  /\ same_config w res.2.
Proof.
  intros res. unfold checkManualMergeEligibility in res.
  destruct (checkManualMergeEligibility_from_spec calculateDistance getVehicle
              booking candidates [] w w (same_config_refl w)) as [Hres Hcfg].
  fold res in Hres, Hcfg. cbn [app] in Hres. done.
Qed.


(** X22.  For a base booking without a vehicle, the manual checks are a
    relaxed form of the automatic ones: every candidate that
    [checkMergeEligibility] accepts is accepted by
    [checkManualMergeEligibility] as well. *)
Theorem automatic_candidates_are_manual (booking : Booking)
    (candidates : list Booking) (w : World) :
  booking_vehicle getVehicle booking = None ->
  forall c,
    c ∈ (checkMergeEligibility calculateDistance getVehicle booking candidates w).1 ->
    c ∈ (checkManualMergeEligibility calculateDistance getVehicle booking
           candidates w).1.
Proof.
  intros Hnone c. unfold checkMergeEligibility, checkManualMergeEligibility.
  destruct (checkMergeEligibility_from_spec calculateDistance getVehicle booking
              candidates [] w w (same_config_refl w)) as [-> _].
  destruct (checkManualMergeEligibility_from_spec calculateDistance getVehicle
              booking candidates [] w w (same_config_refl w)) as [-> _].
  cbn [app]. rewrite !list_elem_of_filter. intros [He Hc]. split; [|done].
  rewrite manually_eligible_checks, Hnone, andb_true_r.
  by apply eligible_with_manual_checks.
Qed.

(** X23.  [findPotentialMergesForBooking] throws exactly when the booking is
    not found; otherwise it returns the booking with candidates taken from the
    active bookings, none of which is the booking itself, is completed or
    cancelled, or is already merged into another booking, and each of which
    passes the manual checks. *)
Theorem findPotentialMergesForBooking_candidates (bookingId : Z) (w : World) :
  let res := findPotentialMergesForBooking calculateDistance getVehicle getBooking
               getActiveBookings bookingId w in
  (res.1 = None <-> getBooking bookingId = [])
  /\ same_config w res.2
  /\ forall booking mergeCandidates,
       res.1 = Some (booking, mergeCandidates) ->
       head (getBooking bookingId) = Some booking
       /\ sublist mergeCandidates getActiveBookings
       /\ forall c, c ∈ mergeCandidates ->
            id c <> bookingId
            /\ status c <> "Completed" /\ status c <> "Cancelled"
            /\ truthy (merged_with_booking_id c) = false
            /\ manually_eligible calculateDistance getVehicle booking w c = true.
Proof.
  intros res. subst res. unfold findPotentialMergesForBooking.
  destruct (getBooking bookingId) as [|booking others].
  { cbn. split; [done|]. split; [apply same_config_refl | done]. }
  match goal with |- context [checkManualMergeEligibility _ _ _ ?l _] =>
    destruct (checkManualMergeEligibility_run booking l w)
      as (Hres & Hcfg);
    destruct (checkManualMergeEligibility calculateDistance getVehicle booking l w)
      as [cands w'] end.
  cbn [fst snd] in *. split; [done|]. split; [done|].
  intros b cs [= <- <-]. split; [done|]. subst cands. split.
  - etransitivity; apply sublist_filter.
  - intros c Hc. apply list_elem_of_filter in Hc as [He Hc].
    apply list_elem_of_filter in Hc as [(H1 & H2 & H3 & H4) _]. done.
Qed.

Lemma potentialMerges_from_spec (bookings rest : list Booking) :
  forall (potentialMerges : list (Booking * list Booking)) (w0 w : World),
    same_config w0 w ->
    let res := potentialMerges_from calculateDistance getVehicle bookings rest
                 potentialMerges w in
    same_config w0 res.2
    /\ exists more : list (Booking * list Booking),
         res.1 = potentialMerges ++ more
         /\ sublist (map fst more) rest
         /\ Forall (fun entry =>
                      truthy (merged_with_booking_id entry.1) = false
                      /\ truthy_string (trip_id entry.1) = false
                      /\ entry.2
                         = filter (fun c => eligible_with calculateDistance getVehicle
                                              entry.1 w0 c = true) bookings
                      /\ entry.2 <> [])
                   more.
Proof.
  induction rest as [|booking rest IH]; intros acc w0 w Hsame;
    cbn [potentialMerges_from].
  - split; [done|]. exists []. by rewrite app_nil_r.
  - destruct (truthy (merged_with_booking_id booking)
              || truthy_string (trip_id booking)) eqn:Hskip.
    { destruct (IH acc w0 w Hsame) as (Hcfg & more & Hres & Hsub & Hall).
      split; [done|]. exists more. split; [done|]. split; [|done].
      cbn [map]. by apply sublist_cons. }
    apply orb_false_iff in Hskip as [Hm Ht].
    unfold checkMergeEligibility.
    destruct (checkMergeEligibility_from_spec calculateDistance getVehicle booking
                bookings [] w0 w Hsame) as [Hres Hcfg].
    destruct (checkMergeEligibility_from _ _ _ _ _ w) as [cands w1].
    cbn [fst snd app] in Hres, Hcfg.
    case_bool_decide as Hlen.
    + destruct (IH (acc ++ [(booking, cands)]) w0 w1 Hcfg)
        as (Hcfg' & more & Hres' & Hsub & Hall).
      split; [done|]. exists ((booking, cands) :: more).
      split; [by rewrite Hres', <- app_assoc|]. split.
      * cbn [map fst]. by apply sublist_skip.
      * constructor; [|done]. cbn [fst snd]. repeat split; try done.
        intros ->. cbn in Hlen. lia.
    + destruct (IH acc w0 w1 Hcfg) as (Hcfg' & more & Hres' & Hsub & Hall).
      split; [done|]. exists more. split; [done|]. split; [|done].
      cbn [map]. by apply sublist_cons.
Qed.

(** X24.  [findPotentialTripMerges] lists, in their order, bookings that are
    neither merged into another booking nor on a trip, each with the non-empty
    list of the bookings that [checkMergeEligibility] accepts for it; no
    booking is its own candidate. *)
Theorem findPotentialTripMerges_entries (w : World) :
  let res := findPotentialTripMerges calculateDistance getVehicle
               getBookingsEligibleForMerging w in
  sublist (map fst res.1) getBookingsEligibleForMerging
  /\ same_config w res.2
  /\ forall booking mergeCandidates,
       (booking, mergeCandidates) ∈ res.1 ->
       truthy (merged_with_booking_id booking) = false
       /\ truthy_string (trip_id booking) = false
       /\ mergeCandidates
          = filter (fun c => eligible_with calculateDistance getVehicle
                               booking w c = true)
                   getBookingsEligibleForMerging
       /\ mergeCandidates <> []
       /\ forall c, c ∈ mergeCandidates -> id c <> id booking.
Proof.
  intros res. subst res. unfold findPotentialTripMerges.
  destruct (potentialMerges_from_spec getBookingsEligibleForMerging
              getBookingsEligibleForMerging [] w w (same_config_refl w))
    as (Hcfg & more & Hres & Hsub & Hall).
  rewrite Hres. cbn [app]. split; [done|]. split; [done|].
  intros booking cands Hin. rewrite Forall_forall in Hall.
  destruct (Hall _ Hin) as (Hm & Ht & Hc & Hne). cbn [fst snd] in *.
  repeat split; try done.
  intros c Hc'. rewrite Hc in Hc'. apply list_elem_of_filter in Hc' as [He _].
  by eapply eligible_with_not_self.
Qed.
End MergeSearchFacts.


Example manual_scenario :
  (checkManualMergeEligibility planar_distance no_vehicle booking_P
     [booking_P; booking_C; booking_other_type] fresh_world).1 = [booking_C].
Proof. vm_compute. reflexivity. Qed.

Lemma automatic_candidates_are_manual_witness :
  booking_C
    ∈ (checkManualMergeEligibility planar_distance no_vehicle booking_P
         [booking_P; booking_C; booking_other_type] lenient_world).1.
Proof.
  apply (automatic_candidates_are_manual planar_distance no_vehicle booking_P
           [booking_P; booking_C; booking_other_type] lenient_world).
  - reflexivity.
  - rewrite eligibility_scenario. left.
Defined.

Lemma findPotentialMergesForBooking_candidates_witness :
  let res := findPotentialMergesForBooking planar_distance no_vehicle
               (fun x => if x =? 1 then [booking_P] else [])
               [booking_P; booking_C; booking_other_type] 1 fresh_world in
  (res.1 = None <-> (if 1 =? 1 then [booking_P] else []) = [])
  /\ same_config fresh_world res.2
  /\ forall booking mergeCandidates,
       res.1 = Some (booking, mergeCandidates) ->
       head (if 1 =? 1 then [booking_P] else []) = Some booking
       /\ sublist mergeCandidates [booking_P; booking_C; booking_other_type]
       /\ forall c, c ∈ mergeCandidates ->
            id c <> 1
            /\ status c <> "Completed" /\ status c <> "Cancelled"
            /\ truthy (merged_with_booking_id c) = false
            /\ manually_eligible planar_distance no_vehicle booking fresh_world c
               = true.
Proof.
  exact (findPotentialMergesForBooking_candidates planar_distance no_vehicle
           (fun x => if x =? 1 then [booking_P] else [])
           [booking_P; booking_C; booking_other_type] 1 fresh_world).
Defined.

Lemma findPotentialTripMerges_entries_witness :
  let res := findPotentialTripMerges planar_distance no_vehicle
               [booking_P; booking_C; booking_other_type] lenient_world in
  sublist (map fst res.1) [booking_P; booking_C; booking_other_type]
  /\ same_config lenient_world res.2
  /\ forall booking mergeCandidates,
       (booking, mergeCandidates) ∈ res.1 ->
       truthy (merged_with_booking_id booking) = false
       /\ truthy_string (trip_id booking) = false
       /\ mergeCandidates
          = filter (fun c => eligible_with planar_distance no_vehicle
                               booking lenient_world c = true)
                   [booking_P; booking_C; booking_other_type]
       /\ mergeCandidates <> []
       /\ forall c, c ∈ mergeCandidates -> id c <> id booking.
Proof.
  exact (findPotentialTripMerges_entries planar_distance no_vehicle
           [booking_P; booking_C; booking_other_type] lenient_world).
Defined.

Example search_scenario :
  map (fun entry => (id entry.1, map id entry.2))
      (findPotentialTripMerges planar_distance no_vehicle
         [booking_P; booking_C; booking_other_type] lenient_world).1
  = [(1, [2]); (2, [1])].
Proof. vm_compute. reflexivity. Qed.

(** * The checks on a pair of requests *)

Lemma isTimeCompatible_run (timeA timeB : Z * Z) (w : World) :
  (isTimeCompatible timeA timeB w).1
  = Some (Qle_bool (inject_Z (Z.abs (timeA.1 - timeB.1)))
            (effective_number w TRIP_MERGE_PICKUP_TIME_WINDOW_MINUTES * 60 * 1000)
          && Qle_bool (inject_Z (Z.abs (timeA.2 - timeB.2)))
               (effective_number w TRIP_MERGE_DROPOFF_TIME_WINDOW_MINUTES
                * 60 * 1000)).
Proof.
  unfold isTimeCompatible. rewrite M_bind_unfold. cbn [enter].
  rewrite M_bind_unfold.
  match goal with |- context [getConfigNumber ?k ?w1] =>
    destruct (getConfigNumber_run k w1) as (Hv & Hsame & _);
    destruct (getConfigNumber k w1) as [r w2] end.
  cbn [fst snd] in Hv, Hsame. subst r. rewrite M_bind_unfold.
  destruct (getConfigNumber_run TRIP_MERGE_DROPOFF_TIME_WINDOW_MINUTES w2)
    as (Hd & _).
  destruct (getConfigNumber TRIP_MERGE_DROPOFF_TIME_WINDOW_MINUTES w2) as [d w3].
  cbn [fst] in Hd. subst d.
  destruct Hsame as [Hn _].
  rewrite <- (Hn TRIP_MERGE_DROPOFF_TIME_WINDOW_MINUTES).
  unfold effective_number at 1 3. cbn [config_numbers].
  fold (effective_number w TRIP_MERGE_PICKUP_TIME_WINDOW_MINUTES).
  fold (effective_number w TRIP_MERGE_DROPOFF_TIME_WINDOW_MINUTES).
  unfold Qgtb. destruct (Qle_bool _ _); cbn [negb andb]; [|done].
  by destruct (Qle_bool _ _).
Qed.

Lemma isPickupGapAcceptable_pair (a b : Booking) (w : World) :
  (isPickupGapAcceptable [a; b] w).1
  = Some (Qle_bool (inject_Z (Z.abs (pickup_time a - pickup_time b)))
            (effective_number w TRIP_MERGE_MAX_PICKUP_GAP_MINUTES * 60 * 1000)).
Proof.
  unfold isPickupGapAcceptable. rewrite M_bind_unfold. cbn [enter].
  rewrite M_bind_unfold.
  match goal with |- context [getConfigNumber ?k ?w1] =>
    destruct (getConfigNumber_run k w1) as (Hv & _);
    destruct (getConfigNumber k w1) as [r w2] end.
  cbn [fst] in Hv. subst r.
  unfold effective_number at 1. cbn [config_numbers].
  fold (effective_number w TRIP_MERGE_MAX_PICKUP_GAP_MINUTES).
  cbv [mret M_ret]. cbn [fst map js_sort foldr sort_insert].
  destruct (Qle_bool (inject_Z (pickup_time a - pickup_time b)) 0) eqn:Hle;
    cbn [gaps_within]; unfold Qgtb.
  - apply Qle_bool_iff in Hle. change 0%Q with (inject_Z 0) in Hle.
    rewrite <- Zle_Qle in Hle.
    replace (Z.abs (pickup_time a - pickup_time b))
      with (pickup_time b - pickup_time a) by lia.
    match goal with |- Some (if negb ?x then false else true) = _ =>
      destruct x; reflexivity end.
  - assert (~ pickup_time a - pickup_time b <= 0) as Hgt.
    { intros H. rewrite Zle_Qle in H. apply Qle_bool_iff in H.
      change (inject_Z 0) with 0%Q in H. congruence. }
    replace (Z.abs (pickup_time a - pickup_time b))
      with (pickup_time a - pickup_time b) by lia.
    match goal with |- Some (if negb ?x then false else true) = _ =>
      destruct x; reflexivity end.
Qed.

Lemma isPriorityMatchSafe_pair (a b : Booking) (w : World) :
  (isPriorityMatchSafe [a; b] w).1
  = Some (negb (effective_boolean w TRIP_MERGE_SAME_PRIORITY_REQUIRED)
          || bool_decide (priority b = priority a)).
Proof.
  unfold isPriorityMatchSafe. rewrite M_bind_unfold. cbn [enter].
  rewrite M_bind_unfold.
  match goal with |- context [getConfigBoolean ?k ?w1] =>
    destruct (getConfigBoolean_run k w1) as (Hv & _);
    destruct (getConfigBoolean k w1) as [r w2] end.
  cbn [fst] in Hv. subst r.
  unfold effective_boolean at 1. cbn [config_booleans].
  fold (effective_boolean w TRIP_MERGE_SAME_PRIORITY_REQUIRED).
  destruct (effective_boolean w TRIP_MERGE_SAME_PRIORITY_REQUIRED);
    cbn [negb orb]; [|done].
  rewrite M_bind_unfold. cbn [first_of forallb]. cbv [mret M_ret]. cbn [fst].
  by rewrite (bool_decide_eq_true_2 (priority a = priority a)),
       andb_true_r by done.
Qed.

Section PairChecks.
Variable calculateDistance : Q -> Q -> Q -> Q -> Q.
Variable getVehicle : Z -> option Vehicle.

(** X25.  On a pair of requests the pickup-gap test is the pickup half of the
    time test with the maximum gap in the place of the pickup window. So when
    the configured pickup window is not above the configured maximum gap (both
    are 15 minutes by default), a candidate that passes the time test passes
    the pickup-gap test. *)
Theorem time_compatible_pair_has_acceptable_gap (booking candidate : Booking)
    (w : World) :
  (effective_number w TRIP_MERGE_PICKUP_TIME_WINDOW_MINUTES
   <= effective_number w TRIP_MERGE_MAX_PICKUP_GAP_MINUTES)%Q ->
  passes calculateDistance getVehicle booking candidate w TimeCompatibility = true ->
  passes calculateDistance getVehicle booking candidate w PickupGap = true.
Proof.
  intros Hcfg.
  rewrite (passes_of_run calculateDistance getVehicle booking candidate w
             TimeCompatibility _ (isTimeCompatible_run _ _ _)).
  rewrite (passes_of_run calculateDistance getVehicle booking candidate w
             PickupGap _ (isPickupGapAcceptable_pair _ _ _)).
  cbn [fst]. intros H. apply andb_true_iff in H as [H _].
  apply Qle_bool_iff in H. apply Qle_bool_iff. lra.
Qed.

(** X26.  Swapping the base request and the candidate changes the outcome of
    none of the tests of the service except the vehicle test and the
    route-deviation test, the distance being symmetric. *)
Theorem pair_checks_symmetric (a b : Booking) (w : World) (c : Checkpoint) :
  (forall lat1 lon1 lat2 lon2 : Q,
     calculateDistance lat1 lon1 lat2 lon2 == calculateDistance lat2 lon2 lat1 lon1)%Q ->
  c <> VehicleCompatibility -> c <> RouteDeviation ->
  passes calculateDistance getVehicle a b w c
  = passes calculateDistance getVehicle b a w c.
Proof.
  intros Hsym Hv Hr.
  destruct c; try done.
  - rewrite (passes_of_run _ _ a b w SelfExclusion
               (negb (bool_decide (id a = id b)))) by done.
    rewrite (passes_of_run _ _ b a w SelfExclusion
               (negb (bool_decide (id b = id a)))) by done.
    f_equal. by apply bool_decide_ext.
  - rewrite !(passes_of_run _ _ _ _ _ PickupProximity _ (isPickupNearby_run _ _ _ _)).
    unfold distance_between. rewrite Hsym. do 3 f_equal. by apply bool_decide_ext.
  - rewrite !(passes_of_run _ _ _ _ _ DropoffProximity _ (isDropoffNearby_run _ _ _ _)).
    unfold distance_between. rewrite Hsym. do 3 f_equal. by apply bool_decide_ext.
  - rewrite !(passes_of_run _ _ _ _ _ TypeCompatibility _
                (isBookingTypeCompatible_pair _ _ _)).
    f_equal. by apply bool_decide_ext.
  - rewrite !(passes_of_run _ _ _ _ _ PriorityCompatibility _
                (isPriorityMatchSafe_pair _ _ _)).
    f_equal. by apply bool_decide_ext.
  - rewrite !(passes_of_run _ _ _ _ _ TimeCompatibility _ (isTimeCompatible_run _ _ _)).
    cbn [fst snd].
    replace (Z.abs (pickup_time b - pickup_time a))
      with (Z.abs (pickup_time a - pickup_time b)) by lia.
    replace (Z.abs (default (pickup_time b + 3600000) (dropoff_time b)
                    - default (pickup_time a + 3600000) (dropoff_time a)))
      with (Z.abs (default (pickup_time a + 3600000) (dropoff_time a)
                   - default (pickup_time b + 3600000) (dropoff_time b))) by lia.
    done.
  - rewrite !(passes_of_run _ _ _ _ _ PickupGap _ (isPickupGapAcceptable_pair _ _ _)).
    replace (Z.abs (pickup_time b - pickup_time a))
      with (Z.abs (pickup_time a - pickup_time b)) by lia.
    done.
Qed.
End PairChecks.

Lemma time_compatible_pair_has_acceptable_gap_witness :
  passes planar_distance no_vehicle booking_P booking_C fresh_world PickupGap = true.
Proof.
  apply (time_compatible_pair_has_acceptable_gap planar_distance no_vehicle
           booking_P booking_C fresh_world).
  - vm_compute. discriminate.
  - vm_compute. reflexivity.
Defined.

Lemma planar_distance_sym (lat1 lon1 lat2 lon2 : Q) :
  (planar_distance lat1 lon1 lat2 lon2 == planar_distance lat2 lon2 lat1 lon1)%Q.
Proof.
  unfold planar_distance.
  by rewrite (Qabs_Qminus lat2 lat1), (Qabs_Qminus lon2 lon1).
Qed.

Lemma pair_checks_symmetric_witness :
  passes planar_distance no_vehicle booking_P booking_C fresh_world PickupProximity
  = passes planar_distance no_vehicle booking_C booking_P fresh_world PickupProximity.
Proof.
  apply (pair_checks_symmetric planar_distance no_vehicle booking_P booking_C
           fresh_world PickupProximity).
  - exact planar_distance_sym.
  - discriminate.
  - discriminate.
Defined.

(** * The configuration service *)

Lemma getConfigNumber_after_set (key : NumberKey) (value : Q) (w : World) :
  let w1 := (setConfigNumber key value w).2 in
  getConfigNumber key w1 = (Some value, w1).
Proof.
  unfold setConfigNumber, getConfigNumber.
  destruct (config_numbers w !! key) as [old|] eqn:Hold; cbn [snd config_numbers].
  - by rewrite lookup_alter_eq, Hold.
  - by rewrite lookup_insert_eq.
Qed.

(** X27.  A value written with [setConfigValue] is the value that
    [getConfigValue] returns next, whether the key had an entry or not; the
    read finds the entry and writes nothing; and the write changes the value
    of no other key. *)
Theorem config_set_then_get (key : NumberKey) (value : Q) (w : World) :
  let w1 := (setConfigNumber key value w).2 in
  getConfigNumber key w1 = (Some value, w1)
  /\ (forall key', key' <> key ->
        effective_number w1 key' = effective_number w key')
  /\ (forall key', effective_boolean w1 key' = effective_boolean w key')
  /\ entered w1 = entered w.
Proof.
  unfold setConfigNumber, getConfigNumber, effective_number, effective_boolean.
  destruct (config_numbers w !! key) as [old|] eqn:Hold; cbn [snd config_numbers
    config_booleans entered].
  - rewrite lookup_alter_eq, Hold. cbn. split; [done|]. split; [|done].
    intros key' Hne. by rewrite lookup_alter_ne.
  - rewrite lookup_insert_eq. split; [done|]. split; [|done].
    intros key' Hne. by rewrite lookup_insert_ne.
Qed.

Lemma config_set_then_get_witness :
  let w1 := (setConfigNumber TRIP_MERGE_PICKUP_DISTANCE_KM 5 fresh_world).2 in
  getConfigNumber TRIP_MERGE_PICKUP_DISTANCE_KM w1 = (Some 5%Q, w1)
  /\ (forall key', key' <> TRIP_MERGE_PICKUP_DISTANCE_KM ->
        effective_number w1 key' = effective_number fresh_world key')
  /\ (forall key', effective_boolean w1 key' = effective_boolean fresh_world key')
  /\ entered w1 = entered fresh_world.
Proof.
  exact (config_set_then_get TRIP_MERGE_PICKUP_DISTANCE_KM 5 fresh_world).
Defined.

(** X28.  After the maximum pickup distance has been set to [d], the pickup
    test rejects every pair of pickups that are more than [d] apart, whatever
    the default is. *)
Theorem configured_pickup_distance_is_used
    (calculateDistance : Q -> Q -> Q -> Q -> Q) (pickupA pickupB : Location)
    (d : Q) (w : World) :
  (isPickupNearby calculateDistance pickupA pickupB
     (setConfigNumber TRIP_MERGE_PICKUP_DISTANCE_KM d w).2).1 = Some true ->
  (distance_between calculateDistance pickupA pickupB <= d)%Q.
Proof.
  rewrite isPickupNearby_run.
  pose proof (getConfigNumber_after_set TRIP_MERGE_PICKUP_DISTANCE_KM d w) as Hget.
  cbv zeta in Hget.
  destruct (getConfigNumber_run TRIP_MERGE_PICKUP_DISTANCE_KM
              (setConfigNumber TRIP_MERGE_PICKUP_DISTANCE_KM d w).2) as (Hrun & _).
  rewrite Hget in Hrun. cbn [fst] in Hrun. injection Hrun as <-.
  intros [= H]. apply andb_true_iff in H as [H _]. by apply Qle_bool_iff.
Qed.

Lemma configured_pickup_distance_is_used_witness :
  (distance_between planar_distance
     (pickup_location booking_P) (pickup_location booking_C) <= 5)%Q.
Proof.
  apply (configured_pickup_distance_is_used planar_distance
           (pickup_location booking_P) (pickup_location booking_C) 5 fresh_world).
  vm_compute. reflexivity.
Defined.

(** X29.  Once [getGoogleMapsApiKey] has a key in its cache, every later call
    returns that key and keeps it, whatever the environment holds by then. A
    key is cached only when it is longer than ten characters: from an empty
    cache, a shorter key of the environment or of the configuration is
    returned without being cached. *)
Theorem api_key_cache (envKey : option string) (configKey : string)
    (cachedApiKey : option string) :
  let run := getGoogleMapsApiKey envKey configKey cachedApiKey in
  (truthy_string run.2 = true ->
   run.2 = Some run.1
   /\ forall (envKey2 : option string) (configKey2 : string),
        getGoogleMapsApiKey envKey2 configKey2 run.2 = run)
  /\ (truthy_string cachedApiKey = false ->
      (truthy_string run.2 = true <-> (10 < String.length run.1)%nat)
      /\ (truthy_string run.2 = false -> run.2 = cachedApiKey)).
Proof.
  unfold getGoogleMapsApiKey.
  destruct (truthy_string cachedApiKey) eqn:Hcache.
  { cbn [fst snd]. split; [|done]. intros _.
    destruct cachedApiKey as [k|]; [|done]. cbn [default]. split; [done|].
    intros env2 cfg2. by rewrite Hcache. }
  destruct (truthy_string envKey
            && bool_decide (10 < String.length (default "" envKey))%nat) eqn:Henv.
  { apply andb_true_iff in Henv as [Hne Hlen]. apply bool_decide_eq_true in Hlen.
    destruct envKey as [k|]; [|done]. cbn [default fst snd] in *.
    split; [|intros _; split; [by rewrite Hne | by rewrite Hne]].
    intros _. split; [done|]. intros env2 cfg2. by rewrite Hne. }
  destruct (negb (bool_decide (configKey = ""))
            && bool_decide (10 < String.length configKey)%nat) eqn:Hcfg.
  { apply andb_true_iff in Hcfg as [Hne Hlen]. apply bool_decide_eq_true in Hlen.
    cbn [fst snd truthy_string].
    split; [|intros _; split; [by rewrite Hne | by rewrite Hne]].
    intros _. split; [done|]. intros env2 cfg2. by rewrite Hne. }
  cbn [fst snd]. rewrite Hcache. split; [done|]. intros _. split; [|done].
  split; [done|]. intros Hlen. exfalso.
  destruct (truthy_string envKey) eqn:He.
  - cbn [andb] in Henv. apply bool_decide_eq_false in Henv. done.
  - destruct (negb (bool_decide (configKey = ""))) eqn:Hc.
    + cbn [andb] in Hcfg. apply bool_decide_eq_false in Hcfg. done.
    + cbn in Hlen. lia.
Qed.

Lemma api_key_cache_witness :
  let run := getGoogleMapsApiKey (Some "AIzaSy-configured-key") "" None in
  run.2 = Some run.1
  /\ forall (envKey2 : option string) (configKey2 : string),
       getGoogleMapsApiKey envKey2 configKey2 run.2 = run.
Proof.
  apply (api_key_cache (Some "AIzaSy-configured-key") "" None). reflexivity.
Defined.

(** * The center of a set of points *)

(** X30.  [calculateCenter] throws exactly on an empty array.  Its sums and
    quotients are those of doubles, so the center need not lie between the
    least and the greatest of the coordinates: the center of three points of
    latitude and longitude 0.1 has the latitude 0.10000000000000002, which is
    greater than 0.1. *)
Theorem calculateCenter_in_doubles :
  (forall coords : list LatLng, calculateCenter coords = None <-> coords = [])
  /\ (let point := mkLatLng (1 # 10) (1 # 10) in
      exists center : Center,
        calculateCenter [point; point; point] = Some center
        /\ center_lat center
           = double_of_Q (7205759403792795 # 72057594037927936)
        /\ center_lat center = S754_finite false 7205759403792795 (-56)
        /\ double_of_Q (1 # 10) = S754_finite false 7205759403792794 (-56)
        /\ SFltb (double_of_Q (1 # 10)) (center_lat center) = true).
Proof.
  split.
  - intros coords. unfold calculateCenter. case_bool_decide as Hlen.
    + split; [intros _|done]. by apply length_zero_iff_nil.
    + split; [done|]. by intros ->.
  - eexists. split; [vm_compute; reflexivity|]. cbn [center_lat].
    repeat split; vm_compute; reflexivity.
Qed.
